(** * behavior3editor: the tree model and validation engine (b3util)

    A shallow embedding of the tree utilities of the editor: the argument
    and slot validators, the conversion between the stored node model and
    the in-memory graph node, subtree resolution with its in-progress
    stack, and the pass that numbers the nodes and computes their status
    bitmask.  Definitions follow the TypeScript source function by
    function and keep its names. *)

From Stdlib Require Import ZArith List String Ascii Bool Lia FinFun.
From Stdlib Require Import QArith_base Qround.
From Stdlib Require Import DecimalString DecimalZ DecimalPos.
Import ListNotations.
Set Warnings "-register-all".
Close Scope Q_scope.
Local Open Scope string_scope.
Local Open Scope bool_scope.

(* ================================================================== *)
(** ** JavaScript values and the built-ins the module relies on *)
(* ================================================================== *)

Module JS.

(** Values held in [args] (typed [any] in the source).  Numbers are
    finite: a stored tree is JSON, which has neither NaN nor
    infinities. *)
Inductive value : Type :=
| Undefined
| Null
| Bool (b : bool)
| Num (q : Q)
| Str (s : string)
| Arr (l : list value)
| Obj (l : list (string * value)).

Definition is_undefined (v : value) : bool :=
  match v with Undefined => true | _ => false end.

(** [typeof v === "number"] *)
Definition is_number (v : value) : bool :=
  match v with Num _ => true | _ => false end.

(** [typeof v === "boolean"] *)
Definition is_boolean (v : value) : bool :=
  match v with Bool _ => true | _ => false end.

(** [typeof v === "string" && v]: a non-empty string *)
Definition is_nonempty_string (v : value) : bool :=
  match v with Str s => negb (s =? "") | _ => false end.

(** [v === ""] *)
Definition is_empty_string (v : value) : bool :=
  match v with Str s => s =? "" | _ => false end.

(** [typeof v === "number" && v === Math.floor(v)] *)
Definition is_integral (v : value) : bool :=
  match v with Num q => Qeq_bool q (inject_Z (Qfloor q)) | _ => false end.

(** Strict equality [a === b].  Arrays and objects compare by
    reference; two values read from stored documents never share
    one, so they are unequal here. *)
Definition strict_equal (a b : value) : bool :=
  match a, b with
  | Undefined, Undefined => true
  | Null, Null => true
  | Bool x, Bool y => Bool.eqb x y
  | Num x, Num y => Qeq_bool x y
  | Str x, Str y => x =? y
  | _, _ => false
  end.

(** [s.startsWith(t)] *)
Definition startsWith (s t : string) : bool := String.prefix t s.

(** [s.includes(t)] *)
Fixpoint includes (s t : string) : bool :=
  String.prefix t s ||
  match s with
  | EmptyString => false
  | String _ s' => includes s' t
  end.

(** [s.endsWith(t)]: some suffix of [s] is [t] *)
Fixpoint endsWith (s t : string) : bool :=
  (s =? t) ||
  match s with
  | EmptyString => false
  | String _ s' => endsWith s' t
  end.

(** The [number] type at the places where the module keeps node ids:
    an integer, or NaN. *)
Inductive number : Type :=
| Int (z : Z)
| NaN.

(** [z.toString()] and [z.toFixed()] of an integer: its decimal
    numeral (the integers a number holds exactly, below 1e21 where the
    language switches to exponent notation). *)
Definition Z_toString (z : Z) : string :=
  NilZero.string_of_int (Z.to_int z).

Definition toFixed (n : number) : string :=
  match n with
  | Int z => Z_toString z
  | NaN => "NaN"
  end.

(** [Number(s)] on the strings the module stores in [id]: a decimal
    numeral with an optional minus sign, and the empty string (0).
    Every other string is read as NaN. *)
Definition Number (s : string) : number :=
  match s with
  | EmptyString => Int 0
  | _ => match NilZero.int_of_string s with
         | Some d => Int (Z.of_int d)
         | None => NaN
         end
  end.

(** [x || undefined] on an optional string and an optional boolean *)
Definition or_undefined_string (x : option string) : option string :=
  match x with
  | Some s => if s =? "" then None else Some s
  | None => None
  end.

Definition or_undefined_bool (x : option bool) : option bool :=
  match x with
  | Some true => Some true
  | _ => None
  end.

(** Truthiness of an optional string and an optional boolean *)
Definition truthy_string (x : option string) : bool :=
  match x with
  | Some s => negb (s =? "")
  | None => false
  end.

Definition truthy_bool (x : option bool) : bool :=
  match x with
  | Some b => b
  | None => false
  end.

(** [v ?? ""] *)
Definition or_empty_string (v : value) : value :=
  match v with
  | Undefined | Null => Str ""
  | _ => v
  end.

(** An optional string seen as a value ([undefined] when absent) *)
Definition of_option_string (x : option string) : value :=
  match x with
  | Some s => Str s
  | None => Undefined
  end.

(** Property read [o?.[k]] on an object kept as an association list *)
Fixpoint assoc (k : string) (o : list (string * value)) : value :=
  match o with
  | [] => Undefined
  | (k', v) :: o' => if k' =? k then v else assoc k o'
  end.

Definition get (o : option (list (string * value))) (k : string) : value :=
  match o with
  | Some l => assoc k l
  | None => Undefined
  end.

(** Property write [o[k] = v]: an existing key keeps its position *)
Fixpoint set (k : string) (v : value) (o : list (string * value))
  : list (string * value) :=
  match o with
  | [] => [(k, v)]
  | (k', v') :: o' => if k' =? k then (k', v) :: o' else (k', v') :: set k v o'
  end.

End JS.

(* ================================================================== *)
(** ** Data model (b3type) *)
(* ================================================================== *)

Record ArgOption : Type := {
  option_name : string;
  option_value : JS.value
}.

Record NodeArg : Type := {
  arg_name : string;
  arg_type : string;
  arg_desc : string;
  arg_oneof : option string;
  arg_options : option (list ArgOption)
}.

Record NodeDef : Type := {
  def_name : string;
  def_desc : option string;
  def_args : option (list NodeArg);
  def_input : option (list string);
  def_output : option (list string);
  def_children : option Z;
  def_status : option (list string)
}.

Definition Args : Type := list (string * JS.value).

(** The stored node. *)
Inductive NodeModel : Type := mkNodeModel {
  nm_id : JS.number;
  nm_name : string;
  nm_desc : option string;
  nm_args : option Args;
  nm_input : option (list string);
  nm_output : option (list string);
  nm_children : option (list NodeModel);
  nm_debug : option bool;
  nm_disabled : option bool;
  nm_path : option string
}.

(** The in-memory graph node.  The [size] field, a layout footprint
    computed from canvas text metrics, is left out. *)
Inductive TreeGraphData : Type := mkTreeGraphData {
  td_id : string;
  td_name : string;
  td_desc : option string;
  td_args : option Args;
  td_input : option (list string);
  td_output : option (list string);
  td_children : option (list TreeGraphData);
  td_debug : option bool;
  td_disabled : option bool;
  td_path : option string;
  td_def : NodeDef;
  td_parent : option string;
  td_status : option Z;
  td_lastModified : option Z
}.

Definition set_id (v : string) (d : TreeGraphData) : TreeGraphData :=
  mkTreeGraphData v (td_name d) (td_desc d) (td_args d) (td_input d)
    (td_output d) (td_children d) (td_debug d) (td_disabled d) (td_path d)
    (td_def d) (td_parent d) (td_status d) (td_lastModified d).

Definition set_children (v : option (list TreeGraphData)) (d : TreeGraphData)
  : TreeGraphData :=
  mkTreeGraphData (td_id d) (td_name d) (td_desc d) (td_args d) (td_input d)
    (td_output d) v (td_debug d) (td_disabled d) (td_path d)
    (td_def d) (td_parent d) (td_status d) (td_lastModified d).

Definition set_debug (v : option bool) (d : TreeGraphData) : TreeGraphData :=
  mkTreeGraphData (td_id d) (td_name d) (td_desc d) (td_args d) (td_input d)
    (td_output d) (td_children d) v (td_disabled d) (td_path d)
    (td_def d) (td_parent d) (td_status d) (td_lastModified d).

Definition set_disabled (v : option bool) (d : TreeGraphData) : TreeGraphData :=
  mkTreeGraphData (td_id d) (td_name d) (td_desc d) (td_args d) (td_input d)
    (td_output d) (td_children d) (td_debug d) v (td_path d)
    (td_def d) (td_parent d) (td_status d) (td_lastModified d).

Definition set_path (v : option string) (d : TreeGraphData) : TreeGraphData :=
  mkTreeGraphData (td_id d) (td_name d) (td_desc d) (td_args d) (td_input d)
    (td_output d) (td_children d) (td_debug d) (td_disabled d) v
    (td_def d) (td_parent d) (td_status d) (td_lastModified d).

Definition set_parent (v : option string) (d : TreeGraphData) : TreeGraphData :=
  mkTreeGraphData (td_id d) (td_name d) (td_desc d) (td_args d) (td_input d)
    (td_output d) (td_children d) (td_debug d) (td_disabled d) (td_path d)
    (td_def d) v (td_status d) (td_lastModified d).

Definition set_status (v : option Z) (d : TreeGraphData) : TreeGraphData :=
  mkTreeGraphData (td_id d) (td_name d) (td_desc d) (td_args d) (td_input d)
    (td_output d) (td_children d) (td_debug d) (td_disabled d) (td_path d)
    (td_def d) (td_parent d) v (td_lastModified d).

Definition set_lastModified (v : option Z) (d : TreeGraphData) : TreeGraphData :=
  mkTreeGraphData (td_id d) (td_name d) (td_desc d) (td_args d) (td_input d)
    (td_output d) (td_children d) (td_debug d) (td_disabled d) (td_path d)
    (td_def d) (td_parent d) (td_status d) v.

(** What the validators read of their [NodeModel | TreeGraphData]
    argument: the id as it prints, the name, the arguments and the
    input slots. *)
Record NodeLike : Type := {
  l_id : string;
  l_name : string;
  l_args : option Args;
  l_input : option (list string)
}.

Definition ofModel (n : NodeModel) : NodeLike :=
  {| l_id := JS.toFixed (nm_id n); l_name := nm_name n;
     l_args := nm_args n; l_input := nm_input n |}.

Definition ofGraph (d : TreeGraphData) : NodeLike :=
  {| l_id := td_id d; l_name := td_name d;
     l_args := td_args d; l_input := td_input d |}.

(** The host of the module: the workspace's registry of node
    definitions, the kind tests of b3type, and the two ways the
    language prints a value into a message. *)
Class Env : Type := {
  getNodeDef : string -> NodeDef;
  unknownNodeDef : NodeDef;
  isFloatType : string -> bool;
  isIntType : string -> bool;
  isStringType : string -> bool;
  isEnumType : string -> bool;
  isExprType : string -> bool;
  isJsonType : string -> bool;
  isBoolType : string -> bool;
  JSON_stringify : JS.value -> string;
  template : JS.value -> string
}.

(** Subtree files, by path below the working directory.  A path with no
    entry is a file that cannot be read or parsed. *)
Record File : Type := {
  file_root : NodeModel;
  file_mtimeMs : Z
}.

Definition FileSystem : Type := list (string * File).

Fixpoint readTree (fs : FileSystem) (path : string) : option File :=
  match fs with
  | [] => None
  | (p, f) :: fs' => if p =? path then Some f else readTree fs' path
  end.

(* ================================================================== *)
(** ** Validation: diagnostics and thrown errors *)
(* ================================================================== *)

(** A validator returns a value, or throws (a [TypeError] on reading a
    property of [undefined] or [null]); in both cases it has written
    lines with [console.error]. *)
Definition Diag (A : Type) : Type := (option A * list string)%type.

Definition ret {A : Type} (a : A) : Diag A := (Some a, []).

Definition throw {A : Type} : Diag A := (None, []).

Definition bind {A B : Type} (m : Diag A) (f : A -> Diag B) : Diag B :=
  match m with
  | (Some a, l) => let (r, l') := f a in (r, (l ++ l')%list)
  | (None, l) => (None, l)
  end.

Notation "x <- m ;; k" := (bind m (fun x => k))
  (at level 61, m at next level, right associativity).
Notation "m ;;; k" := (bind m (fun _ => k))
  (at level 61, right associativity).

Definition console_error (line : string) : Diag unit := (Some tt, [line]).

Definition when (b : bool) (m : Diag unit) : Diag unit :=
  if b then m else ret tt.

Definition lift {A : Type} (o : option A) : Diag A :=
  match o with
  | Some a => ret a
  | None => throw
  end.

Definition result {A : Type} (m : Diag A) : option A := fst m.
Definition output {A : Type} (m : Diag A) : list string := snd m.

(** [error(data, msg)] *)
Definition error (data : NodeLike) (msg : string) : Diag unit :=
  console_error ("check " ++ l_id data ++ "|" ++ l_name data ++ ": " ++ msg).

(** The characters of the regular expression class [\w] *)
Definition is_word_char (c : ascii) : bool :=
  let n := nat_of_ascii c in
  ((48 <=? n)%nat && (n <=? 57)%nat) || ((65 <=? n)%nat && (n <=? 90)%nat) ||
  ((97 <=? n)%nat && (n <=? 122)%nat) || (n =? 95)%nat.

Fixpoint word_prefix (s : string) : string :=
  match s with
  | EmptyString => ""
  | String c s' => if is_word_char c then String c (word_prefix s') else ""
  end.

(** [arg.type.match(/^\w+/)![0]]: no match is [null], and reading its
    element 0 throws. *)
Definition getNodeArgRawType (arg : NodeArg) : option string :=
  match word_prefix (arg_type arg) with
  | EmptyString => None
  | w => Some w
  end.

Definition isNodeArgArray (arg : NodeArg) : bool :=
  JS.includes (arg_type arg) "[]".

Definition isNodeArgOptional (arg : NodeArg) : bool :=
  JS.includes (arg_type arg) "?".

(** [checkOneof(argValue, inputValue)] *)
Definition checkOneof (argValue inputValue : JS.value) : bool :=
  let argValue := if JS.is_undefined argValue then JS.Str "" else argValue in
  let inputValue := JS.or_empty_string inputValue in
  (negb (JS.is_empty_string argValue) && JS.is_empty_string inputValue) ||
  (JS.is_empty_string argValue && negb (JS.is_empty_string inputValue)).

(** [inputDef.findIndex(v => v.startsWith(tag))], [None] for -1 *)
Fixpoint findIndex (f : string -> bool) (l : list string) : option nat :=
  match l with
  | [] => None
  | x :: l' => if f x then Some 0%nat else option_map S (findIndex f l')
  end.

(** [slots?.[index]] *)
Definition slotAt (slots : option (list string)) (index : nat) : option string :=
  match slots with
  | Some l => nth_error l index
  | None => None
  end.

(** [isValidInputOrOutput(inputDef, inputData, index)], as the truth
    value of what it returns; [inputDef[index]] out of range is
    [undefined], whose [includes] throws. *)
Definition isValidInputOrOutput (inputDef : list string)
  (inputData : option (list string)) (index : nat) : option bool :=
  match nth_error inputDef index with
  | None => None
  | Some d =>
      Some (JS.includes d "?" ||
            JS.truthy_string (slotAt inputData index) ||
            ((index =? List.length inputDef - 1)%nat && JS.endsWith d "..."))
  end.

Section Validators.

Context {env : Env}.

(** [checkNodeArgValue(data, arg, value, verbose)] *)
Definition checkNodeArgValue (data : NodeLike) (arg : NodeArg)
  (value : JS.value) (verbose : bool) : Diag bool :=
  type <- lift (getNodeArgRawType arg) ;;
  hasError <-
    (if isFloatType type then
       let isNumber := JS.is_number value in
       let isOptional := JS.is_undefined value && isNodeArgOptional arg in
       if negb (isNumber || isOptional) then
         when verbose
           (error data ("'" ++ arg_name arg ++ "=" ++ JSON_stringify value
                        ++ "' is not a number")) ;;;
         ret true
       else ret false
     else if isIntType type then
       let isInt := JS.is_integral value in
       let isOptional := JS.is_undefined value && isNodeArgOptional arg in
       if negb (isInt || isOptional) then
         when verbose
           (error data ("'" ++ arg_name arg ++ "=" ++ JSON_stringify value
                        ++ "' is not a int")) ;;;
         ret true
       else ret false
     else if isStringType type then
       let isString := JS.is_nonempty_string value in
       let isOptional :=
         (JS.is_undefined value || JS.is_empty_string value)
         && isNodeArgOptional arg in
       if negb (isString || isOptional) then
         when verbose
           (error data ("'" ++ arg_name arg ++ "=" ++ JSON_stringify value
                        ++ "' is not a string")) ;;;
         ret true
       else ret false
     else if isEnumType type then
       let isEnum :=
         match arg_options arg with
         | Some opts =>
             existsb (fun o => JS.strict_equal (option_value o) value) opts
         | None => false
         end in
       let isOptional := JS.is_undefined value && isNodeArgOptional arg in
       if negb (isEnum || isOptional) then
         when verbose
           (error data ("'" ++ arg_name arg ++ "=" ++ JSON_stringify value
                        ++ "' is not a one of the option values")) ;;;
         ret true
       else ret false
     else if isExprType type then
       let isExpr := JS.is_nonempty_string value in
       let isOptional :=
         (JS.is_undefined value || JS.is_empty_string value)
         && isNodeArgOptional arg in
       if negb (isExpr || isOptional) then
         when verbose
           (error data ("'" ++ arg_name arg ++ "=" ++ JSON_stringify value
                        ++ "' is not an expr string")) ;;;
         ret true
       else ret false
     else if isJsonType type then
       let isJson :=
         negb (JS.is_undefined value) && negb (JS.is_empty_string value) in
       let isOptional := isNodeArgOptional arg in
       if negb (isJson || isOptional) then
         when verbose
           (error data ("'" ++ arg_name arg ++ "=" ++ template value
                        ++ "' is not an invalid object")) ;;;
         ret true
       else ret false
     else if isBoolType type then
       let isBool := JS.is_boolean value || JS.is_undefined value in
       if negb isBool then
         when verbose
           (error data ("'" ++ arg_name arg ++ "=" ++ JSON_stringify value
                        ++ "' is not a boolean")) ;;;
         ret true
       else ret false
     else
       error data ("unknown arg type '" ++ arg_type arg ++ "'") ;;;
       ret false) ;;
  ret (negb hasError).

(** The loop of [checkNodeArg] over the elements of an array value:
    every element is checked, none stops the loop. *)
Fixpoint checkElements (data : NodeLike) (arg : NodeArg)
  (values : list JS.value) (verbose : bool) (hasError : bool) : Diag bool :=
  match values with
  | [] => ret hasError
  | v :: rest =>
      ok <- checkNodeArgValue data arg v verbose ;;
      checkElements data arg rest verbose (if ok then hasError else true)
  end.

(** [checkNodeArg(data, conf, i, verbose)] *)
Definition checkNodeArg (data : NodeLike) (conf : NodeDef) (i : nat)
  (verbose : bool) : Diag bool :=
  arg <- lift (match def_args conf with
               | Some l => nth_error l i
               | None => None
               end) ;;
  let value := JS.get (l_args data) (arg_name arg) in
  hasError <-
    (if isNodeArgArray arg then
       match value with
       | JS.Arr elems =>
           if negb (isNodeArgOptional arg) && (List.length elems =? 0)%nat then
             when verbose
               (error data ("'" ++ arg_name arg ++ "=" ++ JSON_stringify value
                            ++ "' is not an array or empty array")) ;;;
             ret true
           else checkElements data arg elems verbose false
       | _ =>
           when verbose
             (error data ("'" ++ arg_name arg ++ "=" ++ JSON_stringify value
                          ++ "' is not an array or empty array")) ;;;
           ret true
       end
     else
       ok <- checkNodeArgValue data arg value verbose ;;
       ret (negb ok)) ;;
  match arg_oneof arg with
  | Some tag =>
      let idx :=
        match def_input conf with
        | Some l => findIndex (fun v => JS.startsWith v tag) l
        | None => None
        end in
      let inputValue :=
        match idx with
        | Some n => slotAt (l_input data) n
        | None => None
        end in
      if negb (checkOneof (JS.get (l_args data) (arg_name arg))
                          (JS.of_option_string inputValue)) then
        when verbose
          (error data ("only one is allowed for between argument '"
                       ++ arg_name arg ++ "' and input '"
                       ++ template (JS.of_option_string inputValue) ++ "'")) ;;;
        ret false
      else ret (negb hasError)
  | None => ret (negb hasError)
  end.

End Validators.

(* ================================================================== *)
(** ** Validation of a stored tree: [checkNodeData] *)
(* ================================================================== *)

(** The array element write [a[i] = v].  Inside the slot loops [i] is at
    most the length of the array, so the write replaces an element or
    appends one; a longer jump would leave holes, padded here. *)
Fixpoint assign (a : list string) (i : nat) (v : string) : list string :=
  match a, i with
  | [], O => [v]
  | [], S i' => "" :: assign [] i' v
  | _ :: a', O => v :: a'
  | x :: a', S i' => x :: assign a' i' v
  end.

(** [if (!a[i]) a[i] = ""] *)
Definition fillSlot (a : list string) (i : nat) : list string :=
  if JS.truthy_string (nth_error a i) then a else assign a i "".

(** [a.at(-1)] *)
Definition at_last (a : list string) : option string :=
  nth_error a (List.length a - 1).

Section CheckNodeData.

Context {env : Env}.

(** The loop over the declared slots, input or output: the slot array
    is created when missing, each missing or empty slot is set to the
    empty string, each slot is judged, and the loop notes whether the
    last descriptor is variadic. *)
Fixpoint checkSlotLoop (data : NodeLike) (what : string)
  (slotDef : list string) (indices : list nat)
  (slots : option (list string)) (hasError hasVariadic : bool)
  : Diag (option (list string) * bool * bool) :=
  match indices with
  | [] => ret (slots, hasError, hasVariadic)
  | i :: rest =>
      let a := match slots with Some l => l | None => [] end in
      let a := fillSlot a i in
      valid <- lift (isValidInputOrOutput slotDef (Some a) i) ;;
      hasError' <-
        (if negb valid then
           error data (what ++ " field '" ++ nth i slotDef "" ++ "' is required") ;;;
           ret true
         else ret hasError) ;;
      let hasVariadic' :=
        if (i =? List.length slotDef - 1)%nat &&
           match at_last slotDef with
           | Some d => JS.endsWith d "..."
           | None => false
           end
        then true else hasVariadic in
      checkSlotLoop data what slotDef rest (Some a) hasError' hasVariadic'
  end.

(** One slot list of [checkNodeData]: the loop, then the truncation
    [slots.length = conf.length || 0] unless the list is variadic. *)
Definition checkSlots (data : NodeLike) (what : string)
  (slotDef : option (list string)) (slots : option (list string))
  (hasError : bool) : Diag (option (list string) * bool) :=
  r <- match slotDef with
       | Some defs =>
           checkSlotLoop data what defs (seq 0 (List.length defs))
             slots hasError false
       | None => ret (slots, hasError, false)
       end ;;
  let '(slots', hasError', hasVariadic) := r in
  let n := match slotDef with Some defs => List.length defs | None => O end in
  ret (match slots' with
       | Some a => if negb hasVariadic then Some (firstn n a) else Some a
       | None => None
       end, hasError').

(** The loop over the declared arguments: the arguments of the node
    are rebuilt from the declared names, and each is checked against
    the node as it is before the rebuilt arguments are stored. *)
Fixpoint checkArgLoop (data : NodeLike) (conf : NodeDef)
  (declared : list NodeArg) (i : nat) (args : Args) (hasError : bool)
  : Diag (Args * bool) :=
  match declared with
  | [] => ret (args, hasError)
  | a :: rest =>
      let key := arg_name a in
      let value := JS.get (l_args data) key in
      let args' := if JS.is_undefined value then args else JS.set key value args in
      ok <- checkNodeArg data conf i true ;;
      checkArgLoop data conf rest (S i) args' (if ok then hasError else true)
  end.

(** The loop of [checkNodeData] over the children: every child is
    checked, a failing child does not stop the loop. *)
Definition checkChildren (check : NodeModel -> Diag (bool * NodeModel))
  : list NodeModel -> bool -> Diag (list NodeModel * bool) :=
  fix each (cs : list NodeModel) (hasError : bool)
    : Diag (list NodeModel * bool) :=
    match cs with
    | [] => ret ([], hasError)
    | child :: rest =>
        r <- check child ;;
        rs <- each rest (if fst r then hasError else true) ;;
        ret (snd r :: fst rs, snd rs)
    end.

(** [checkNodeData(data)] for a node that is present.  It returns the
    verdict and the node as the call leaves it: slots filled and
    truncated, arguments rebuilt, [children] set. *)
Fixpoint checkNodeData (data : NodeModel) : Diag (bool * NodeModel) :=
  let conf := getNodeDef (nm_name data) in
  if def_name conf =? def_name unknownNodeDef then
    error (ofModel data) ("undefined node: " ++ nm_name data) ;;;
    ret (false, data)
  else
    let count :=
      match nm_children data with
      | Some cs => Z.of_nat (List.length cs)
      | None => 0%Z
      end in
    hasError0 <-
      (match def_children conf with
       | Some n =>
           if negb (n =? -1)%Z && negb (n =? count)%Z then
             error (ofModel data)
               ("expect " ++ JS.Z_toString n ++ " children, but got "
                ++ JS.Z_toString count) ;;;
             ret true
           else ret false
       | None => ret false
       end) ;;
    r1 <- checkSlots (ofModel data) "intput" (def_input conf)
            (nm_input data) hasError0 ;;
    let '(input', hasError1) := r1 in
    r2 <- checkSlots (ofModel data) "output" (def_output conf)
            (nm_output data) hasError1 ;;
    let '(output', hasError2) := r2 in
    let view :=
      {| l_id := JS.toFixed (nm_id data); l_name := nm_name data;
         l_args := nm_args data; l_input := input' |} in
    r3 <- (match def_args conf with
           | Some declared =>
               r <- checkArgLoop view conf declared 0 [] hasError2 ;;
               ret (Some (fst r), snd r)
           | None => ret (nm_args data, hasError2)
           end) ;;
    let '(args', hasError3) := r3 in
    r4 <- (match nm_children data with
           | Some cs => checkChildren checkNodeData cs hasError3
           | None => ret ([], hasError3)
           end) ;;
    let '(children', hasError4) := r4 in
    ret (negb hasError4,
         mkNodeModel (nm_id data) (nm_name data) (nm_desc data) args'
           input' output' (Some children') (nm_debug data)
           (nm_disabled data) (nm_path data)).

(** [checkNodeData(data)] as it is exported, for
    [data: NodeModel | null | undefined].  The guard
    [if (!data) return false] answers [false] for [null] and
    [undefined] and writes nothing; a node that is present goes
    through the body above.  The children of a stored node are nodes
    ([children?: NodeModel[]]), so the calls on them pass the guard. *)
Definition checkNodeData_nullable (data : option NodeModel)
  : Diag (bool * option NodeModel) :=
  match data with
  | None => ret (false, None)
  | Some node =>
      r <- checkNodeData node ;;
      ret (fst r, Some (snd r))
  end.

(** [checkChildrenLimit(data)] *)
Definition checkChildrenLimit (data : TreeGraphData) : bool :=
  match def_children (td_def data) with
  | Some n =>
      if negb (n =? -1)%Z then
        (match td_children data with
         | Some cs => Z.of_nat (List.length cs)
         | None => 0%Z
         end =? n)%Z
      else true
  | None => true
  end.

(** The slot loops of [checkTreeData]: the first invalid slot stops
    the check. *)
Fixpoint allSlotsValid (slotDef : list string) (slots : option (list string))
  (indices : list nat) : option bool :=
  match indices with
  | [] => Some true
  | i :: rest =>
      match isValidInputOrOutput slotDef slots i with
      | Some true => allSlotsValid slotDef slots rest
      | Some false => Some false
      | None => None
      end
  end.

Fixpoint allArgsValid (data : NodeLike) (conf : NodeDef) (n : nat) (i : nat)
  : Diag bool :=
  match n with
  | O => ret true
  | S n' =>
      ok <- checkNodeArg data conf i false ;;
      if ok then allArgsValid data conf n' (S i) else ret false
  end.

(** [checkTreeData(data)] *)
Definition checkTreeData (data : TreeGraphData) : Diag bool :=
  let conf := td_def data in
  okIn <- lift (match def_input conf with
                | Some defs =>
                    allSlotsValid defs (td_input data) (seq 0 (List.length defs))
                | None => Some true
                end) ;;
  if negb okIn then ret false else
  okOut <- lift (match def_output conf with
                 | Some defs =>
                     allSlotsValid defs (td_output data) (seq 0 (List.length defs))
                 | None => Some true
                 end) ;;
  if negb okOut then ret false else
  if negb (checkChildrenLimit data) then ret false else
  match def_args conf with
  | Some declared => allArgsValid (ofGraph data) conf (List.length declared) 0
  | None => ret true
  end.

End CheckNodeData.

(* ================================================================== *)
(** ** Subtree roots and the conversion back to the stored model *)
(* ================================================================== *)

(** [isSubtreeRoot(data)], as the truth value of
    [data.path && data.id.toString() !== "1"] *)
Definition isSubtreeRoot (data : TreeGraphData) : bool :=
  JS.truthy_string (td_path data) && negb (td_id data =? "1").

(** [createNode(data, includeChildren)]; the recursive calls take the
    default [includeChildren = true]. *)
Fixpoint createNode (data : TreeGraphData) (includeChildren : bool) : NodeModel :=
  {| nm_id := JS.Number (td_id data);
     nm_name := td_name data;
     nm_desc := td_desc data;
     nm_path := td_path data;
     nm_debug := td_debug data;
     nm_disabled := td_disabled data;
     nm_input := option_map (map (fun v => v)) (td_input data);
     nm_output := option_map (map (fun v => v)) (td_output data);
     nm_args :=
       option_map (filter (fun kv => negb (JS.is_undefined (snd kv))))
         (td_args data);
     nm_children :=
       match td_children data with
       | Some cs =>
           if negb (isSubtreeRoot data) && includeChildren
           then Some (map (fun child => createNode child true) cs)
           else None
       | None => None
       end |}.

(** [conf.input?.length] as a truth value: the list is declared and
    not empty. *)
Definition declares {A : Type} (l : option (list A)) : bool :=
  match l with
  | Some (_ :: _) => true
  | _ => false
  end.

Section CreateFileData.

Context {env : Env}.

(** [createFileData(data, includeSubtree)] *)
Fixpoint createFileData (data : TreeGraphData) (includeSubtree : bool)
  : NodeModel :=
  let conf := getNodeDef (td_name data) in
  {| nm_id := JS.Number (td_id data);
     nm_name := td_name data;
     nm_desc := JS.or_undefined_string (td_desc data);
     nm_args := if declares (def_args conf) then td_args data else None;
     nm_input := if declares (def_input conf) then td_input data else None;
     nm_output := if declares (def_output conf) then td_output data else None;
     nm_debug := JS.or_undefined_bool (td_debug data);
     nm_disabled := JS.or_undefined_bool (td_disabled data);
     nm_path := JS.or_undefined_string (td_path data);
     nm_children :=
       match td_children data with
       | Some (c :: cs) =>
           if includeSubtree || negb (isSubtreeRoot data)
           then Some (map (fun child => createFileData child includeSubtree)
                        (c :: cs))
           else None
       | _ => None
       end |}.

End CreateFileData.

(* ================================================================== *)
(** ** Ids and status bitmasks: [refreshTreeDataId] *)
(* ================================================================== *)

Local Open Scope Z_scope.

Module StatusFlag.
Definition SUCCESS : Z := 2.
Definition FAILURE : Z := 1.
Definition RUNNING : Z := 0.
Definition SUCCESS_ZERO : Z := 5.
Definition FAILURE_ZERO : Z := 4.
End StatusFlag.

(** The bitwise operators work on 32-bit integers; every status handled
    here stays below 64 (lemma [refreshTreeDataId_settled]), so the operators
    are those of [Z] with no wrap-around. *)

(** [toStatusFlag(data)] *)
Definition toStatusFlag (data : TreeGraphData) : Z :=
  match def_status (td_def data) with
  | Some l =>
      fold_left
        (fun status s =>
           if (s =? "success")%string then
             Z.lor status (Z.shiftl 1 StatusFlag.SUCCESS)
           else if (s =? "failure")%string then
             Z.lor status (Z.shiftl 1 StatusFlag.FAILURE)
           else if (s =? "running")%string then
             Z.lor status (Z.shiftl 1 StatusFlag.RUNNING)
           else status)
        l 0
  | None => 0
  end.

(** [appendStatusFlag(status, childStatus)] *)
Definition appendStatusFlag (status childStatus : Z) : Z :=
  let childSuccess := Z.land (Z.shiftr childStatus StatusFlag.SUCCESS) 1 in
  let childFailure := Z.land (Z.shiftr childStatus StatusFlag.FAILURE) 1 in
  let status :=
    if childSuccess =? 0
    then Z.lor status (Z.shiftl 1 StatusFlag.SUCCESS_ZERO) else status in
  let status :=
    if childFailure =? 0
    then Z.lor status (Z.shiftl 1 StatusFlag.FAILURE_ZERO) else status in
  Z.lor status childStatus.

(** One directive of the [switch] of [buildStatusFlag] *)
Definition applyDirective (childStatus : Z) (status : Z) (s : string) : Z :=
  let childSuccess := Z.land (Z.shiftr childStatus StatusFlag.SUCCESS) 1 in
  let childFailure := Z.land (Z.shiftr childStatus StatusFlag.FAILURE) 1 in
  let childRunning := Z.land (Z.shiftr childStatus StatusFlag.RUNNING) 1 in
  let childHasZeroSuccess :=
    Z.land (Z.shiftr childStatus StatusFlag.SUCCESS_ZERO) 1 in
  let childHasZeroFailure :=
    Z.land (Z.shiftr childStatus StatusFlag.FAILURE_ZERO) 1 in
  if (s =? "!success")%string then
    Z.lor status (Z.shiftl childFailure StatusFlag.SUCCESS)
  else if (s =? "!failure")%string then
    Z.lor status (Z.shiftl childSuccess StatusFlag.FAILURE)
  else if (s =? "|success")%string then
    Z.lor status (Z.shiftl childSuccess StatusFlag.SUCCESS)
  else if (s =? "|failure")%string then
    Z.lor status (Z.shiftl childFailure StatusFlag.FAILURE)
  else if (s =? "|running")%string then
    Z.lor status (Z.shiftl childRunning StatusFlag.RUNNING)
  else if (s =? "&success")%string then
    if negb (childHasZeroSuccess =? 0) then
      Z.land status (Z.lnot (Z.shiftl 1 StatusFlag.SUCCESS))
    else Z.lor status (Z.shiftl childSuccess StatusFlag.SUCCESS)
  else if (s =? "&failure")%string then
    if negb (childHasZeroFailure =? 0) then
      Z.land status (Z.lnot (Z.shiftl 1 StatusFlag.FAILURE))
    else Z.lor status (Z.shiftl childFailure StatusFlag.FAILURE)
  else status.

(** The status [buildStatusFlag] stores, from the node's status so far,
    its declared directives and the aggregate of its children *)
Definition builtStatus (directives : option (list string))
  (status childStatus : Z) : Z :=
  match directives with
  | Some (d :: ds) => fold_left (applyDirective childStatus) (d :: ds) status
  | _ => Z.lor status childStatus
  end.

(** [data.status] where the caller has set it *)
Definition statusOf (data : TreeGraphData) : Z :=
  match td_status data with
  | Some s => s
  | None => 0
  end.

(** [buildStatusFlag(data, childStatus)]; [data.status] has been set by
    the caller. *)
Definition buildStatusFlag (data : TreeGraphData) (childStatus : Z)
  : TreeGraphData :=
  let status := statusOf data in
  set_status
    (Some (builtStatus (def_status (td_def data)) status childStatus)) data.

(** [child.status && !child.disabled]: the child counts in the aggregate *)
Definition counted (child : TreeGraphData) : bool :=
  match td_status child with
  | Some s => negb (s =? 0)
  | None => false
  end && negb (JS.truthy_bool (td_disabled child)).

(** The [forEach] of [refreshTreeDataId] over the children of the node
    numbered [data_id]: each child is refreshed from the running
    counter, gets its parent, and joins the aggregate when it counts. *)
Definition refreshChildren
  (refresh : TreeGraphData -> option Z -> TreeGraphData * Z) (data_id : string)
  : list TreeGraphData -> Z -> Z -> list TreeGraphData * Z * Z :=
  fix each (cs : list TreeGraphData) (id : Z) (childStatus : Z)
    : list TreeGraphData * Z * Z :=
    match cs with
    | [] => ([], id, childStatus)
    | child :: rest =>
        let (child1, id') := refresh child (Some id) in
        let child' := set_parent (Some data_id) child1 in
        let childStatus' :=
          if counted child'
          then appendStatusFlag childStatus (statusOf child')
          else childStatus in
        let '(rest', id'', childStatus'') := each rest id' childStatus' in
        (child' :: rest', id'', childStatus'')
    end.

(** [refreshTreeDataId(data, id)]: the node as the call leaves it and
    the counter it returns.  [child.parent = data.id] is applied to the
    refreshed child: the recursive call neither reads nor writes
    [parent]. *)
Fixpoint refreshTreeDataId (data : TreeGraphData) (id : option Z)
  : TreeGraphData * Z :=
  let id0 :=
    match id with
    | Some n => if n =? 0 then 1 else n
    | None => 1
    end in
  let status := toStatusFlag data in
  let data_id := JS.Z_toString id0 in
  let id1 := id0 + 1 in
  match td_children data with
  | Some cs =>
      let '(cs', id2, childStatus) :=
        refreshChildren refreshTreeDataId data_id cs id1 0 in
      (buildStatusFlag
         (set_children (Some cs') (set_status (Some status) (set_id data_id data)))
         childStatus,
       id2)
  | None => (set_status (Some status) (set_id data_id data), id1)
  end.

Local Close Scope Z_scope.

(* ================================================================== *)
(** ** From the stored model to the graph: [createTreeData] *)
(* ================================================================== *)

(** What [createTreeData] changes besides its result: the module-level
    [parsingStack] and the messages shown with [message.error]. *)
Record State : Type := {
  parsingStack : list string;
  messages : list string
}.

Definition resetStack (st : State) : State :=
  {| parsingStack := []; messages := messages st |}.

Definition push (path : string) (st : State) : State :=
  {| parsingStack := parsingStack st ++ [path]; messages := messages st |}.

Definition pop (st : State) : State :=
  {| parsingStack := removelast (parsingStack st); messages := messages st |}.

Definition message_error (msg : string) (st : State) : State :=
  {| parsingStack := parsingStack st; messages := messages st ++ [msg] |}.

(** [parsingStack.indexOf(path) >= 0] *)
Definition onStack (path : string) (st : State) : bool :=
  existsb (String.eqb path) (parsingStack st).

Definition circularMessage (path : string) : string :=
  "循环引用节点：" ++ path.

Definition parseFailedMessage (path : string) : string :=
  "解析子树失败：" ++ path.

(** [!parent] *)
Definition noParent (parent : option string) : bool :=
  negb (JS.truthy_string parent).

(** The [forEach] of [createTreeData] over the children of the node
    whose id is [parent] *)
Definition buildChildren
  (build : NodeModel -> option string -> State -> option (TreeGraphData * State))
  (parent : string)
  : list NodeModel -> State -> option (list TreeGraphData * State) :=
  fix each (cs : list NodeModel) (st : State)
    : option (list TreeGraphData * State) :=
    match cs with
    | [] => Some ([], st)
    | child :: rest =>
        match build child (Some parent) st with
        | Some (child', st') =>
            match each rest st' with
            | Some (rest', st'') => Some (child' :: rest', st'')
            | None => None
            end
        | None => None
        end
    end.

Section CreateTreeData.

Context {env : Env}.
Variable fs : FileSystem.

(** The node [createTreeData] starts from, before children or a
    subtree are attached. *)
Definition initialTreeData (node : NodeModel) (parent : option string)
  : TreeGraphData :=
  {| td_id := JS.toFixed (nm_id node);
     td_name := nm_name node;
     td_desc := nm_desc node;
     td_args := nm_args node;
     td_input := nm_input node;
     td_output := nm_output node;
     td_children := None;
     td_debug := nm_debug node;
     td_disabled := nm_disabled node;
     td_path := None;
     td_def := getNodeDef (nm_name node);
     td_parent := parent;
     td_status := None;
     td_lastModified := None |}.

(** [createTreeData(node, parent)].  The recursion into children
    follows the structure of [node]; each descent into a subtree file
    spends one unit of [fuel], and [None] is fuel run out.  A file
    that cannot be read or parsed is the [catch] branch. *)
Fixpoint createTreeData (fuel : nat)
  : NodeModel -> option string -> State -> option (TreeGraphData * State) :=
  fix build (node : NodeModel) (parent : option string) (st : State)
    {struct node} : option (TreeGraphData * State) :=
    let treeData := initialTreeData node parent in
    let st := if noParent parent then resetStack st else st in
    match nm_children node with
    | Some cs =>
        match buildChildren build (td_id treeData) cs st with
        | Some (cs', st') => Some (set_children (Some cs') treeData, st')
        | None => None
        end
    | None =>
        match nm_path node with
        | Some path =>
            if negb (path =? "") then
              if onStack path st then
                Some (set_path (Some path) treeData,
                      message_error (circularMessage path) st)
              else
                let st := push path st in
                match readTree fs path with
                | Some file =>
                    match fuel with
                    | O => None
                    | S fuel' =>
                        match createTreeData fuel' (file_root file)
                                (Some (td_id treeData)) st with
                        | Some (sub, st') =>
                            Some
                              (set_id (JS.toFixed (nm_id node))
                                 (set_parent parent
                                    (set_disabled (nm_disabled node)
                                       (set_debug (nm_debug node)
                                          (set_path (Some path)
                                             (set_lastModified
                                                (Some (file_mtimeMs file))
                                                sub))))),
                               pop st')
                        | None => None
                        end
                    end
                | None =>
                    Some (treeData, pop (message_error (parseFailedMessage path) st))
                end
            else Some (treeData, st)
        | None => Some (treeData, st)
        end
    end.

End CreateTreeData.

(* ================================================================== *)
(** ** The rest of the module *)
(* ================================================================== *)

(** [copyFromNode(data, node)]: the fields a stored node gives to a
    graph node; the other fields of [data] stay. *)
Definition copyFromNode (data : TreeGraphData) (node : NodeModel)
  : TreeGraphData :=
  mkTreeGraphData (td_id data) (nm_name node) (nm_desc node) (nm_args node)
    (nm_input node) (nm_output node) (td_children data) (nm_debug node)
    (nm_disabled node) (nm_path node) (td_def data) (td_parent data)
    (td_status data) (td_lastModified data).

(** [data.lastModified] against a modification time that was read *)
Definition sameTime (recorded : option Z) (mtimeMs : Z) : bool :=
  match recorded with
  | Some t => (t =? mtimeMs)%Z
  | None => false
  end.

(** [isSubtreeUpdated(data)].  [statSync] is the modification time of
    the file at a path below the working directory, [None] when the
    call throws. *)
Fixpoint isSubtreeUpdated (statSync : string -> option Z)
  (data : TreeGraphData) : bool :=
  (match td_path data with
   | Some path =>
       if negb (path =? "") then
         match statSync path with
         | Some mtimeMs => negb (sameTime (td_lastModified data) mtimeMs)
         | None => true
         end
       else false
   | None => false
   end) ||
  match td_children data with
  | Some cs => existsb (isSubtreeUpdated statSync) cs
  | None => false
  end.

(** A stored tree file: its root, and the other fields, which the
    module passes through. *)
Record TreeModel : Type := {
  tm_name : string;
  tm_desc : option string;
  tm_root : NodeModel;
  tm_rest : list (string * JS.value)
}.

Section CreateBuildData.

Context {env : Env}.

(** [createBuildData(path)].  [readModel] is what reading and parsing
    the file at [path] gives, [None] when either throws; the result is
    [Some None] for the [null] of the [catch] branch, and [None] when
    the fuel of [createTreeData] runs out. *)
Definition createBuildData (readModel : string -> option TreeModel)
  (fs : FileSystem) (fuel : nat) (path : string) (st : State)
  : option (option TreeModel * State) :=
  match readModel path with
  | Some treeModel =>
      match createTreeData fs fuel (tm_root treeModel) None st with
      | Some (data, st') =>
          let data := fst (refreshTreeDataId data None) in
          Some (Some {| tm_name := tm_name treeModel;
                        tm_desc := tm_desc treeModel;
                        tm_root := createFileData data true;
                        tm_rest := tm_rest treeModel |}, st')
      | None => None
      end
  | None => Some (None, st)
  end.

End CreateBuildData.

(** [s.slice(0, end)] *)
Definition slice0 (s : string) (e : Z) : string :=
  let len := Z.of_nat (String.length s) in
  let e := if (e <? 0)%Z then Z.max 0 (len + e) else Z.min e len in
  substring 0 (Z.to_nat e) s.

(** The line feed that [toBreakWord] inserts *)
Definition lineFeed : string := String (ascii_of_nat 10) "".

(** Text metrics, as the two text helpers use them: the numbers of the
    language with their subtraction and sign tests, and the width
    [calcTextWith(c, fontSize)] of one character. *)
Class Metrics : Type := {
  num : Type;
  minus : num -> num -> num;
  isPositive : num -> bool;
  isNegative : num -> bool;
  calcTextWith : ascii -> option string -> num
}.

Section TextHelpers.

Context {metrics : Metrics}.

(** The loop of [toBreakWord]: a character that still fits is pushed;
    one that does not starts a new line and is tried again.  Each pass
    of the loop spends one unit of fuel. *)
Fixpoint breakWordLoop (fuel : nat) (maxWidth : num) (fontSize : option string)
  (rest : string) (width : num) (chars : string) (line : nat)
  : option (string * nat) :=
  match rest with
  | EmptyString => Some (chars, line)
  | String c rest' =>
      match fuel with
      | O => None
      | S fuel' =>
          let width := minus width (calcTextWith c fontSize) in
          if isPositive width then
            breakWordLoop fuel' maxWidth fontSize rest' width
              (chars ++ String c "") line
          else
            breakWordLoop fuel' maxWidth fontSize rest maxWidth
              (chars ++ lineFeed) (S line)
      end
  end.

(** [toBreakWord(str, maxWidth, fontSize)]: the text with its breaks
    and the number of lines; [None] is fuel run out. *)
Definition toBreakWord (fuel : nat) (str : string) (maxWidth : num)
  (fontSize : option string) : option (string * nat) :=
  breakWordLoop fuel maxWidth fontSize str maxWidth ""
    (if (0 <? String.length str)%nat then 1 else 0)%nat.

(** The loop of [cutWordTo]: the index [i] it ends with, one less than
    the index of the first character that makes the width negative. *)
Fixpoint cutWordLoop (fontSize : option string) (rest : string) (i : Z)
  (maxWidth : num) : Z :=
  match rest with
  | EmptyString => i
  | String c rest' =>
      let maxWidth := minus maxWidth (calcTextWith c fontSize) in
      if isNegative maxWidth then (i - 1)%Z
      else cutWordLoop fontSize rest' (i + 1)%Z maxWidth
  end.

(** [cutWordTo(str, maxWidth, fontSize)] *)
Definition cutWordTo (str : string) (maxWidth : num) (fontSize : option string)
  : string :=
  let i := cutWordLoop fontSize str 0%Z maxWidth in
  slice0 str i ++
  (if (i <? Z.of_nat (String.length str) - 1)%Z then "..." else "").

End TextHelpers.

(* ================================================================== *)
(** ** Vocabulary of the properties *)
(* ================================================================== *)

(** The nodes of a graph, parent before children, children left to
    right: the order in which [refreshTreeDataId] visits them. *)
Fixpoint nodes (t : TreeGraphData) : list TreeGraphData :=
  t :: match td_children t with
       | Some cs => flat_map nodes cs
       | None => []
       end.

(** The ids [first], [first + 1], ... ([count] of them) as they print *)
Definition idsFrom (first : Z) (count : nat) : list string :=
  map (fun k => JS.Z_toString (first + Z.of_nat k)%Z) (seq 0 count).

(** The aggregate of the children as [refreshTreeDataId] leaves it
    after its loop: the children that count, appended left to right. *)
Definition aggregate (children : list TreeGraphData) : Z :=
  fold_left
    (fun childStatus child =>
       if counted child then appendStatusFlag childStatus (statusOf child)
       else childStatus)
    children 0%Z.

(** The status a refreshed node holds, from its definition and from
    its refreshed children *)
Definition expectedStatus (n : TreeGraphData) : Z :=
  match td_children n with
  | Some cs => builtStatus (def_status (td_def n)) (toStatusFlag n) (aggregate cs)
  | None => toStatusFlag n
  end.

(** A node is settled when its status is the expected one and fits in
    the six status bits. *)
Definition settled (n : TreeGraphData) : Prop :=
  td_status n = Some (expectedStatus n) /\ (0 <= expectedStatus n < 64)%Z.

(** Bit [k] of a status *)
Definition flag (status : option Z) (k : Z) : bool :=
  match status with
  | Some s => Z.testbit s k
  | None => false
  end.

(** Among the children that count, one lacks outcome [k]. *)
Definition someCountedLacks (k : Z) (children : list TreeGraphData) : Prop :=
  exists c, In c children /\ counted c = true /\ flag (td_status c) k = false.

(** A stored node with its empty optional fields left out: an empty
    description or path, a false [debug] or [disabled], an empty
    argument object, empty slot lists and an empty list of children
    are read as absent, in the node and below it. *)
Fixpoint elide (n : NodeModel) : NodeModel :=
  {| nm_id := nm_id n;
     nm_name := nm_name n;
     nm_desc := JS.or_undefined_string (nm_desc n);
     nm_args := match nm_args n with Some [] => None | a => a end;
     nm_input := match nm_input n with Some [] => None | a => a end;
     nm_output := match nm_output n with Some [] => None | a => a end;
     nm_children :=
       match nm_children n with
       | Some (c :: cs) => Some (map elide (c :: cs))
       | _ => None
       end;
     nm_debug := JS.or_undefined_bool (nm_debug n);
     nm_disabled := JS.or_undefined_bool (nm_disabled n);
     nm_path := JS.or_undefined_string (nm_path n) |}.

(** No node of the stored tree refers to a subtree file. *)
Fixpoint pathFree (n : NodeModel) : bool :=
  negb (JS.truthy_string (nm_path n)) &&
  match nm_children n with
  | Some cs => forallb pathFree cs
  | None => true
  end.

(** The name of the node has no definition in the registry: the
    registry answers with its sentinel. *)
Definition undefinedNode {env : Env} (n : NodeModel) : bool :=
  def_name (getNodeDef (nm_name n)) =? def_name unknownNodeDef.

(** The line [checkNodeData] writes for such a node *)
Definition undefinedNodeLine (n : NodeModel) : string :=
  "check " ++ JS.toFixed (nm_id n) ++ "|" ++ nm_name n
  ++ ": undefined node: " ++ nm_name n.

(** Every node of the stored tree has a definition in the registry. *)
Fixpoint resolvable {env : Env} (n : NodeModel) : bool :=
  negb (def_name (getNodeDef (nm_name n)) =? def_name unknownNodeDef) &&
  match nm_children n with
  | Some cs => forallb resolvable cs
  | None => true
  end.

(** A stored node without the arguments, inputs and outputs that its
    definition does not declare, in the node and below it. *)
Fixpoint dropUndeclared {env : Env} (n : NodeModel) : NodeModel :=
  let conf := getNodeDef (nm_name n) in
  {| nm_id := nm_id n;
     nm_name := nm_name n;
     nm_desc := nm_desc n;
     nm_args := if declares (def_args conf) then nm_args n else None;
     nm_input := if declares (def_input conf) then nm_input n else None;
     nm_output := if declares (def_output conf) then nm_output n else None;
     nm_children := option_map (map dropUndeclared) (nm_children n);
     nm_debug := nm_debug n;
     nm_disabled := nm_disabled n;
     nm_path := nm_path n |}.

(** The subtree files that are not being parsed: each descent into a
    file takes one away. *)
Definition pending (fs : FileSystem) (stack : list string) : nat :=
  List.length
    (filter (fun p => negb (existsb (String.eqb p) stack)) (map fst fs)).

(** What tells a resolved subtree from an unresolved reference in a
    graph: id, path, recorded modification time, and whether the node
    has a children array. *)
Definition summary (n : TreeGraphData)
  : string * option string * option Z * bool :=
  (td_id n, td_path n, td_lastModified n,
   match td_children n with Some _ => true | None => false end).

(** An argument value, and an input slot, that [checkOneof] takes as
    supplied *)
Definition argSupplied (v : JS.value) : Prop :=
  v <> JS.Undefined /\ v <> JS.Str "".

Definition inputSupplied (v : option string) : Prop :=
  exists s, v = Some s /\ s <> "".

(** The text [t] occurs in [s]; [s] ends with [t] *)
Definition occursIn (t s : string) : Prop :=
  exists a b, s = a ++ t ++ b.

Definition isSuffixOf (t s : string) : Prop :=
  exists a, s = a ++ t.

(** The characters of a text other than line feeds, and the number of
    its line feeds *)
Fixpoint withoutLineFeeds (s : string) : string :=
  match s with
  | EmptyString => ""
  | String c s' =>
      if Ascii.eqb c (ascii_of_nat 10) then withoutLineFeeds s'
      else String c (withoutLineFeeds s')
  end.

Fixpoint lineFeeds (s : string) : nat :=
  match s with
  | EmptyString => O
  | String c s' =>
      if Ascii.eqb c (ascii_of_nat 10) then S (lineFeeds s') else lineFeeds s'
  end.

(** Every character of the text is narrower than [maxWidth]: alone on
    a line it leaves a positive width. *)
Fixpoint eachFits {metrics : Metrics} (maxWidth : num)
  (fontSize : option string) (s : string) : bool :=
  match s with
  | EmptyString => true
  | String c s' =>
      isPositive (minus maxWidth (calcTextWith c fontSize))
      && eachFits maxWidth fontSize s'
  end.

(** The width left after the characters of a text, and whether it
    stays non-negative all along the text *)
Fixpoint widthAfter {metrics : Metrics} (fontSize : option string)
  (s : string) (width : num) : num :=
  match s with
  | EmptyString => width
  | String c s' => widthAfter fontSize s' (minus width (calcTextWith c fontSize))
  end.

Fixpoint staysInside {metrics : Metrics} (fontSize : option string)
  (s : string) (width : num) : bool :=
  match s with
  | EmptyString => true
  | String c s' =>
      negb (isNegative (minus width (calcTextWith c fontSize)))
      && staysInside fontSize s' (minus width (calcTextWith c fontSize))
  end.

(** A text without its last character *)
Definition dropLast (s : string) : string :=
  substring 0 (String.length s - 1) s.

(** The definition of the node lists the directive [s]. *)
Definition declaresDirective (s : string) (data : TreeGraphData) : bool :=
  match def_status (td_def data) with
  | Some l => existsb (String.eqb s) l
  | None => false
  end.

(** Every character of the text is a word character; the text starts
    with one *)
Fixpoint allWordChars (s : string) : bool :=
  match s with
  | EmptyString => true
  | String c s' => is_word_char c && allWordChars s'
  end.

Definition startsWithWordChar (s : string) : bool :=
  match s with
  | EmptyString => false
  | String c _ => is_word_char c
  end.

(** The line [checkNodeArgValue] writes for a kind it does not know *)
Definition unknownArgTypeLine (data : NodeLike) (arg : NodeArg) : string :=
  "check " ++ l_id data ++ "|" ++ l_name data ++ ": unknown arg type '"
  ++ arg_type arg ++ "'".

(** One of the seven kind tests holds of the base kind. *)
Definition knownKind {env : Env} (type : string) : bool :=
  isFloatType type || isIntType type || isStringType type || isEnumType type
  || isExprType type || isJsonType type || isBoolType type.

(** The two halves of [checkNodeArg], once the argument is at hand:
    the check of the value, which gives [hasError], and the check of
    the oneof link, which gives the verdict. *)
Definition valueHalf {env : Env} (data : NodeLike) (arg : NodeArg)
  (verbose : bool) : Diag bool :=
  let value := JS.get (l_args data) (arg_name arg) in
  if isNodeArgArray arg then
    match value with
    | JS.Arr elems =>
        if negb (isNodeArgOptional arg) && (List.length elems =? 0)%nat then
          when verbose
            (error data ("'" ++ arg_name arg ++ "=" ++ JSON_stringify value
                         ++ "' is not an array or empty array")) ;;;
          ret true
        else checkElements data arg elems verbose false
    | _ =>
        when verbose
          (error data ("'" ++ arg_name arg ++ "=" ++ JSON_stringify value
                       ++ "' is not an array or empty array")) ;;;
        ret true
    end
  else
    ok <- checkNodeArgValue data arg value verbose ;;
    ret (negb ok).

Definition oneofHalf {env : Env} (data : NodeLike) (conf : NodeDef)
  (arg : NodeArg) (verbose : bool) (hasError : bool) : Diag bool :=
  match arg_oneof arg with
  | Some tag =>
      let idx :=
        match def_input conf with
        | Some l => findIndex (fun v => JS.startsWith v tag) l
        | None => None
        end in
      let inputValue :=
        match idx with
        | Some n => slotAt (l_input data) n
        | None => None
        end in
      if negb (checkOneof (JS.get (l_args data) (arg_name arg))
                          (JS.of_option_string inputValue)) then
        when verbose
          (error data ("only one is allowed for between argument '"
                       ++ arg_name arg ++ "' and input '"
                       ++ template (JS.of_option_string inputValue) ++ "'")) ;;;
        ret false
      else ret (negb hasError)
  | None => ret (negb hasError)
  end.

(** The argument [i] of a definition *)
Definition argAt (conf : NodeDef) (i : nat) : option NodeArg :=
  match def_args conf with
  | Some l => nth_error l i
  | None => None
  end.

(** The value passes [checkNodeArgValue] for the argument. *)
Definition valuePasses {env : Env} (data : NodeLike) (arg : NodeArg)
  (verbose : bool) (value : JS.value) : bool :=
  match result (checkNodeArgValue data arg value verbose) with
  | Some ok => ok
  | None => false
  end.

(** A slot list brought to at least [n] entries with empty strings *)
Definition pad (a : list string) (n : nat) : list string :=
  (a ++ repeat "" (n - List.length a))%list.

(** The last descriptor of the list ends with the variadic marker. *)
Definition lastIsVariadic (slotDef : list string) : bool :=
  match at_last slotDef with
  | Some d => JS.endsWith d "..."
  | None => false
  end.

(** The slot list [checkNodeData] leaves for a declared, non-empty
    descriptor list: padded to the declared count, and cut to it
    unless the last descriptor is variadic. *)
Definition normalSlots (slotDef : list string) (slots : option (list string))
  : list string :=
  let a := pad (match slots with Some l => l | None => [] end)
             (List.length slotDef) in
  if lastIsVariadic slotDef then a else firstn (List.length slotDef) a.

(** The definition declares an argument of this name. *)
Definition declaresArg (declared : list NodeArg) (key : string) : bool :=
  existsb (fun a => arg_name a =? key) declared.

(** The arguments [checkNodeData] rebuilds: the declared names that
    have a value, in the order of their declaration *)
Definition rebuildArgs (old : option Args) (declared : list NodeArg)
  (args : Args) : Args :=
  fold_left
    (fun args a =>
       if JS.is_undefined (JS.get old (arg_name a)) then args
       else JS.set (arg_name a) (JS.get old (arg_name a)) args)
    declared args.

(** The node refers to a subtree file that [statSync] cannot read, or
    whose modification time is not the one recorded in the node. *)
Definition stale (statSync : string -> option Z) (d : TreeGraphData) : bool :=
  match td_path d with
  | Some path =>
      negb (path =? "") &&
      match statSync path with
      | Some mtimeMs => negb (sameTime (td_lastModified d) mtimeMs)
      | None => true
      end
  | None => false
  end.

(** The nodes of a stored tree, parent before children, children left
    to right *)
Fixpoint modelNodes (n : NodeModel) : list NodeModel :=
  n :: match nm_children n with
       | Some cs => flat_map modelNodes cs
       | None => []
       end.

(** The stored tree refers to no subtree file and holds no argument
    whose value is [undefined], in the node and below it. *)
Fixpoint plain (n : NodeModel) : bool :=
  match nm_path n with Some _ => false | None => true end &&
  match nm_args n with
  | Some a => forallb (fun kv => negb (JS.is_undefined (snd kv))) a
  | None => true
  end &&
  match nm_children n with
  | Some cs => forallb plain cs
  | None => true
  end.

(** The graph node shows the stored node: its id, name, arguments and
    slots, the definition of its name, and as many children. *)
Definition shows {env : Env} (td : TreeGraphData) (m : NodeModel) : Prop :=
  td_id td = JS.toFixed (nm_id m) /\
  td_name td = nm_name m /\
  td_def td = getNodeDef (nm_name m) /\
  td_args td = nm_args m /\
  td_input td = nm_input m /\
  td_output td = nm_output m /\
  match td_children td with Some cs => List.length cs | None => 0 end
  = match nm_children m with Some cs => List.length cs | None => 0 end.

(* ================================================================== *)
(** ** A sample workspace *)
(* ================================================================== *)

Module Sample.

(** Modelled from the spec: the kind tests of b3type ([isFloatType],
    [isIntType], [isStringType], [isEnumType], [isExprType],
    [isJsonType], [isBoolType]) are not among the sources.  The spec
    gives the base kinds as [float|int|string|enum|expr|json|bool];
    a kind test holds of a base kind when it is that word. *)
Definition isKind (kind : string) (type : string) : bool := type =? kind.

Definition quote : string := String (ascii_of_nat 34) "".

Fixpoint join (sep : string) (l : list string) : string :=
  match l with
  | [] => ""
  | [x] => x
  | x :: l' => x ++ sep ++ join sep l'
  end.

(** A stand-in for [JSON.stringify] and for the conversion of a value
    inside a template literal, enough for the messages of the
    samples; a number prints as a fraction unless it is an integer. *)
Fixpoint stringify (v : JS.value) : string :=
  match v with
  | JS.Undefined => "undefined"
  | JS.Null => "null"
  | JS.Bool true => "true"
  | JS.Bool false => "false"
  | JS.Num q =>
      if (Zpos (Qden q) =? 1)%Z then JS.Z_toString (Qnum q)
      else JS.Z_toString (Qnum q) ++ "/" ++ JS.Z_toString (Zpos (Qden q))
  | JS.Str s => quote ++ s ++ quote
  | JS.Arr l => "[" ++ join "," (map stringify l) ++ "]"
  | JS.Obj l =>
      "{" ++ join "," (map (fun kv => quote ++ fst kv ++ quote ++ ":"
                                      ++ stringify (snd kv)) l) ++ "}"
  end.

Definition display (v : JS.value) : string :=
  match v with
  | JS.Str s => s
  | _ => stringify v
  end.

Definition plainDef (name : string) : NodeDef :=
  {| def_name := name; def_desc := None; def_args := None;
     def_input := None; def_output := None; def_children := None;
     def_status := None |}.

Definition withStatus (status : list string) (d : NodeDef) : NodeDef :=
  {| def_name := def_name d; def_desc := def_desc d; def_args := def_args d;
     def_input := def_input d; def_output := def_output d;
     def_children := def_children d; def_status := Some status |}.

Definition withArgs (args : list NodeArg) (d : NodeDef) : NodeDef :=
  {| def_name := def_name d; def_desc := def_desc d; def_args := Some args;
     def_input := def_input d; def_output := def_output d;
     def_children := def_children d; def_status := def_status d |}.

Definition withInput (input : list string) (d : NodeDef) : NodeDef :=
  {| def_name := def_name d; def_desc := def_desc d; def_args := def_args d;
     def_input := Some input; def_output := def_output d;
     def_children := def_children d; def_status := def_status d |}.

Definition withChildren (n : Z) (d : NodeDef) : NodeDef :=
  {| def_name := def_name d; def_desc := def_desc d; def_args := def_args d;
     def_input := def_input d; def_output := def_output d;
     def_children := Some n; def_status := def_status d |}.

Definition arg (name type : string) (oneof : option string) : NodeArg :=
  {| arg_name := name; arg_type := type; arg_desc := "";
     arg_oneof := oneof; arg_options := None |}.

(** Modelled from the spec: [unknownNodeDef] of b3type is not among
    the sources; the registry answers an unknown name with a fixed
    sentinel definition that no registered definition shares. *)
Definition unknown : NodeDef := plainDef "unknown".

Definition Sequence : NodeDef := withChildren (-1) (plainDef "Sequence").
Definition Log : NodeDef :=
  withStatus ["success"] (withArgs [arg "str" "string" None] (plainDef "Log")).
Definition Wait : NodeDef :=
  withStatus ["success"; "running"]
    (withArgs [arg "time" "float" None] (plainDef "Wait")).
Definition Fail : NodeDef := withStatus ["failure"] (plainDef "Fail").
Definition Idle : NodeDef := plainDef "Idle".
Definition AllOf : NodeDef :=
  withStatus ["&success"; "|failure"] (withChildren (-1) (plainDef "AllOf")).
Definition Flip : NodeDef :=
  withStatus ["&success"; "!success"] (withChildren (-1) (plainDef "Flip")).
Definition Compare : NodeDef :=
  withInput ["value?"]
    (withArgs [arg "value" "int?" (Some "value")] (plainDef "Compare")).
Definition Exotic : NodeDef :=
  withArgs [arg "where" "vec3" None] (plainDef "Exotic").

Definition registry : list NodeDef :=
  [Sequence; Log; Wait; Fail; Idle; AllOf; Flip; Compare; Exotic].

Definition lookup (name : string) : NodeDef :=
  match find (fun d => def_name d =? name) registry with
  | Some d => d
  | None => unknown
  end.

Definition env : Env :=
  {| getNodeDef := lookup;
     unknownNodeDef := unknown;
     isFloatType := isKind "float";
     isIntType := isKind "int";
     isStringType := isKind "string";
     isEnumType := isKind "enum";
     isExprType := isKind "expr";
     isJsonType := isKind "json";
     isBoolType := isKind "bool";
     JSON_stringify := stringify;
     template := display |}.

(** A stored node with a name, an id and children, and nothing else *)
Definition node (id : Z) (name : string) (children : option (list NodeModel))
  : NodeModel :=
  mkNodeModel (JS.Int id) name None None None None children None None None.

(** A stored reference to a subtree file *)
Definition reference (id : Z) (name path : string) : NodeModel :=
  mkNodeModel (JS.Int id) name None None None None None None None (Some path).

(** A graph node of a definition, with children, before any refresh *)
Definition graph (def : NodeDef) (children : option (list TreeGraphData))
  : TreeGraphData :=
  {| td_id := ""; td_name := def_name def; td_desc := None; td_args := None;
     td_input := None; td_output := None; td_children := children;
     td_debug := None; td_disabled := None; td_path := None;
     td_def := def; td_parent := None; td_status := None;
     td_lastModified := None |}.

Definition emptyState : State := {| parsingStack := []; messages := [] |}.

(** Stored trees for the validator: a node of an unregistered name
    above another one, alone and below a sequence, beside a [Log]
    that misses its argument *)
Definition stray : NodeModel := node 2 "Foo" (Some [node 3 "Bar" None]).

Definition sequenceWithStray : NodeModel :=
  node 1 "Sequence" (Some [stray; node 4 "Log" None]).

(** A [Compare] with both its argument and the linked input given *)
Definition compareBoth : NodeLike :=
  {| l_id := "2"; l_name := "Compare";
     l_args := Some [("value", JS.Num (inject_Z 3))];
     l_input := Some ["hp"] |}.

(** A graph root that carries a path, above one child *)
Definition pathRoot : TreeGraphData :=
  {| td_id := "1"; td_name := "Sequence"; td_desc := None; td_args := None;
     td_input := None; td_output := None;
     td_children :=
       Some [{| td_id := "2"; td_name := "Fail"; td_desc := None;
                td_args := None; td_input := None; td_output := None;
                td_children := None; td_debug := None; td_disabled := None;
                td_path := None; td_def := Fail; td_parent := Some "1";
                td_status := None; td_lastModified := None |}];
     td_debug := None; td_disabled := None; td_path := Some "patrol.json";
     td_def := Sequence; td_parent := None; td_status := None;
     td_lastModified := None |}.

(** The root of the example tree of [createProject] *)
Definition exampleRoot : NodeModel :=
  node 1 "Sequence"
    (Some [mkNodeModel (JS.Int 2) "Log" None
             (Some [("str", JS.Str "hello")]) None None None None None None;
           mkNodeModel (JS.Int 3) "Wait" None
             (Some [("time", JS.Num (inject_Z 1))]) None None None None None
             None]).

(** A [Log] that carries an input slot, which its definition does
    not declare *)
Definition logWithInput : NodeModel :=
  mkNodeModel (JS.Int 1) "Log" None (Some [("str", JS.Str "hello")])
    (Some ["target"]) None None None None None.

(** Two subtree files that refer to each other: the root of each has
    one child, a reference to the other file. *)
Definition cycleRoot (other : string) : NodeModel :=
  node 1 "Sequence" (Some [reference 2 "Sequence" other]).

Definition cycleFiles (a b : string) : FileSystem :=
  [(a, {| file_root := cycleRoot b; file_mtimeMs := 100 |});
   (b, {| file_root := cycleRoot a; file_mtimeMs := 200 |})].

(** Graphs for the status pass *)
Definition allOfLogFail : TreeGraphData :=
  graph AllOf (Some [graph Log None; graph Fail None]).

Definition allOfLogIdle : TreeGraphData :=
  graph AllOf (Some [graph Log None; graph Idle None]).

Definition flipLogFail : TreeGraphData :=
  graph Flip (Some [graph Log None; graph Fail None]).

Definition sequenceLog : TreeGraphData :=
  graph Sequence (Some [graph Log None]).

Definition refreshed (t : TreeGraphData) : TreeGraphData :=
  fst (refreshTreeDataId t None).

Definition refreshedChildren (t : TreeGraphData) : list TreeGraphData :=
  match td_children (refreshed t) with
  | Some cs => cs
  | None => []
  end.

(** Text metrics for the samples: widths are integers, every character
    is 13 wide. *)
Definition fixedWidth : Metrics :=
  {| num := Z;
     minus := Z.sub;
     isPositive := fun w => (0 <? w)%Z;
     isNegative := fun w => (w <? 0)%Z;
     calcTextWith := fun _ _ => 13%Z |}.

(** A lone [Wait], and a tree three levels deep *)
Definition waitLeaf : TreeGraphData := graph Wait None.

Definition nested : TreeGraphData :=
  graph Sequence
    (Some [graph AllOf (Some [graph Log None; graph Fail None]);
           graph Wait None]).

(** A definition with a list argument that may be empty, and nodes that
    give it a list, an empty list, and nothing *)
Definition Patrol : NodeDef :=
  withArgs [arg "points" "string[]?" None; arg "speed" "float?" None]
    (plainDef "Patrol").

Definition patrolWith (points : JS.value) : NodeLike :=
  {| l_id := "5"; l_name := "Patrol";
     l_args := Some [("points", points)]; l_input := None |}.

Definition patrolBare : NodeLike :=
  {| l_id := "5"; l_name := "Patrol"; l_args := None; l_input := None |}.

(** [logWithInput] as [checkNodeData] leaves it: the undeclared input
    cut away, [children] a list *)
Definition logChecked : NodeModel :=
  mkNodeModel (JS.Int 1) "Log" None (Some [("str", JS.Str "hello")])
    (Some []) None (Some []) None None None.

(** A [Log] that carries an argument its definition does not declare,
    and the node as [checkNodeData] leaves it *)
Definition logWithExtra : NodeModel :=
  mkNodeModel (JS.Int 1) "Log" None
    (Some [("colour", JS.Str "red"); ("str", JS.Str "hello")])
    None None None None None None.

Definition logExtraChecked : NodeModel :=
  mkNodeModel (JS.Int 1) "Log" None (Some [("str", JS.Str "hello")])
    None None (Some []) None None None.

(** A [Compare] with one input more than its definition declares, and
    the node as [checkNodeData] leaves it *)
Definition compareTwoInputs : NodeModel :=
  mkNodeModel (JS.Int 1) "Compare" None None (Some ["hp"; "extra"])
    None None None None None.

Definition compareChecked : NodeModel :=
  mkNodeModel (JS.Int 1) "Compare" None (Some []) (Some ["hp"])
    None (Some []) None None None.

(** The tree files of a file system, each named after its path *)
Definition readModel (fs : FileSystem) (path : string) : option TreeModel :=
  option_map
    (fun f => {| tm_name := path; tm_desc := None; tm_root := file_root f;
                 tm_rest := [] |})
    (readTree fs path).

(** The build of the first of the two files of [cycleFiles "a" "b"]:
    the two subtrees inline, then the reference left unresolved *)
Definition builtReference (id : Z) (path : string)
  (children : option (list NodeModel)) : NodeModel :=
  mkNodeModel (JS.Int id) "Sequence" None None None None children None None
    (Some path).

Definition builtCycle : TreeModel :=
  {| tm_name := "a"; tm_desc := None;
     tm_root :=
       node 1 "Sequence"
         (Some [builtReference 2 "b"
                  (Some [builtReference 3 "a"
                           (Some [builtReference 4 "b" None])])]);
     tm_rest := [] |}.

(** One subtree file, a tree that refers to it, and the modification
    times of the files as they are on disk *)
Definition oneFile : FileSystem :=
  [("sub.json", {| file_root := node 1 "Sequence" (Some [node 2 "Idle" None]);
                   file_mtimeMs := 100 |})].

Definition withReference : NodeModel :=
  node 1 "Sequence" (Some [reference 2 "Sequence" "sub.json"; node 3 "Idle" None]).

Definition stat (fs : FileSystem) (path : string) : option Z :=
  option_map file_mtimeMs (readTree fs path).

(** The graph node of [logWithInput] *)
Definition logGraph : TreeGraphData :=
  {| td_id := "1"; td_name := "Log"; td_desc := None;
     td_args := Some [("str", JS.Str "hello")];
     td_input := Some ["target"]; td_output := None; td_children := None;
     td_debug := None; td_disabled := None; td_path := None;
     td_def := Log; td_parent := None; td_status := None;
     td_lastModified := None |}.

(** A [Compare] with the linked input given and no argument *)
Definition compareInputOnly : NodeLike :=
  {| l_id := "2"; l_name := "Compare"; l_args := None;
     l_input := Some ["hp"] |}.

End Sample.

(* ================================================================== *)
(** * Properties *)
(* ================================================================== *)

(** ** Strings and numerals *)

Lemma prefix_occurs (t s : string) :
  String.prefix t s = true <-> exists b, s = t ++ b.
Proof.
  revert s; induction t as [|c t IH]; intros s; simpl.
  - split; [intros _; now exists s | intros _; now destruct s].
  - destruct s as [|d s]; simpl.
    + split; [discriminate | intros [b Hb]; discriminate].
    + destruct (Ascii.ascii_dec c d) as [->|Hcd].
      * rewrite IH. split; intros [b Hb]; exists b; congruence.
      * split; [discriminate | intros [b Hb]; congruence].
Qed.

Lemma includes_occursIn (s t : string) :
  JS.includes s t = true <-> occursIn t s.
Proof.
  unfold occursIn. induction s as [|c s IH]; cbn [JS.includes].
  - rewrite orb_false_r, prefix_occurs. split.
    + intros [b Hb]. now exists "", b.
    + intros [a [b Hab]]. destruct a; simpl in Hab; [now exists b|discriminate].
  - rewrite orb_true_iff, prefix_occurs, IH. split.
    + intros [[b Hb] | [a [b Hab]]].
      * now exists "", b.
      * exists (String c a), b. simpl. now f_equal.
    + intros [a [b Hab]]. destruct a as [|c' a]; simpl in Hab.
      * left. now exists b.
      * right. exists a, b. congruence.
Qed.

Lemma endsWith_isSuffixOf (s t : string) :
  JS.endsWith s t = true <-> isSuffixOf t s.
Proof.
  unfold isSuffixOf. induction s as [|c s IH]; cbn [JS.endsWith].
  - rewrite orb_false_r, String.eqb_eq. split.
    + intros <-. now exists "".
    + intros [a Ha]. destruct a; simpl in Ha; [congruence|discriminate].
  - rewrite orb_true_iff, String.eqb_eq, IH. split.
    + intros [<- | [a Ha]].
      * now exists "".
      * exists (String c a). simpl. now f_equal.
    + intros [a Ha]. destruct a as [|c' a]; simpl in Ha.
      * now left.
      * right. exists a. congruence.
Qed.

Lemma to_int_proper (z : Z) :
  Z.to_int z <> Decimal.Pos Decimal.Nil /\ Z.to_int z <> Decimal.Neg Decimal.Nil.
Proof.
  destruct z as [|p|p]; simpl; split; try discriminate;
    intros [= H]; now apply (Unsigned.to_uint_nonnil p).
Qed.

Lemma int_of_string_Z_toString (z : Z) :
  NilZero.int_of_string (JS.Z_toString z) = Some (Z.to_int z).
Proof.
  unfold JS.Z_toString. destruct (to_int_proper z). now apply NilZero.isi.
Qed.

Lemma Z_toString_nonempty (z : Z) : JS.Z_toString z <> "".
Proof.
  intros H. pose proof (int_of_string_Z_toString z) as E.
  rewrite H in E. discriminate.
Qed.

Lemma Z_toString_inj (a b : Z) : JS.Z_toString a = JS.Z_toString b -> a = b.
Proof.
  intros H. apply DecimalZ.to_int_inj.
  pose proof (int_of_string_Z_toString a) as Ea.
  pose proof (int_of_string_Z_toString b) as Eb.
  rewrite H in Ea. congruence.
Qed.

Lemma Number_Z_toString (z : Z) : JS.Number (JS.Z_toString z) = JS.Int z.
Proof.
  unfold JS.Number. pose proof (Z_toString_nonempty z) as Hne.
  rewrite int_of_string_Z_toString, DecimalZ.of_to.
  destruct (JS.Z_toString z); [contradiction|reflexivity].
Qed.

Lemma Number_toFixed (n : JS.number) : JS.Number (JS.toFixed n) = n.
Proof.
  destruct n as [z|]; [apply Number_Z_toString | reflexivity].
Qed.

Lemma toFixed_nonempty (n : JS.number) : JS.toFixed n <> "".
Proof.
  destruct n as [z|]; [apply Z_toString_nonempty | discriminate].
Qed.

(** ** The diagnostics monad *)

Lemma bind_Some {A B : Type} (m : Diag A) (f : A -> Diag B) (b : B) :
  result (bind m f) = Some b ->
  exists a, result m = Some a /\ result (f a) = Some b /\
            output (bind m f) = (output m ++ output (f a))%list.
Proof.
  destruct m as [[a|] l]; simpl; [|discriminate].
  destruct (f a) as [r l'] eqn:E. simpl. intros ->.
  exists a. now rewrite E.
Qed.

Lemma bind_ret {A B : Type} (a : A) (f : A -> Diag B) : bind (ret a) f = f a.
Proof.
  unfold bind, ret. now destruct (f a).
Qed.

(** ** Slots *)

(** C7. A slot of a descriptor list is judged valid exactly when its
    descriptor contains the optional marker, or the data value at that
    index is a non-empty string, or the index is the last of the
    descriptors and its descriptor ends with the variadic marker.  The
    statement is about any descriptor list and any data list, so it is
    the rule for the input and for the output slots alike. *)
Theorem isValidInputOrOutput_rule (defs : list string)
  (data : option (list string)) (index : nat) :
  (index < List.length defs)%nat ->
  exists d, nth_error defs index = Some d /\
    (isValidInputOrOutput defs data index = Some true <->
       occursIn "?" d \/ inputSupplied (slotAt data index) \/
       (index = (List.length defs - 1)%nat /\ isSuffixOf "..." d)).
Proof.
  intros Hlt. destruct (nth_error defs index) as [d|] eqn:Hd.
  2:{ apply nth_error_None in Hd. lia. }
  exists d. split; [reflexivity|].
  unfold isValidInputOrOutput. rewrite Hd.
  rewrite <- includes_occursIn, <- endsWith_isSuffixOf.
  assert (Hs : JS.truthy_string (slotAt data index) = true <->
               inputSupplied (slotAt data index)).
  { unfold inputSupplied, JS.truthy_string.
    destruct (slotAt data index) as [s|].
    - rewrite negb_true_iff, String.eqb_neq. split.
      + intros Hne. now exists s.
      + intros [s' [[= <-] Hne]]. exact Hne.
    - split; [discriminate | intros [s' [[=] _]]]. }
  rewrite <- Hs, <- Nat.eqb_eq.
  split.
  - intros [= H]. apply orb_true_iff in H as [H|H].
    + apply orb_true_iff in H as [H|H]; auto.
    + apply andb_true_iff in H. auto.
  - intros [H | [H | [H1 H2]]]; f_equal.
    + now rewrite H.
    + rewrite H. now rewrite orb_true_r.
    + rewrite H1, H2. now rewrite orb_true_r.
Qed.

Lemma isValidInputOrOutput_rule_witness :
  exists d, nth_error ["target"; "speed?"; "rest..."] 2 = Some d /\
    (isValidInputOrOutput ["target"; "speed?"; "rest..."] (Some ["hero"]) 2
       = Some true <->
     occursIn "?" d \/ inputSupplied (slotAt (Some ["hero"]) 2) \/
     (2 = (List.length ["target"; "speed?"; "rest..."] - 1)%nat
      /\ isSuffixOf "..." d)).
Proof.
  apply (isValidInputOrOutput_rule ["target"; "speed?"; "rest..."]
           (Some ["hero"]) 2).
  simpl. lia.
Defined.

Example isValidInputOrOutput_required_missing :
  isValidInputOrOutput ["target"; "speed?"; "rest..."] (Some [""]) 0 = Some false.
Proof. reflexivity. Qed.

Example isValidInputOrOutput_variadic_last :
  isValidInputOrOutput ["target"; "speed?"; "rest..."] None 2 = Some true.
Proof. reflexivity. Qed.

(** ** Arguments *)

Lemma argSupplied_spec (v : JS.value) :
  JS.is_empty_string (if JS.is_undefined v then JS.Str "" else v) = false
  <-> argSupplied v.
Proof.
  unfold argSupplied. destruct v as [| |b|q|s|l|l]; cbn;
    try (split; [intros _; split; discriminate | reflexivity]).
  - split; [discriminate | intros [H _]; congruence].
  - destruct (String.eqb_spec s "") as [->|Hne]; split; try discriminate.
    + intros [_ H]. congruence.
    + intros _. split; congruence.
    + reflexivity.
Qed.

Lemma inputSupplied_spec (slot : option string) :
  JS.is_empty_string (JS.or_empty_string (JS.of_option_string slot)) = false
  <-> inputSupplied slot.
Proof.
  unfold inputSupplied. destruct slot as [s|]; cbn.
  - destruct (String.eqb_spec s "") as [->|Hne]; split; try discriminate.
    + intros [x [[= <-] H]]. congruence.
    + intros _. now exists s.
    + reflexivity.
  - split; [discriminate | intros [x [[=] _]]].
Qed.

Lemma checkOneof_exactly_one (argValue : JS.value) (inputValue : option string) :
  checkOneof argValue (JS.of_option_string inputValue) = true <->
  (argSupplied argValue /\ ~ inputSupplied inputValue) \/
  (~ argSupplied argValue /\ inputSupplied inputValue).
Proof.
  rewrite <- argSupplied_spec, <- inputSupplied_spec.
  unfold checkOneof. cbv zeta.
  destruct (JS.is_empty_string
              (if JS.is_undefined argValue then JS.Str "" else argValue)),
    (JS.is_empty_string (JS.or_empty_string (JS.of_option_string inputValue)));
    cbn; intuition congruence.
Qed.

Section Arguments.

Context {env : Env}.

(** C5 (what the code does). For an argument whose base kind passes
    none of the seven kind tests, [checkNodeArgValue] writes the
    "unknown arg type" diagnostic, verbose or not, and returns
    [true]: the branch reports but does not set [hasError]. *)
Theorem checkNodeArgValue_unknown_kind_passes (data : NodeLike)
  (arg : NodeArg) (value : JS.value) (verbose : bool) (type : string) :
  getNodeArgRawType arg = Some type ->
  isFloatType type = false -> isIntType type = false ->
  isStringType type = false -> isEnumType type = false ->
  isExprType type = false -> isJsonType type = false ->
  isBoolType type = false ->
  checkNodeArgValue data arg value verbose =
  (Some true,
   ["check " ++ l_id data ++ "|" ++ l_name data ++ ": unknown arg type '"
    ++ arg_type arg ++ "'"]).
Proof.
  intros Hty Hf Hi Hs He Hx Hj Hb. unfold checkNodeArgValue.
  rewrite Hty. unfold lift. rewrite bind_ret.
  rewrite Hf, Hi, Hs, He, Hx, Hj, Hb. reflexivity.
Qed.

End Arguments.

Example checkNodeArg_oneof_both_supplied :
  checkNodeArg (env := Sample.env)
    {| l_id := "2"; l_name := "Compare";
       l_args := Some [("value", JS.Num (inject_Z 3))];
       l_input := Some ["hp"] |} Sample.Compare 0 true
  = (Some false,
     ["check 2|Compare: only one is allowed for between argument 'value' and input 'hp'"]).
Proof. reflexivity. Qed.

Example checkNodeArg_oneof_neither_supplied :
  checkNodeArg (env := Sample.env)
    {| l_id := "2"; l_name := "Compare"; l_args := None;
       l_input := Some [""] |} Sample.Compare 0 true
  = (Some false,
     ["check 2|Compare: only one is allowed for between argument 'value' and input ''"]).
Proof. reflexivity. Qed.

Example checkNodeArg_oneof_input_only :
  checkNodeArg (env := Sample.env)
    {| l_id := "2"; l_name := "Compare"; l_args := None;
       l_input := Some ["hp"] |} Sample.Compare 0 true
  = (Some true, []).
Proof. reflexivity. Qed.

Lemma checkNodeArgValue_unknown_kind_passes_witness :
  checkNodeArgValue (env := Sample.env)
    {| l_id := "7"; l_name := "Exotic"; l_args := None; l_input := None |}
    (Sample.arg "where" "vec3" None) (JS.Str "here") false
  = (Some true, ["check 7|Exotic: unknown arg type 'vec3'"]).
Proof.
  apply (checkNodeArgValue_unknown_kind_passes (env := Sample.env)
           {| l_id := "7"; l_name := "Exotic"; l_args := None; l_input := None |}
           (Sample.arg "where" "vec3" None) (JS.Str "here") false "vec3");
    reflexivity.
Defined.

(** ** Subtree roots *)

Section SubtreeRoot.

Context {env : Env}.

Lemma createFileData_children (data : TreeGraphData) (includeSubtree : bool) :
  nm_children (createFileData data includeSubtree) =
  match td_children data with
  | Some (c :: cs) =>
      if includeSubtree || negb (isSubtreeRoot data)
      then Some (map (fun child => createFileData child includeSubtree)
                   (c :: cs))
      else None
  | _ => None
  end.
Proof.
  destruct data; reflexivity.
Qed.

Lemma createNode_children (data : TreeGraphData) (includeChildren : bool) :
  nm_children (createNode data includeChildren) =
  match td_children data with
  | Some cs =>
      if negb (isSubtreeRoot data) && includeChildren
      then Some (map (fun child => createNode child true) cs)
      else None
  | None => None
  end.
Proof.
  destruct data; reflexivity.
Qed.

(** C10. A node whose id is "1" is not a subtree root, with or
    without a path: [createFileData] writes its children inline
    whether or not the subtree export is requested, and [createNode]
    writes them whenever it is called, as by default, with
    [includeChildren]; the path plays no part in either. *)
Theorem root_is_not_subtree_root (data : TreeGraphData) :
  td_id data = "1" ->
  isSubtreeRoot data = false /\
  (forall includeSubtree c cs,
      td_children data = Some (c :: cs) ->
      nm_children (createFileData data includeSubtree) =
      Some (map (fun child => createFileData child includeSubtree) (c :: cs))) /\
  (forall includeChildren cs,
      td_children data = Some cs ->
      nm_children (createNode data includeChildren) =
      if includeChildren
      then Some (map (fun child => createNode child true) cs)
      else None).
Proof.
  intros Hid.
  assert (Hroot : isSubtreeRoot data = false).
  { unfold isSubtreeRoot. rewrite Hid. simpl. apply andb_false_r. }
  split; [exact Hroot|]. split.
  - intros includeSubtree c cs Hcs.
    rewrite createFileData_children, Hcs, Hroot. now rewrite orb_true_r.
  - intros includeChildren cs Hcs.
    now rewrite createNode_children, Hcs, Hroot.
Qed.

End SubtreeRoot.

Lemma root_is_not_subtree_root_witness :
  isSubtreeRoot Sample.pathRoot = false /\
  (forall includeSubtree c cs,
      td_children Sample.pathRoot = Some (c :: cs) ->
      nm_children (createFileData (env := Sample.env) Sample.pathRoot
                     includeSubtree) =
      Some (map (fun child => createFileData (env := Sample.env) child
                                includeSubtree) (c :: cs))) /\
  (forall includeChildren cs,
      td_children Sample.pathRoot = Some cs ->
      nm_children (createNode Sample.pathRoot includeChildren) =
      if includeChildren
      then Some (map (fun child => createNode child true) cs)
      else None).
Proof.
  exact (root_is_not_subtree_root (env := Sample.env) Sample.pathRoot eq_refl).
Defined.

Example root_with_path_keeps_children :
  nm_children (createFileData (env := Sample.env) Sample.pathRoot false)
  = Some [Sample.node 2 "Fail" None] /\
  nm_path (createFileData (env := Sample.env) Sample.pathRoot false)
  = Some "patrol.json".
Proof. split; reflexivity. Qed.

Example nested_subtree_root_is_cut :
  let data :=
    set_path (Some "patrol.json")
      (set_id "3" (Sample.graph Sample.Sequence
                     (Some [set_id "4" (Sample.graph Sample.Fail None)]))) in
  isSubtreeRoot data = true /\
  nm_children (createFileData (env := Sample.env) data false) = None /\
  nm_children (createNode data true) = None.
Proof. repeat split; reflexivity. Qed.

(** ** Induction on trees *)

Lemma TreeGraphData_induction (P : TreeGraphData -> Prop) :
  (forall t, (forall cs, td_children t = Some cs -> Forall P cs) -> P t) ->
  forall t, P t.
Proof.
  intros step. fix IH 1. intros t. apply step.
  destruct t as [i n d a inp out ch dbg dis p df par st lm]; simpl.
  destruct ch as [l|]; [|discriminate].
  intros cs [= <-]. revert l. fix IHl 1.
  intros [|c l]; constructor; [apply IH | apply IHl].
Qed.

Lemma NodeModel_induction (P : NodeModel -> Prop) :
  (forall n, (forall cs, nm_children n = Some cs -> Forall P cs) -> P n) ->
  forall n, P n.
Proof.
  intros step. fix IH 1. intros n. apply step.
  destruct n as [i nm d a inp out ch dbg dis p]; simpl.
  destruct ch as [l|]; [|discriminate].
  intros cs [= <-]. revert l. fix IHl 1.
  intros [|c l]; constructor; [apply IH | apply IHl].
Qed.

(** ** Numbering *)

Local Open Scope Z_scope.

Lemma refreshTreeDataId_eq (data : TreeGraphData) (id : option Z) :
  refreshTreeDataId data id =
  let id0 := match id with
             | Some n => if n =? 0 then 1 else n
             | None => 1
             end in
  let status := toStatusFlag data in
  let data_id := JS.Z_toString id0 in
  match td_children data with
  | Some cs =>
      let '(cs', id2, childStatus) :=
        refreshChildren refreshTreeDataId data_id cs (id0 + 1) 0 in
      (buildStatusFlag
         (set_children (Some cs') (set_status (Some status) (set_id data_id data)))
         childStatus,
       id2)
  | None => (set_status (Some status) (set_id data_id data), id0 + 1)
  end.
Proof.
  destruct data; reflexivity.
Qed.

Lemma nodes_eq (t : TreeGraphData) :
  nodes t = t :: match td_children t with
                 | Some cs => flat_map nodes cs
                 | None => []
                 end.
Proof.
  destruct t; reflexivity.
Qed.

Lemma idsFrom_S (first : Z) (count : nat) :
  idsFrom first (S count) = JS.Z_toString first :: idsFrom (first + 1) count.
Proof.
  unfold idsFrom. simpl. rewrite Z.add_0_r. f_equal.
  rewrite <- seq_shift, map_map. apply map_ext. intros k. f_equal. lia.
Qed.

Lemma idsFrom_app (first : Z) (a b : nat) :
  idsFrom first (a + b) = (idsFrom first a ++ idsFrom (first + Z.of_nat a) b)%list.
Proof.
  revert first. induction a as [|a IH]; intros first.
  - simpl. now rewrite Z.add_0_r.
  - change (S a + b)%nat with (S (a + b)). rewrite !idsFrom_S, IH. simpl.
    do 3 f_equal. lia.
Qed.

Lemma idsFrom_NoDup (first : Z) (count : nat) : NoDup (idsFrom first count).
Proof.
  unfold idsFrom. apply Injective_map_NoDup; [|apply seq_NoDup].
  intros a b H. apply Z_toString_inj in H. lia.
Qed.

Lemma map_td_id_set_parent (p : option string) (t : TreeGraphData) :
  map td_id (nodes (set_parent p t)) = map td_id (nodes t).
Proof.
  destruct t; reflexivity.
Qed.

Lemma refreshChildren_numbers (data_id : string) (cs : list TreeGraphData) :
  Forall (fun t => forall id, 0 < id ->
            map td_id (nodes (fst (refreshTreeDataId t (Some id))))
            = idsFrom id (List.length (nodes t)) /\
            snd (refreshTreeDataId t (Some id))
            = id + Z.of_nat (List.length (nodes t))) cs ->
  forall id childStatus, 0 < id ->
    let r := refreshChildren refreshTreeDataId data_id cs id childStatus in
    map td_id (flat_map nodes (fst (fst r)))
    = idsFrom id (List.length (flat_map nodes cs)) /\
    snd (fst r) = id + Z.of_nat (List.length (flat_map nodes cs)).
Proof.
  induction 1 as [|c cs Hc Hcs IH]; intros id childStatus Hid.
  - simpl. split; [reflexivity | lia].
  - cbn [refreshChildren flat_map].
    destruct (Hc id ltac:(lia)) as [Hids Hnext].
    destruct (refreshTreeDataId c (Some id)) as [c1 id'] eqn:Ec.
    simpl in Hids, Hnext.
    match goal with
    | |- context [refreshChildren _ _ cs id' ?s] =>
        specialize (IH id' s ltac:(lia));
        destruct (refreshChildren refreshTreeDataId data_id cs id' s)
          as [[rest' id''] childStatus''] eqn:Er
    end.
    cbn [fst snd] in IH. destruct IH as [IHids IHnext]. cbn [fst snd flat_map].
    rewrite map_app, map_td_id_set_parent, Hids, IHids.
    rewrite length_app, idsFrom_app, Hnext. split; [reflexivity|].
    rewrite IHnext, Hnext. lia.
Qed.

Lemma refreshTreeDataId_numbers_from (t : TreeGraphData) :
  forall id, 0 < id ->
    map td_id (nodes (fst (refreshTreeDataId t (Some id))))
    = idsFrom id (List.length (nodes t)) /\
    snd (refreshTreeDataId t (Some id)) = id + Z.of_nat (List.length (nodes t)).
Proof.
  induction t as [t IH] using TreeGraphData_induction. intros id Hid.
  rewrite refreshTreeDataId_eq. cbv zeta.
  replace (id =? 0) with false by lia.
  rewrite (nodes_eq t).
  destruct (td_children t) as [cs|] eqn:Hcs.
  - pose proof (refreshChildren_numbers (JS.Z_toString id) cs (IH cs eq_refl)
                  (id + 1) 0 ltac:(lia)) as Hch.
    destruct (refreshChildren refreshTreeDataId (JS.Z_toString id) cs (id + 1) 0)
      as [[cs' id2] childStatus].
    cbn [fst snd] in *. destruct Hch as [Hids Hnext].
    rewrite nodes_eq. cbn [buildStatusFlag set_status set_children set_id
                           td_children td_id map List.length].
    rewrite Hids, idsFrom_S. split; [reflexivity | lia].
  - cbn [fst snd]. rewrite nodes_eq.
    cbn [set_status set_id td_children td_id map List.length].
    rewrite Hcs, idsFrom_S. split; [reflexivity | simpl; lia].
Qed.

(** C2. Called on the root of a tree of N nodes, [refreshTreeDataId]
    gives the nodes, taken parent first and then each child subtree in
    full from left to right, the ids "1", "2", ..., "N" in that order,
    each id once, and returns N + 1. *)
Theorem refreshTreeDataId_numbers (t : TreeGraphData) :
  let N := List.length (nodes t) in
  let refreshed := fst (refreshTreeDataId t None) in
  map td_id (nodes refreshed) = idsFrom 1 N /\
  NoDup (map td_id (nodes refreshed)) /\
  List.length (nodes refreshed) = N /\
  snd (refreshTreeDataId t None) = Z.of_nat N + 1.
Proof.
  intros N refreshed.
  assert (Hsame : refreshTreeDataId t None = refreshTreeDataId t (Some 1)).
  { now rewrite !refreshTreeDataId_eq. }
  destruct (refreshTreeDataId_numbers_from t 1 ltac:(lia)) as [Hids Hnext].
  subst refreshed. rewrite Hsame.
  split; [exact Hids|]. split; [rewrite Hids; apply idsFrom_NoDup|].
  split.
  - rewrite <- (length_map td_id), Hids. unfold idsFrom.
    now rewrite length_map, length_seq.
  - rewrite Hnext. subst N. lia.
Qed.

Example refreshTreeDataId_sequence_log_wait :
  let tree := Sample.graph Sample.Sequence
                (Some [Sample.graph Sample.Log None;
                       Sample.graph Sample.Wait None]) in
  map td_id (nodes (fst (refreshTreeDataId tree None))) = ["1"; "2"; "3"]%string
  /\ snd (refreshTreeDataId tree None) = 4.
Proof. split; reflexivity. Qed.

Example refreshTreeDataId_depth_first :
  let leaf := Sample.graph Sample.Log None in
  let tree := Sample.graph Sample.Sequence
                (Some [Sample.graph Sample.Sequence (Some [leaf; leaf]); leaf]) in
  map (fun n => (td_id n, td_parent n)) (nodes (fst (refreshTreeDataId tree None)))
  = [("1", None); ("2", Some "1"); ("3", Some "2"); ("4", Some "2");
     ("5", Some "1")]%string.
Proof. reflexivity. Qed.

(** ** Status bits *)

Lemma land_1_b2z (x : Z) : Z.land x 1 = Z.b2z (Z.testbit x 0).
Proof.
  change 1 with (Z.ones 1). rewrite Z.land_ones by lia.
  now rewrite Z.bit0_mod.
Qed.

Lemma child_bit (c k : Z) :
  0 <= k -> Z.land (Z.shiftr c k) 1 = Z.b2z (Z.testbit c k).
Proof.
  intros Hk. rewrite land_1_b2z, Z.shiftr_spec by lia. now rewrite Z.add_0_l.
Qed.

Lemma lor_range (a b : Z) :
  0 <= a < 64 -> 0 <= b < 64 -> 0 <= Z.lor a b < 64.
Proof.
  intros Ha Hb. assert (H0 : 0 <= Z.lor a b) by (apply Z.lor_nonneg; lia).
  split; [exact H0|].
  destruct (Z.eq_dec (Z.lor a b) 0) as [->|Hne]; [lia|].
  change 64 with (2 ^ 6). apply Z.log2_lt_pow2; [lia|].
  rewrite Z.log2_lor by lia.
  assert (La : Z.log2 a < 6).
  { destruct (Z.eq_dec a 0) as [->|]; [reflexivity|].
    apply Z.log2_lt_pow2; [lia | simpl; lia]. }
  assert (Lb : Z.log2 b < 6).
  { destruct (Z.eq_dec b 0) as [->|]; [reflexivity|].
    apply Z.log2_lt_pow2; [lia | simpl; lia]. }
  lia.
Qed.

Lemma clear_range (a m : Z) :
  0 <= a < 64 -> 0 <= Z.land a (Z.lnot m) < 64.
Proof.
  intros Ha. rewrite <- Z.sub_land_same_l.
  assert (0 <= Z.land a m) by (apply Z.land_nonneg; lia).
  assert (0 <= Z.land a (Z.lnot m)) by (apply Z.land_nonneg; lia).
  rewrite <- Z.sub_land_same_l in *. lia.
Qed.

Lemma b2z_shift_range (b : bool) (k : Z) :
  0 <= k <= 5 -> 0 <= Z.shiftl (Z.b2z b) k < 64.
Proof.
  intros Hk. assert (k = 0 \/ k = 1 \/ k = 2 \/ k = 3 \/ k = 4 \/ k = 5) as Hc by lia.
  destruct b; destruct Hc as [->|[->|[->|[->|[->| ->]]]]]; simpl; lia.
Qed.

Lemma toStatusFlag_fold_range (l : list string) (s : Z) :
  0 <= s < 64 ->
  0 <= fold_left
         (fun status s =>
            if (s =? "success")%string then
              Z.lor status (Z.shiftl 1 StatusFlag.SUCCESS)
            else if (s =? "failure")%string then
              Z.lor status (Z.shiftl 1 StatusFlag.FAILURE)
            else if (s =? "running")%string then
              Z.lor status (Z.shiftl 1 StatusFlag.RUNNING)
            else status) l s < 64.
Proof.
  revert s. induction l as [|d l IH]; intros s Hs; [exact Hs|].
  simpl. apply IH.
  destruct (d =? "success")%string; [apply lor_range; [exact Hs | simpl; lia]|].
  destruct (d =? "failure")%string; [apply lor_range; [exact Hs | simpl; lia]|].
  destruct (d =? "running")%string; [apply lor_range; [exact Hs | simpl; lia]|].
  exact Hs.
Qed.

Lemma toStatusFlag_range (data : TreeGraphData) : 0 <= toStatusFlag data < 64.
Proof.
  unfold toStatusFlag. destruct (def_status (td_def data)); [|lia].
  apply toStatusFlag_fold_range. lia.
Qed.

Lemma appendStatusFlag_range (status childStatus : Z) :
  0 <= status < 64 -> 0 <= childStatus < 64 ->
  0 <= appendStatusFlag status childStatus < 64.
Proof.
  intros Hs Hc. unfold appendStatusFlag.
  apply lor_range; [|exact Hc].
  repeat match goal with
         | |- context [if ?b then _ else _] => destruct b
         end;
    repeat (apply lor_range; [|simpl; lia]); exact Hs.
Qed.

Lemma applyDirective_range (childStatus status : Z) (s : string) :
  0 <= status < 64 -> 0 <= applyDirective childStatus status s < 64.
Proof.
  intros Hs. unfold applyDirective.
  rewrite !child_bit by (unfold StatusFlag.SUCCESS, StatusFlag.FAILURE,
    StatusFlag.RUNNING, StatusFlag.SUCCESS_ZERO, StatusFlag.FAILURE_ZERO; lia).
  repeat match goal with
         | |- context [if ?b then _ else _] => destruct b
         end;
    try exact Hs; try (apply clear_range; exact Hs);
    (apply lor_range; [exact Hs|]; apply b2z_shift_range;
     unfold StatusFlag.SUCCESS, StatusFlag.FAILURE, StatusFlag.RUNNING; lia).
Qed.

Lemma fold_applyDirective_range (childStatus : Z) (ds : list string) (status : Z) :
  0 <= status < 64 ->
  0 <= fold_left (applyDirective childStatus) ds status < 64.
Proof.
  revert status. induction ds as [|d ds IH]; intros status Hs; [exact Hs|].
  simpl. apply IH. now apply applyDirective_range.
Qed.

Lemma builtStatus_range (directives : option (list string)) (status childStatus : Z) :
  0 <= status < 64 -> 0 <= childStatus < 64 ->
  0 <= builtStatus directives status childStatus < 64.
Proof.
  intros Hs Hc. unfold builtStatus.
  destruct directives as [[|d ds]|]; try (now apply lor_range).
  now apply fold_applyDirective_range.
Qed.

Lemma aggregate_fold_range (cs : list TreeGraphData) (acc : Z) :
  Forall (fun c => 0 <= statusOf c < 64) cs -> 0 <= acc < 64 ->
  0 <= fold_left
         (fun childStatus child =>
            if counted child then appendStatusFlag childStatus (statusOf child)
            else childStatus) cs acc < 64.
Proof.
  intros Hall. revert acc. induction Hall as [|c cs Hc _ IH]; intros acc Hacc.
  - exact Hacc.
  - simpl. apply IH. destruct (counted c); [|exact Hacc].
    now apply appendStatusFlag_range.
Qed.

(** ** Every refreshed node is settled *)

Lemma refreshChildren_aggregate (data_id : string) (cs : list TreeGraphData)
  (id acc : Z) :
  snd (refreshChildren refreshTreeDataId data_id cs id acc) =
  fold_left
    (fun childStatus child =>
       if counted child then appendStatusFlag childStatus (statusOf child)
       else childStatus)
    (fst (fst (refreshChildren refreshTreeDataId data_id cs id acc))) acc.
Proof.
  revert id acc. induction cs as [|c cs IH]; intros id acc; [reflexivity|].
  cbn [refreshChildren].
  destruct (refreshTreeDataId c (Some id)) as [c1 id'].
  match goal with
  | |- context [refreshChildren _ _ cs id' ?s] =>
      specialize (IH id' s);
      destruct (refreshChildren refreshTreeDataId data_id cs id' s)
        as [[rest' id''] childStatus'']
  end.
  cbn [fst snd fold_left] in *. exact IH.
Qed.

Lemma nodes_set_parent (p : option string) (t : TreeGraphData) :
  nodes (set_parent p t) = set_parent p t :: tl (nodes t).
Proof.
  destruct t; reflexivity.
Qed.

Lemma settled_set_parent (p : option string) (t : TreeGraphData) :
  settled t -> settled (set_parent p t).
Proof.
  destruct t; exact (fun H => H).
Qed.

Lemma Forall_settled_set_parent (p : option string) (t : TreeGraphData) :
  Forall settled (nodes t) -> Forall settled (nodes (set_parent p t)).
Proof.
  rewrite nodes_set_parent, (nodes_eq t). cbn [tl]. intros H.
  inversion H as [|x l Hx Hl]; subst. constructor; [|exact Hl].
  now apply settled_set_parent.
Qed.

Lemma Forall_flat_map_nodes_heads (P : TreeGraphData -> Prop)
  (cs : list TreeGraphData) :
  Forall P (flat_map nodes cs) -> Forall P cs.
Proof.
  induction cs as [|c cs IH]; intros H; [constructor|].
  cbn [flat_map] in H. apply Forall_app in H as [Hc Hcs].
  rewrite nodes_eq in Hc. inversion Hc; subst. constructor; auto.
Qed.

Lemma refreshChildren_settled (data_id : string) (cs : list TreeGraphData) :
  Forall (fun c => forall id, Forall settled (nodes (fst (refreshTreeDataId c id))))
    cs ->
  forall id acc,
    Forall settled
      (flat_map nodes (fst (fst (refreshChildren refreshTreeDataId data_id cs id acc)))).
Proof.
  induction 1 as [|c cs Hc _ IH]; intros id acc; [constructor|].
  cbn [refreshChildren]. specialize (Hc (Some id)).
  destruct (refreshTreeDataId c (Some id)) as [c1 id'].
  match goal with
  | |- context [refreshChildren _ _ cs id' ?s] =>
      specialize (IH id' s);
      destruct (refreshChildren refreshTreeDataId data_id cs id' s)
        as [[rest' id''] childStatus'']
  end.
  cbn [fst snd flat_map] in *. apply Forall_app. split; [|exact IH].
  now apply Forall_settled_set_parent.
Qed.

Lemma settled_statusOf (n : TreeGraphData) :
  settled n -> 0 <= statusOf n < 64.
Proof.
  intros [Hs Hr]. unfold statusOf. now rewrite Hs.
Qed.

Lemma settled_built (d : TreeGraphData) (cs' : list TreeGraphData)
  (i : string) (childStatus : Z) :
  childStatus = aggregate cs' -> 0 <= childStatus < 64 ->
  settled (buildStatusFlag
             (set_children (Some cs')
                (set_status (Some (toStatusFlag d)) (set_id i d)))
             childStatus).
Proof.
  intros -> Hr. destruct d. split; [reflexivity|].
  apply builtStatus_range; [apply toStatusFlag_range | exact Hr].
Qed.

Lemma settled_leaf (d : TreeGraphData) (i : string) :
  td_children d = None ->
  settled (set_status (Some (toStatusFlag d)) (set_id i d)).
Proof.
  destruct d. cbn [td_children]. intros ->. split; [reflexivity|].
  apply toStatusFlag_range.
Qed.

(** After [refreshTreeDataId], every node of the tree holds the status
    computed from its definition and its refreshed children, and that
    status fits in six bits. *)
Lemma refreshTreeDataId_settled (t : TreeGraphData) :
  forall id, Forall settled (nodes (fst (refreshTreeDataId t id))).
Proof.
  induction t as [t IH] using TreeGraphData_induction. intros id.
  rewrite refreshTreeDataId_eq. cbv zeta.
  destruct (td_children t) as [cs|] eqn:Hcs.
  - match goal with
    | |- context [refreshChildren _ ?d cs ?i 0] =>
        pose proof (refreshChildren_settled d cs (IH cs eq_refl) i 0) as Hch;
        pose proof (refreshChildren_aggregate d cs i 0) as Hagg;
        destruct (refreshChildren refreshTreeDataId d cs i 0)
          as [[cs' id2] childStatus]
    end.
    cbn [fst snd] in *. rewrite nodes_eq.
    constructor.
    + apply settled_built; [exact Hagg|].
      rewrite Hagg. apply aggregate_fold_range; [|lia].
      apply Forall_flat_map_nodes_heads in Hch.
      eapply Forall_impl; [|exact Hch]. intros c. apply settled_statusOf.
    + destruct t; exact Hch.
  - cbn [fst]. rewrite nodes_eq.
    constructor; [now apply settled_leaf|].
    destruct t; cbn [td_children] in Hcs; subst; constructor.
Qed.

(** ** Bits of the aggregate and of the directives *)

Ltac flag_names :=
  unfold StatusFlag.SUCCESS, StatusFlag.FAILURE, StatusFlag.RUNNING,
    StatusFlag.SUCCESS_ZERO, StatusFlag.FAILURE_ZERO in *.

Ltac split_ifs :=
  repeat match goal with
         | |- context [if ?b then _ else _] => destruct b eqn:?
         end.

Lemma appendStatusFlag_low (status childStatus k : Z) :
  k = 0 \/ k = 1 \/ k = 2 ->
  Z.testbit (appendStatusFlag status childStatus) k
  = Z.testbit status k || Z.testbit childStatus k.
Proof.
  intros Hk. unfold appendStatusFlag. flag_names.
  rewrite !child_bit by lia.
  destruct (Z.testbit childStatus 2), (Z.testbit childStatus 1);
    cbn [Z.b2z Z.eqb]; rewrite ?Z.lor_spec;
    destruct Hk as [->|[->| ->]]; cbn; now rewrite ?orb_false_r.
Qed.

Lemma appendStatusFlag_success_zero (status childStatus : Z) :
  Z.testbit (appendStatusFlag status childStatus) StatusFlag.SUCCESS_ZERO
  = Z.testbit status StatusFlag.SUCCESS_ZERO
    || negb (Z.testbit childStatus StatusFlag.SUCCESS)
    || Z.testbit childStatus StatusFlag.SUCCESS_ZERO.
Proof.
  unfold appendStatusFlag. flag_names. rewrite !child_bit by lia.
  destruct (Z.testbit childStatus 2), (Z.testbit childStatus 1);
    cbn [Z.b2z Z.eqb negb]; rewrite ?Z.lor_spec; cbn;
    now rewrite ?orb_false_r, ?orb_true_r.
Qed.

Lemma appendStatusFlag_failure_zero (status childStatus : Z) :
  Z.testbit (appendStatusFlag status childStatus) StatusFlag.FAILURE_ZERO
  = Z.testbit status StatusFlag.FAILURE_ZERO
    || negb (Z.testbit childStatus StatusFlag.FAILURE)
    || Z.testbit childStatus StatusFlag.FAILURE_ZERO.
Proof.
  unfold appendStatusFlag. flag_names. rewrite !child_bit by lia.
  destruct (Z.testbit childStatus 2), (Z.testbit childStatus 1);
    cbn [Z.b2z Z.eqb negb]; rewrite ?Z.lor_spec; cbn;
    now rewrite ?orb_false_r, ?orb_true_r.
Qed.

(** A child that counts and lacks an outcome raises the tracking bit of
    that outcome in the aggregate. *)
Lemma aggregate_fold_success_zero (cs : list TreeGraphData) (acc : Z) (c : TreeGraphData) :
  In c cs -> counted c = true ->
  Z.testbit (statusOf c) StatusFlag.SUCCESS = false ->
  Z.testbit
    (fold_left
       (fun childStatus child =>
          if counted child then appendStatusFlag childStatus (statusOf child)
          else childStatus) cs acc) StatusFlag.SUCCESS_ZERO = true.
Proof.
  intros Hin Hc Hs.
  assert (Hkeep : forall l a, Z.testbit a StatusFlag.SUCCESS_ZERO = true ->
            Z.testbit
              (fold_left
                 (fun childStatus child =>
                    if counted child
                    then appendStatusFlag childStatus (statusOf child)
                    else childStatus) l a) StatusFlag.SUCCESS_ZERO = true).
  { induction l as [|x l IH]; intros a Ha; [exact Ha|].
    simpl. apply IH. destruct (counted x); [|exact Ha].
    now rewrite appendStatusFlag_success_zero, Ha. }
  revert acc. induction cs as [|x cs IH]; intros acc; [contradiction|].
  simpl. destruct Hin as [->|Hin].
  - apply Hkeep. rewrite Hc, appendStatusFlag_success_zero, Hs.
    cbn [negb]. now rewrite orb_true_r.
  - now apply IH.
Qed.

Lemma aggregate_fold_failure_zero (cs : list TreeGraphData) (acc : Z) (c : TreeGraphData) :
  In c cs -> counted c = true ->
  Z.testbit (statusOf c) StatusFlag.FAILURE = false ->
  Z.testbit
    (fold_left
       (fun childStatus child =>
          if counted child then appendStatusFlag childStatus (statusOf child)
          else childStatus) cs acc) StatusFlag.FAILURE_ZERO = true.
Proof.
  intros Hin Hc Hs.
  assert (Hkeep : forall l a, Z.testbit a StatusFlag.FAILURE_ZERO = true ->
            Z.testbit
              (fold_left
                 (fun childStatus child =>
                    if counted child
                    then appendStatusFlag childStatus (statusOf child)
                    else childStatus) l a) StatusFlag.FAILURE_ZERO = true).
  { induction l as [|x l IH]; intros a Ha; [exact Ha|].
    simpl. apply IH. destruct (counted x); [|exact Ha].
    now rewrite appendStatusFlag_failure_zero, Ha. }
  revert acc. induction cs as [|x cs IH]; intros acc; [contradiction|].
  simpl. destruct Hin as [->|Hin].
  - apply Hkeep. rewrite Hc, appendStatusFlag_failure_zero, Hs.
    cbn [negb]. now rewrite orb_true_r.
  - now apply IH.
Qed.

(** The directives leave the tracking bits of the node as they are. *)
Lemma applyDirective_high (childStatus status : Z) (s : string) (k : Z) :
  k = 4 \/ k = 5 ->
  Z.testbit (applyDirective childStatus status s) k = Z.testbit status k.
Proof.
  intros Hk. unfold applyDirective. flag_names. rewrite !child_bit by lia.
  split_ifs; try reflexivity;
    rewrite ?Z.lor_spec, ?Z.land_spec;
    repeat match goal with
           | |- context [Z.b2z (Z.testbit ?c ?i)] => destruct (Z.testbit c i)
           end;
    destruct Hk as [->| ->]; cbn; now rewrite ?orb_false_r, ?andb_true_r.
Qed.

(** With the success tracking bit raised, ["&success"] clears the
    SUCCESS bit, and only ["|success"] and ["!success"] can set it. *)
Lemma applyDirective_success_cleared (childStatus status : Z) (s : string) :
  Z.testbit childStatus StatusFlag.SUCCESS_ZERO = true ->
  s <> "|success"%string -> s <> "!success"%string ->
  s = "&success"%string \/ Z.testbit status StatusFlag.SUCCESS = false ->
  Z.testbit (applyDirective childStatus status s) StatusFlag.SUCCESS = false.
Proof.
  intros Hz H1 H2 H. unfold applyDirective. flag_names.
  rewrite !child_bit by lia. rewrite Hz.
  apply String.eqb_neq in H1, H2. rewrite H1, H2.
  destruct H as [-> | Hs].
  - cbn [String.eqb Ascii.eqb Bool.eqb andb Z.b2z Z.eqb negb].
    rewrite Z.land_spec. apply andb_false_r.
  - split_ifs; try exact Hs; try discriminate;
      rewrite ?Z.lor_spec, ?Z.land_spec, ?Hs;
      repeat match goal with
             | |- context [Z.b2z (Z.testbit ?c ?i)] => destruct (Z.testbit c i)
             end; cbn; reflexivity.
Qed.

Lemma applyDirective_failure_cleared (childStatus status : Z) (s : string) :
  Z.testbit childStatus StatusFlag.FAILURE_ZERO = true ->
  s <> "|failure"%string -> s <> "!failure"%string ->
  s = "&failure"%string \/ Z.testbit status StatusFlag.FAILURE = false ->
  Z.testbit (applyDirective childStatus status s) StatusFlag.FAILURE = false.
Proof.
  intros Hz H1 H2 H. unfold applyDirective. flag_names.
  rewrite !child_bit by lia. rewrite Hz.
  apply String.eqb_neq in H1, H2. rewrite H1, H2.
  destruct H as [-> | Hs].
  - cbn [String.eqb Ascii.eqb Bool.eqb andb Z.b2z Z.eqb negb].
    rewrite Z.land_spec. apply andb_false_r.
  - split_ifs; try exact Hs; try discriminate;
      rewrite ?Z.lor_spec, ?Z.land_spec, ?Hs;
      repeat match goal with
             | |- context [Z.b2z (Z.testbit ?c ?i)] => destruct (Z.testbit c i)
             end; cbn; reflexivity.
Qed.

Lemma flag_statusOf (n : TreeGraphData) (k : Z) :
  flag (td_status n) k = Z.testbit (statusOf n) k.
Proof.
  unfold flag, statusOf. destruct (td_status n); [reflexivity|].
  now rewrite Z.testbit_0_l.
Qed.

Lemma toStatusFlag_high (data : TreeGraphData) (k : Z) :
  k = 4 \/ k = 5 -> Z.testbit (toStatusFlag data) k = false.
Proof.
  intros Hk. unfold toStatusFlag.
  destruct (def_status (td_def data)) as [l|]; [|apply Z.testbit_0_l].
  assert (H : forall s, Z.testbit s k = false ->
            Z.testbit
              (fold_left
                 (fun status s =>
                    if (s =? "success")%string then
                      Z.lor status (Z.shiftl 1 StatusFlag.SUCCESS)
                    else if (s =? "failure")%string then
                      Z.lor status (Z.shiftl 1 StatusFlag.FAILURE)
                    else if (s =? "running")%string then
                      Z.lor status (Z.shiftl 1 StatusFlag.RUNNING)
                    else status) l s) k = false).
  { induction l as [|d l IH]; intros s Hs; [exact Hs|].
    simpl. apply IH. flag_names.
    split_ifs; try exact Hs; rewrite Z.lor_spec, Hs;
      destruct Hk as [->| ->]; reflexivity. }
  apply H. apply Z.testbit_0_l.
Qed.

Lemma fold_applyDirective_high (childStatus : Z) (ds : list string)
  (status k : Z) :
  k = 4 \/ k = 5 ->
  Z.testbit (fold_left (applyDirective childStatus) ds status) k
  = Z.testbit status k.
Proof.
  intros Hk. revert status. induction ds as [|d ds IH]; intros status.
  - reflexivity.
  - simpl. rewrite IH. now apply applyDirective_high.
Qed.

Lemma fold_applyDirective_success_cleared (childStatus : Z) (post : list string)
  (status : Z) :
  Z.testbit childStatus StatusFlag.SUCCESS_ZERO = true ->
  ~ In "|success"%string post -> ~ In "!success"%string post ->
  Z.testbit status StatusFlag.SUCCESS = false ->
  Z.testbit (fold_left (applyDirective childStatus) post status)
    StatusFlag.SUCCESS = false.
Proof.
  intros Hz. revert status. induction post as [|d post IH]; intros status H1 H2 Hs.
  - exact Hs.
  - simpl. apply IH.
    + intros H. apply H1. now right.
    + intros H. apply H2. now right.
    + apply applyDirective_success_cleared; auto.
      * intros ->. apply H1. now left.
      * intros ->. apply H2. now left.
Qed.

Lemma fold_applyDirective_failure_cleared (childStatus : Z) (post : list string)
  (status : Z) :
  Z.testbit childStatus StatusFlag.FAILURE_ZERO = true ->
  ~ In "|failure"%string post -> ~ In "!failure"%string post ->
  Z.testbit status StatusFlag.FAILURE = false ->
  Z.testbit (fold_left (applyDirective childStatus) post status)
    StatusFlag.FAILURE = false.
Proof.
  intros Hz. revert status. induction post as [|d post IH]; intros status H1 H2 Hs.
  - exact Hs.
  - simpl. apply IH.
    + intros H. apply H1. now right.
    + intros H. apply H2. now right.
    + apply applyDirective_failure_cleared; auto.
      * intros ->. apply H1. now left.
      * intros ->. apply H2. now left.
Qed.

Lemma builtStatus_declared (ds : list string) (status childStatus : Z) :
  ds <> [] ->
  builtStatus (Some ds) status childStatus
  = fold_left (applyDirective childStatus) ds status.
Proof.
  destruct ds; [contradiction | reflexivity].
Qed.

Lemma In_refreshed_settled (t : TreeGraphData) (id : option Z) (n : TreeGraphData) :
  In n (nodes (fst (refreshTreeDataId t id))) -> settled n.
Proof.
  intros Hin. pose proof (refreshTreeDataId_settled t id) as H.
  rewrite Forall_forall in H. now apply H.
Qed.

(** C3 (as the code has it). Take a refreshed node with children whose
    definition declares ["&success"] with no ["|success"] or
    ["!success"] after it: if one of its children that count (not
    disabled, status not 0) lacks SUCCESS, the node's SUCCESS bit is
    clear.  The same holds of ["&failure"] and FAILURE.  In particular
    a node declaring [["&success"; "|failure"]] with two children that
    count, exactly one of them success-capable, ends with SUCCESS clear
    and with FAILURE set exactly when one of the two can fail. *)
Theorem and_directive_clears (t : TreeGraphData) (id : option Z)
  (n : TreeGraphData) (cs : list TreeGraphData) (ds : list string) :
  In n (nodes (fst (refreshTreeDataId t id))) ->
  td_children n = Some cs ->
  def_status (td_def n) = Some ds ->
  (forall pre post,
      ds = (pre ++ "&success"%string :: post)%list ->
      ~ In "|success"%string post -> ~ In "!success"%string post ->
      someCountedLacks StatusFlag.SUCCESS cs ->
      flag (td_status n) StatusFlag.SUCCESS = false) /\
  (forall pre post,
      ds = (pre ++ "&failure"%string :: post)%list ->
      ~ In "|failure"%string post -> ~ In "!failure"%string post ->
      someCountedLacks StatusFlag.FAILURE cs ->
      flag (td_status n) StatusFlag.FAILURE = false) /\
  (ds = ["&success"; "|failure"]%string ->
   forall a b,
     cs = [a; b] -> counted a = true -> counted b = true ->
     xorb (flag (td_status a) StatusFlag.SUCCESS)
          (flag (td_status b) StatusFlag.SUCCESS) = true ->
     flag (td_status n) StatusFlag.SUCCESS = false /\
     flag (td_status n) StatusFlag.FAILURE
     = flag (td_status a) StatusFlag.FAILURE
       || flag (td_status b) StatusFlag.FAILURE).
Proof.
  intros Hin Hcs Hds. apply In_refreshed_settled in Hin as [Hst _].
  unfold expectedStatus in Hst. rewrite Hcs, Hds in Hst.
  assert (Hsucc : forall pre post,
      ds = (pre ++ "&success"%string :: post)%list ->
      ~ In "|success"%string post -> ~ In "!success"%string post ->
      someCountedLacks StatusFlag.SUCCESS cs ->
      flag (td_status n) StatusFlag.SUCCESS = false).
  { intros pre post -> H1 H2 [c [Hc [Hcount Hlack]]].
    rewrite builtStatus_declared in Hst by (now destruct pre).
    rewrite Hst. cbn [flag]. rewrite fold_left_app. cbn [fold_left].
    assert (Hz : Z.testbit (aggregate cs) StatusFlag.SUCCESS_ZERO = true).
    { apply (aggregate_fold_success_zero cs 0 c); auto.
      now rewrite <- flag_statusOf. }
    apply fold_applyDirective_success_cleared; auto.
    apply applyDirective_success_cleared; auto; discriminate. }
  split; [exact Hsucc|]. split.
  - intros pre post -> H1 H2 [c [Hc [Hcount Hlack]]].
    rewrite builtStatus_declared in Hst by (now destruct pre).
    rewrite Hst. cbn [flag]. rewrite fold_left_app. cbn [fold_left].
    assert (Hz : Z.testbit (aggregate cs) StatusFlag.FAILURE_ZERO = true).
    { apply (aggregate_fold_failure_zero cs 0 c); auto.
      now rewrite <- flag_statusOf. }
    apply fold_applyDirective_failure_cleared; auto.
    apply applyDirective_failure_cleared; auto; discriminate.
  - intros Eds a b Ecs Ha Hb Hx.
    assert (Hlacks : someCountedLacks StatusFlag.SUCCESS cs).
    { subst cs. destruct (flag (td_status a) StatusFlag.SUCCESS) eqn:Ea.
      - exists b. repeat split; [right; now left | exact Hb |].
        destruct (flag (td_status b) StatusFlag.SUCCESS); [discriminate|reflexivity].
      - exists a. repeat split; [now left | exact Ha | exact Ea]. }
    split.
    + apply (Hsucc [] ["|failure"%string]); auto.
      * intros [H|[]]; discriminate.
      * intros [H|[]]; discriminate.
    + assert (Hz : Z.testbit (aggregate cs) StatusFlag.SUCCESS_ZERO = true).
      { destruct Hlacks as [c [Hc [Hcount Hlack]]].
        apply (aggregate_fold_success_zero cs 0 c); auto.
        now rewrite <- flag_statusOf. }
      assert (Hagg : Z.testbit (aggregate cs) StatusFlag.FAILURE
                     = Z.testbit (statusOf a) StatusFlag.FAILURE
                       || Z.testbit (statusOf b) StatusFlag.FAILURE).
      { subst cs. unfold aggregate. cbn [fold_left]. rewrite Ha, Hb.
        rewrite !appendStatusFlag_low by (flag_names; lia).
        now rewrite Z.testbit_0_l. }
      assert (H0 : toStatusFlag n = 0).
      { unfold toStatusFlag. rewrite Hds, Eds. reflexivity. }
      rewrite Hst, Eds, H0. cbn [flag builtStatus fold_left].
      rewrite !flag_statusOf, <- Hagg.
      unfold applyDirective at 1.
      cbn [String.eqb Ascii.eqb Bool.eqb andb].
      unfold applyDirective.
      cbn [String.eqb Ascii.eqb Bool.eqb andb].
      flag_names. rewrite !child_bit by lia. rewrite Hz.
      cbn [Z.b2z Z.eqb negb]. rewrite Z.lor_spec, Z.land_spec.
      rewrite Z.testbit_0_l. cbn [andb orb].
      destruct (Z.testbit (aggregate cs) 1); reflexivity.
Qed.

Lemma and_directive_clears_witness :
  flag (td_status (Sample.refreshed Sample.allOfLogFail)) StatusFlag.SUCCESS = false /\
  flag (td_status (Sample.refreshed Sample.allOfLogFail)) StatusFlag.FAILURE = true.
Proof.
  destruct (and_directive_clears Sample.allOfLogFail None
              (Sample.refreshed Sample.allOfLogFail)
              (Sample.refreshedChildren Sample.allOfLogFail)
              ["&success"; "|failure"]%string
              (or_introl eq_refl) eq_refl eq_refl) as [_ [_ H]].
  exact (H eq_refl _ _ eq_refl eq_refl eq_refl eq_refl).
Defined.

(** C3, the claim as stated fails: a node declaring
    [["&success"; "|failure"]] with two children, neither disabled, the
    first success-capable and the second not, need not end with its
    SUCCESS bit clear.  When the second child has no outcome at all its
    status is 0, and the loop of [refreshTreeDataId] leaves such a
    child out of the aggregate. *)
Lemma and_success_skips_statusless_child :
  ~ (forall t n a b,
        In n (nodes (fst (refreshTreeDataId t None))) ->
        def_status (td_def n) = Some ["&success"; "|failure"]%string ->
        td_children n = Some [a; b] ->
        JS.truthy_bool (td_disabled a) = false ->
        JS.truthy_bool (td_disabled b) = false ->
        flag (td_status a) StatusFlag.SUCCESS = true ->
        flag (td_status b) StatusFlag.SUCCESS = false ->
        flag (td_status n) StatusFlag.SUCCESS = false).
Proof.
  intros H.
  specialize (H Sample.allOfLogIdle (Sample.refreshed Sample.allOfLogIdle)
                _ _ (or_introl eq_refl) eq_refl eq_refl eq_refl eq_refl
                eq_refl eq_refl).
  discriminate H.
Qed.

Example allOf_log_idle_statuses :
  map (fun c => (td_disabled c, td_status c))
    (Sample.refreshedChildren Sample.allOfLogIdle)
  = [(None, Some 4%Z); (None, Some 0%Z)] /\
  td_status (Sample.refreshed Sample.allOfLogIdle) = Some 4%Z.
Proof.
  split; reflexivity.
Qed.

Example and_success_set_again_by_later_directive :
  def_status (td_def (Sample.refreshed Sample.flipLogFail))
  = Some ["&success"; "!success"]%string /\
  map (fun c => flag (td_status c) StatusFlag.SUCCESS)
    (Sample.refreshedChildren Sample.flipLogFail)
  = [true; false] /\
  flag (td_status (Sample.refreshed Sample.flipLogFail)) StatusFlag.SUCCESS
  = true.
Proof.
  repeat split; reflexivity.
Qed.

(** C4 (as the code has it). After [refreshTreeDataId], a node whose
    definition declares a status list, or that has no children array,
    holds a status with the SUCCESS_ZERO and FAILURE_ZERO bits clear.
    A node with children whose definition declares no status holds the
    aggregate of its children as it is, tracking bits included. *)
Theorem tracking_bits_clear_when_declared (t : TreeGraphData) (id : option Z)
  (n : TreeGraphData) :
  In n (nodes (fst (refreshTreeDataId t id))) ->
  (declares (def_status (td_def n)) = true \/ td_children n = None ->
   flag (td_status n) StatusFlag.SUCCESS_ZERO = false /\
   flag (td_status n) StatusFlag.FAILURE_ZERO = false) /\
  (declares (def_status (td_def n)) = false ->
   forall cs, td_children n = Some cs -> td_status n = Some (aggregate cs)).
Proof.
  intros Hin. apply In_refreshed_settled in Hin as [Hst _].
  unfold expectedStatus in Hst. split.
  - intros H. rewrite Hst. cbn [flag]. flag_names.
    destruct (td_children n) as [cs|].
    + destruct H as [H|H]; [|discriminate].
      unfold declares in H.
      destruct (def_status (td_def n)) as [[|d ds]|] eqn:Hds; try discriminate.
      unfold builtStatus.
      rewrite !fold_applyDirective_high by lia.
      split; apply toStatusFlag_high; lia.
    + split; apply toStatusFlag_high; lia.
  - intros H cs Hcs. rewrite Hst, Hcs. f_equal.
    unfold declares in H. unfold toStatusFlag, builtStatus.
    destruct (def_status (td_def n)) as [[|d ds]|]; try discriminate;
      apply Z.lor_0_l.
Qed.

Lemma tracking_bits_clear_when_declared_witness :
  (declares (def_status (td_def (Sample.refreshed Sample.allOfLogFail))) = true \/
   td_children (Sample.refreshed Sample.allOfLogFail) = None ->
   flag (td_status (Sample.refreshed Sample.allOfLogFail)) StatusFlag.SUCCESS_ZERO
   = false /\
   flag (td_status (Sample.refreshed Sample.allOfLogFail)) StatusFlag.FAILURE_ZERO
   = false) /\
  (declares (def_status (td_def (Sample.refreshed Sample.allOfLogFail))) = false ->
   forall cs,
     td_children (Sample.refreshed Sample.allOfLogFail) = Some cs ->
     td_status (Sample.refreshed Sample.allOfLogFail) = Some (aggregate cs)).
Proof.
  exact (tracking_bits_clear_when_declared Sample.allOfLogFail None
           (Sample.refreshed Sample.allOfLogFail) (or_introl eq_refl)).
Defined.

(** C4, the claim as stated fails: a node whose definition declares no
    status and whose only child can only succeed ends with status 20,
    SUCCESS together with FAILURE_ZERO. *)
Lemma tracking_bit_stored :
  ~ (forall t n,
        In n (nodes (fst (refreshTreeDataId t None))) ->
        flag (td_status n) StatusFlag.SUCCESS_ZERO = false /\
        flag (td_status n) StatusFlag.FAILURE_ZERO = false).
Proof.
  intros H.
  destruct (H Sample.sequenceLog (Sample.refreshed Sample.sequenceLog)
              (or_introl eq_refl)) as [_ Hf].
  discriminate Hf.
Qed.

Example sequence_log_status :
  td_status (Sample.refreshed Sample.sequenceLog) = Some 20%Z.
Proof. reflexivity. Qed.

Local Close Scope Z_scope.

(** ** Validation of a stored tree *)

Section CheckNodeDataProperties.

Context {env : Env}.

Lemma checkNodeData_eq (data : NodeModel) :
  checkNodeData data =
  let conf := getNodeDef (nm_name data) in
  if def_name conf =? def_name unknownNodeDef then
    error (ofModel data) ("undefined node: " ++ nm_name data) ;;;
    ret (false, data)
  else
    let count :=
      match nm_children data with
      | Some cs => Z.of_nat (List.length cs)
      | None => 0%Z
      end in
    hasError0 <-
      (match def_children conf with
       | Some n =>
           if negb (n =? -1)%Z && negb (n =? count)%Z then
             error (ofModel data)
               ("expect " ++ JS.Z_toString n ++ " children, but got "
                ++ JS.Z_toString count) ;;;
             ret true
           else ret false
       | None => ret false
       end) ;;
    r1 <- checkSlots (ofModel data) "intput" (def_input conf)
            (nm_input data) hasError0 ;;
    let '(input', hasError1) := r1 in
    r2 <- checkSlots (ofModel data) "output" (def_output conf)
            (nm_output data) hasError1 ;;
    let '(output', hasError2) := r2 in
    let view :=
      {| l_id := JS.toFixed (nm_id data); l_name := nm_name data;
         l_args := nm_args data; l_input := input' |} in
    r3 <- (match def_args conf with
           | Some declared =>
               r <- checkArgLoop view conf declared 0 [] hasError2 ;;
               ret (Some (fst r), snd r)
           | None => ret (nm_args data, hasError2)
           end) ;;
    let '(args', hasError3) := r3 in
    r4 <- (match nm_children data with
           | Some cs => checkChildren checkNodeData cs hasError3
           | None => ret ([], hasError3)
           end) ;;
    let '(children', hasError4) := r4 in
    ret (negb hasError4,
         mkNodeModel (nm_id data) (nm_name data) (nm_desc data) args'
           input' output' (Some children') (nm_debug data)
           (nm_disabled data) (nm_path data)).
Proof.
  destruct data; reflexivity.
Qed.

Lemma checkNodeData_undefined (data : NodeModel) :
  undefinedNode data = true ->
  checkNodeData data = (Some (false, data), [undefinedNodeLine data]).
Proof.
  unfold undefinedNode. intros H. rewrite checkNodeData_eq. cbv zeta.
  rewrite H. reflexivity.
Qed.

(** The loop over the children collects the lines of every child, in
    order, and a failing child makes the loop end with [hasError]. *)
Lemma checkChildren_Some (cs : list NodeModel) :
  forall hasError rs hasError',
    result (checkChildren checkNodeData cs hasError) = Some (rs, hasError') ->
    output (checkChildren checkNodeData cs hasError)
    = List.concat (map (fun c => output (checkNodeData c)) cs) /\
    (hasError = true -> hasError' = true) /\
    (forall c c', In c cs -> result (checkNodeData c) = Some (false, c') ->
                  hasError' = true).
Proof.
  induction cs as [|c cs IH]; intros hasError rs hasError' H.
  - cbn in H. injection H as <- <-. cbn. repeat split; auto.
  - cbn [checkChildren] in *.
    apply bind_Some in H as [r [Hr [H Hout]]]. rewrite Hout.
    apply bind_Some in H as [[rs' h'] [Hrs [H Hout']]]. rewrite Hout'.
    cbn in H. injection H as <- <-.
    destruct (IH _ _ _ Hrs) as [IHout [IHkeep IHfail]].
    cbn [map List.concat snd]. rewrite IHout. cbn [output ret snd].
    rewrite app_nil_r. unfold output at 1. split; [reflexivity|]. split.
    + intros ->. apply IHkeep. now destruct (fst r).
    + intros x x' [<-|Hin] Hx.
      * apply IHkeep. unfold result in *. rewrite Hr in Hx.
        injection Hx as ->. reflexivity.
      * eapply IHfail; eauto.
Qed.

(** C9 (as the code has it). A node whose name has no definition gets
    the "undefined node" line and fails, and the check stops there
    for that node: it is returned as it was and nothing below it is
    visited.  Its siblings are still checked: when the parent's check
    returns, it has failed, and its lines end with the lines of all
    its children in order, the undefined node's line among them. *)
Theorem undefined_node_fails_siblings_checked (data : NodeModel)
  (cs : list NodeModel) (c : NodeModel) :
  undefinedNode data = false ->
  nm_children data = Some cs ->
  In c cs ->
  undefinedNode c = true ->
  checkNodeData c = (Some (false, c), [undefinedNodeLine c]) /\
  (forall ok data',
      result (checkNodeData data) = Some (ok, data') ->
      ok = false /\
      In (undefinedNodeLine c) (output (checkNodeData data)) /\
      exists own,
        output (checkNodeData data)
        = (own ++ List.concat (map (fun s => output (checkNodeData s)) cs))%list).
Proof.
  intros Hknown Hcs Hin Hc.
  pose proof (checkNodeData_undefined c Hc) as Ec.
  split; [exact Ec|]. intros ok data' H.
  unfold undefinedNode in Hknown.
  pose proof (checkNodeData_eq data) as E. cbv zeta in E.
  rewrite Hknown, Hcs in E. rewrite E in H |- *. clear E.
  apply bind_Some in H as [h0 [_ [H Hout0]]]. rewrite Hout0.
  apply bind_Some in H as [[input' h1] [_ [H Hout1]]]. rewrite Hout1.
  apply bind_Some in H as [[output' h2] [_ [H Hout2]]]. rewrite Hout2.
  apply bind_Some in H as [[args' h3] [_ [H Hout3]]]. rewrite Hout3.
  apply bind_Some in H as [[children' h4] [Hch [H Hout4]]]. rewrite Hout4.
  cbn in H. injection H as <- <-.
  destruct (checkChildren_Some cs _ _ _ Hch) as [Hlines [_ Hfail]].
  assert (h4 = true) as ->.
  { apply (Hfail c c Hin). rewrite Ec. reflexivity. }
  split; [reflexivity|].
  cbn [output ret snd]. rewrite app_nil_r.
  unfold output at 4 5. fold (output (checkChildren checkNodeData cs h3)).
  rewrite Hlines. rewrite !app_assoc. split.
  - apply in_or_app. right. apply in_concat.
    exists (output (checkNodeData c)). split.
    + apply in_map_iff. now exists c.
    + rewrite Ec. now left.
  - eexists. reflexivity.
Qed.

End CheckNodeDataProperties.

Lemma undefined_node_fails_siblings_checked_witness :
  checkNodeData (env := Sample.env) Sample.stray
  = (Some (false, Sample.stray), [undefinedNodeLine Sample.stray]) /\
  (forall ok data',
      result (checkNodeData (env := Sample.env) Sample.sequenceWithStray)
      = Some (ok, data') ->
      ok = false /\
      In (undefinedNodeLine Sample.stray)
        (output (checkNodeData (env := Sample.env) Sample.sequenceWithStray)) /\
      exists own,
        output (checkNodeData (env := Sample.env) Sample.sequenceWithStray)
        = (own ++ List.concat
                    (map (fun s => output (checkNodeData (env := Sample.env) s))
                       [Sample.stray; Sample.node 4 "Log" None]))%list).
Proof.
  exact (undefined_node_fails_siblings_checked (env := Sample.env)
           Sample.sequenceWithStray [Sample.stray; Sample.node 4 "Log" None]
           Sample.stray eq_refl eq_refl (or_introl eq_refl) eq_refl).
Defined.

Example checkNodeData_sequence_with_stray :
  result (checkNodeData (env := Sample.env) Sample.sequenceWithStray)
  = Some (false,
          Sample.node 1 "Sequence"
            (Some [Sample.stray;
                   mkNodeModel (JS.Int 4) "Log" None (Some []) None None
                     (Some []) None None None])) /\
  output (checkNodeData (env := Sample.env) Sample.sequenceWithStray)
  = ["check 2|Foo: undefined node: Foo";
     "check 4|Log: 'str=undefined' is not a string"].
Proof. split; reflexivity. Qed.

(** C9, the claim as stated fails: below a node whose name has no
    definition nothing is checked.  ["Foo"] and its child ["Bar"] are
    both undefined; the check of ["Foo"] writes the line of ["Foo"]
    only. *)
Lemma undefined_node_children_not_visited :
  ~ (forall data cs c,
        undefinedNode (env := Sample.env) data = true ->
        nm_children data = Some cs ->
        In c cs ->
        incl (output (checkNodeData (env := Sample.env) c))
             (output (checkNodeData (env := Sample.env) data))).
Proof.
  intros H.
  specialize (H Sample.stray [Sample.node 3 "Bar" None] (Sample.node 3 "Bar" None)
                eq_refl eq_refl (or_introl eq_refl)
                "check 3|Bar: undefined node: Bar" (or_introl eq_refl)).
  destruct H as [H|[]]. discriminate H.
Qed.

Example checkNodeData_stray :
  checkNodeData (env := Sample.env) Sample.stray
  = (Some (false, Sample.stray), ["check 2|Foo: undefined node: Foo"]) /\
  checkNodeData (env := Sample.env) (Sample.node 3 "Bar" None)
  = (Some (false, Sample.node 3 "Bar" None),
     ["check 3|Bar: undefined node: Bar"]).
Proof. split; reflexivity. Qed.

(** ** Subtree resolution *)

Section CreateTreeDataProperties.

Context {env : Env}.
Variable fs : FileSystem.

Lemma createTreeData_eq (fuel : nat) (node : NodeModel)
  (parent : option string) (st : State) :
  createTreeData fs fuel node parent st =
  let treeData := initialTreeData node parent in
  let st := if noParent parent then resetStack st else st in
  match nm_children node with
  | Some cs =>
      match buildChildren (createTreeData fs fuel) (td_id treeData) cs st with
      | Some (cs', st') => Some (set_children (Some cs') treeData, st')
      | None => None
      end
  | None =>
      match nm_path node with
      | Some path =>
          if negb (path =? "") then
            if onStack path st then
              Some (set_path (Some path) treeData,
                    message_error (circularMessage path) st)
            else
              let st := push path st in
              match readTree fs path with
              | Some file =>
                  match fuel with
                  | O => None
                  | S fuel' =>
                      match createTreeData fs fuel' (file_root file)
                              (Some (td_id treeData)) st with
                      | Some (sub, st') =>
                          Some
                            (set_id (JS.toFixed (nm_id node))
                               (set_parent parent
                                  (set_disabled (nm_disabled node)
                                     (set_debug (nm_debug node)
                                        (set_path (Some path)
                                           (set_lastModified
                                              (Some (file_mtimeMs file))
                                              sub))))),
                             pop st')
                      | None => None
                      end
                  end
              | None =>
                  Some (treeData,
                        pop (message_error (parseFailedMessage path) st))
              end
          else Some (treeData, st)
      | None => Some (treeData, st)
      end
  end.
Proof.
  destruct fuel; destruct node; reflexivity.
Qed.

Lemma readTree_In (path : string) (file : File) :
  readTree fs path = Some file -> In path (map fst fs).
Proof.
  induction fs as [|[p f] l IH]; simpl; [discriminate|].
  destruct (String.eqb_spec p path) as [->|Hne]; [now left|].
  intros H. right. now apply IH.
Qed.

Lemma pending_le (stack : list string) : pending fs stack <= List.length fs.
Proof.
  unfold pending. rewrite <- (length_map fst fs). apply filter_length_le.
Qed.

Lemma filter_push_le (stack keys : list string) (path : string) :
  List.length
    (filter (fun p => negb (existsb (String.eqb p) (stack ++ [path]))) keys)
  <= List.length
       (filter (fun p => negb (existsb (String.eqb p) stack)) keys).
Proof.
  induction keys as [|k keys IH]; simpl; [lia|].
  rewrite existsb_app. cbn [existsb]. rewrite orb_false_r.
  destruct (existsb (String.eqb k) stack); simpl; [exact IH|].
  destruct (k =? path); simpl; lia.
Qed.

Lemma filter_push_lt (stack keys : list string) (path : string) :
  In path keys -> existsb (String.eqb path) stack = false ->
  List.length
    (filter (fun p => negb (existsb (String.eqb p) (stack ++ [path]))) keys)
  < List.length
      (filter (fun p => negb (existsb (String.eqb p) stack)) keys).
Proof.
  intros Hin Hoff. induction keys as [|k keys IH]; [contradiction|].
  simpl. rewrite existsb_app. cbn [existsb]. rewrite orb_false_r.
  destruct Hin as [->|Hin].
  - rewrite Hoff, String.eqb_refl. simpl.
    pose proof (filter_push_le stack keys path). lia.
  - specialize (IH Hin).
    destruct (existsb (String.eqb k) stack); simpl; [exact IH|].
    destruct (k =? path); simpl; lia.
Qed.

Lemma pending_push (st : State) (path : string) (file : File) :
  readTree fs path = Some file -> onStack path st = false ->
  pending fs (parsingStack (push path st)) < pending fs (parsingStack st).
Proof.
  intros Hread Hoff. unfold pending. cbn [push parsingStack].
  apply filter_push_lt; [now apply (readTree_In path file) | exact Hoff].
Qed.

(** The loop over the children returns when each child does, and
    leaves the stack as it found it. *)
Lemma buildChildren_total (fuel : nat) (parent : string) (cs : list NodeModel) :
  parent <> "" ->
  Forall
    (fun c => forall parent st,
         noParent parent = false ->
         pending fs (parsingStack st) < fuel ->
         exists td st',
           createTreeData fs fuel c parent st = Some (td, st') /\
           parsingStack st' = parsingStack st) cs ->
  forall st,
    pending fs (parsingStack st) < fuel ->
    exists cs' st',
      buildChildren (createTreeData fs fuel) parent cs st = Some (cs', st') /\
      parsingStack st' = parsingStack st.
Proof.
  intros Hparent. induction 1 as [|c cs Hc _ IH]; intros st Hst.
  - exists [], st. split; reflexivity.
  - cbn [buildChildren].
    destruct (Hc (Some parent) st) as [td [st1 [E1 S1]]].
    { unfold noParent, JS.truthy_string.
      apply String.eqb_neq in Hparent. now rewrite Hparent. }
    { exact Hst. }
    rewrite E1. destruct (IH st1) as [cs' [st2 [E2 S2]]].
    { now rewrite S1. }
    rewrite E2. exists (td :: cs'), st2. split; [reflexivity|].
    now rewrite S2.
Qed.

(** [createTreeData] returns whenever the fuel exceeds the number of
    subtree files that are not being parsed, and it leaves the stack
    as it was on entry (emptied first by a call without parent). *)
Lemma createTreeData_total (fuel : nat) :
  forall node parent st,
    pending fs (parsingStack (if noParent parent then resetStack st else st))
    < fuel ->
    exists td st',
      createTreeData fs fuel node parent st = Some (td, st') /\
      parsingStack st'
      = parsingStack (if noParent parent then resetStack st else st).
Proof.
  induction fuel as [|fuel IHfuel]; [intros node parent st H; lia|].
  induction node as [node IH] using NodeModel_induction.
  intros parent st Hfuel. rewrite createTreeData_eq. cbv zeta.
  set (st0 := if noParent parent then resetStack st else st) in *.
  destruct (nm_children node) as [cs|] eqn:Hcs.
  - destruct (buildChildren_total (S fuel)
                (td_id (initialTreeData node parent)) cs) with (st := st0)
      as [cs' [st' [E S']]].
    + apply toFixed_nonempty.
    + specialize (IH cs eq_refl). eapply Forall_impl; [|exact IH].
      intros c Hc parent' st1 Hp Hlt.
      destruct (Hc parent' st1) as [td [st2 [E2 S2]]].
      { now rewrite Hp. }
      exists td, st2. split; [exact E2|]. now rewrite S2, Hp.
    + exact Hfuel.
    + rewrite E. eauto.
  - destruct (nm_path node) as [path|]; [|eauto].
    destruct (path =? "") eqn:Hempty; cbn [negb]; [eauto|].
    destruct (onStack path st0) eqn:Hon; [eauto|].
    destruct (readTree fs path) as [file|] eqn:Hread.
    + pose proof (pending_push st0 path file Hread Hon) as Hlt.
      destruct (IHfuel (file_root file)
                  (Some (td_id (initialTreeData node parent)))
                  (push path st0)) as [sub [st' [E S']]].
      { assert (Hp : noParent (Some (td_id (initialTreeData node parent)))
                     = false).
        { unfold noParent, JS.truthy_string. cbn [initialTreeData td_id].
          pose proof (toFixed_nonempty (nm_id node)) as Hne.
          apply String.eqb_neq in Hne. now rewrite Hne. }
        rewrite Hp. lia. }
      rewrite E. eexists. eexists. split; [reflexivity|].
      cbn [pop parsingStack]. rewrite S'.
      assert (Hp : noParent (Some (td_id (initialTreeData node parent)))
                   = false).
      { unfold noParent, JS.truthy_string. cbn [initialTreeData td_id].
        pose proof (toFixed_nonempty (nm_id node)) as Hne.
        apply String.eqb_neq in Hne. now rewrite Hne. }
      rewrite Hp. cbn [push parsingStack]. apply removelast_last.
    + eexists. eexists. split; [reflexivity|].
      cbn [pop message_error push parsingStack]. apply removelast_last.
Qed.

End CreateTreeDataProperties.

(** C8. [createTreeData] returns on every stored tree over every finite
    set of subtree files, cyclic or not: fuel above the number of files
    is enough.  A reference whose path is on the stack of paths being
    parsed is not followed: the node is returned with its path and
    without children or modification time, exactly one circular
    reference message is added, and the stack is left as it is.  For
    two files that refer to each other, the build of the first returns
    with exactly one such message, for the reference met while its
    path is being parsed, which stays unresolved. *)
Theorem createTreeData_cycle_safe {env : Env} :
  (forall fs node parent st,
      exists td st',
        createTreeData fs (S (List.length fs)) node parent st = Some (td, st') /\
        parsingStack st'
        = parsingStack (if noParent parent then resetStack st else st)) /\
  (forall fs fuel node parent st path,
      nm_children node = None -> nm_path node = Some path -> path <> "" ->
      noParent parent = false -> onStack path st = true ->
      createTreeData fs fuel node parent st
      = Some (set_path (Some path) (initialTreeData node parent),
              message_error (circularMessage path) st)) /\
  (forall a b st,
      a <> "" -> b <> "" -> a <> b ->
      exists tree st',
        createTreeData (Sample.cycleFiles a b)
          (S (List.length (Sample.cycleFiles a b))) (Sample.cycleRoot b) None st
        = Some (tree, st') /\
        messages st' = (messages st ++ [circularMessage b])%list /\
        parsingStack st' = [] /\
        map summary (nodes tree)
        = [("1", None, None, true); ("2", Some b, Some 200%Z, true);
           ("2", Some a, Some 100%Z, true); ("2", Some b, None, false)]).
Proof.
  split; [|split].
  - intros fs node parent st. apply createTreeData_total.
    pose proof (pending_le fs
      (parsingStack (if noParent parent then resetStack st else st))). lia.
  - intros fs fuel node parent st path Hcs Hpath Hne Hparent Hon.
    rewrite createTreeData_eq. cbv zeta.
    rewrite Hcs, Hpath, Hparent, Hon.
    apply String.eqb_neq in Hne. now rewrite Hne.
  - intros a b st Ha Hb Hab.
    assert (Hba : b <> a) by congruence.
    apply String.eqb_neq in Ha, Hb, Hab, Hba.
    eexists. eexists. split.
    + unfold Sample.cycleFiles, Sample.cycleRoot.
      cbn. rewrite ?Ha, ?Hb, ?Hab, ?Hba, ?String.eqb_refl.
      cbn. rewrite ?Ha, ?Hb, ?Hab, ?Hba, ?String.eqb_refl.
      cbn. rewrite ?Ha, ?Hb, ?Hab, ?Hba, ?String.eqb_refl.
      cbn. rewrite ?Ha, ?Hb, ?Hab, ?Hba, ?String.eqb_refl.
      cbn. reflexivity.
    + cbn. repeat split; reflexivity.
Qed.

Lemma createTreeData_cycle_safe_witness :
  exists tree st',
    createTreeData (env := Sample.env) (Sample.cycleFiles "a.json" "b.json")
      (S (List.length (Sample.cycleFiles "a.json" "b.json")))
      (Sample.cycleRoot "b.json") None Sample.emptyState
    = Some (tree, st') /\
    messages st' = (messages Sample.emptyState ++ [circularMessage "b.json"])%list /\
    parsingStack st' = [] /\
    map summary (nodes tree)
    = [("1", None, None, true); ("2", Some "b.json", Some 200%Z, true);
       ("2", Some "a.json", Some 100%Z, true); ("2", Some "b.json", None, false)].
Proof.
  apply (proj2 (proj2 (createTreeData_cycle_safe (env := Sample.env)))
           "a.json" "b.json" Sample.emptyState); discriminate.
Defined.

Example createTreeData_self_reference :
  option_map (fun r => (map summary (nodes (fst r)), messages (snd r)))
    (createTreeData (env := Sample.env)
       [("a.json", {| file_root := Sample.cycleRoot "a.json";
                      file_mtimeMs := 100 |})]
       2 (Sample.cycleRoot "a.json") None Sample.emptyState)
  = Some ([("1", None, None, true); ("2", Some "a.json", Some 100%Z, true);
           ("2", Some "a.json", None, false)],
          [circularMessage "a.json"]).
Proof. reflexivity. Qed.

Example createTreeData_missing_file :
  option_map (fun r => (map summary (nodes (fst r)), messages (snd r)))
    (createTreeData (env := Sample.env) [] 0 (Sample.cycleRoot "gone.json")
       None Sample.emptyState)
  = Some ([("1", None, None, true); ("2", None, None, false)],
          [parseFailedMessage "gone.json"]).
Proof. reflexivity. Qed.

(** ** Round trip through the graph *)

Lemma or_undefined_string_idem (x : option string) :
  JS.or_undefined_string (JS.or_undefined_string x) = JS.or_undefined_string x.
Proof.
  destruct x as [s|]; [|reflexivity]. simpl.
  destruct (s =? "") eqn:E; simpl; [reflexivity|]. now rewrite E.
Qed.

Lemma or_undefined_bool_idem (x : option bool) :
  JS.or_undefined_bool (JS.or_undefined_bool x) = JS.or_undefined_bool x.
Proof.
  now destruct x as [[|]|].
Qed.

Lemma or_undefined_string_falsy (x : option string) :
  JS.truthy_string x = false -> JS.or_undefined_string x = None.
Proof.
  destruct x as [s|]; [|reflexivity]. simpl.
  now destruct (s =? "").
Qed.

Section RoundTrip.

Context {env : Env}.
Variable fs : FileSystem.

Lemma buildChildren_pathFree (fuel : nat) (parent : string)
  (cs : list NodeModel) :
  Forall
    (fun c => forall parent st,
         pathFree c = true ->
         exists td st',
           createTreeData fs fuel c parent st = Some (td, st') /\
           forall includeSubtree,
             elide (createFileData td includeSubtree)
             = elide (dropUndeclared c)) cs ->
  forallb pathFree cs = true ->
  forall st,
    exists cs' st',
      buildChildren (createTreeData fs fuel) parent cs st = Some (cs', st') /\
      forall includeSubtree,
        map (fun td => elide (createFileData td includeSubtree)) cs'
        = map (fun c => elide (dropUndeclared c)) cs.
Proof.
  induction 1 as [|c cs Hc _ IH]; intros Hfree st.
  - exists [], st. split; reflexivity.
  - cbn [forallb] in Hfree. apply andb_true_iff in Hfree as [Hfc Hfcs].
    cbn [buildChildren].
    destruct (Hc (Some parent) st Hfc) as [td [st1 [E1 R1]]]. rewrite E1.
    destruct (IH Hfcs st1) as [cs' [st2 [E2 R2]]]. rewrite E2.
    exists (td :: cs'), st2. split; [reflexivity|].
    intros includeSubtree. cbn [map]. now rewrite R1, R2.
Qed.

Lemma elide_round_trip (i : JS.number) (nm : string) (d : option string)
  (a : option Args) (inp out : option (list string))
  (ch : option (list NodeModel)) (dbg dis : option bool) (p : option string)
  (parent : option string) (children : option (list TreeGraphData))
  (includeSubtree : bool) :
  JS.truthy_string p = false ->
  match ch, children with
  | Some cs, Some cs' =>
      map (fun td => elide (createFileData td includeSubtree)) cs'
      = map (fun c => elide (dropUndeclared c)) cs
  | None, None => True
  | _, _ => False
  end ->
  elide
    (createFileData
       (set_children children
          (initialTreeData (mkNodeModel i nm d a inp out ch dbg dis p) parent))
       includeSubtree)
  = elide (dropUndeclared (mkNodeModel i nm d a inp out ch dbg dis p)).
Proof.
  intros Hpath R.
  destruct ch as [[|c cs]|], children as [[|c' cs']|];
    try contradiction; try discriminate R;
    cbn -[JS.Number JS.toFixed];
    rewrite Number_toFixed, or_undefined_string_idem,
      !or_undefined_bool_idem, (or_undefined_string_falsy p Hpath);
    try reflexivity.
  rewrite orb_true_r. cbn [map] in R. injection R as R1 R2.
  rewrite !map_map, R1, R2. reflexivity.
Qed.

(** C1 (as the code has it). A stored tree without subtree
    references, turned into the graph by [createTreeData] and back by
    [createFileData], comes back up to the elision of empty optional
    fields once the arguments, inputs and outputs of the nodes whose
    definition declares none are left out: [createFileData] drops
    those.  The conversion needs no fuel and holds with or without
    the subtree export. *)
Theorem createFileData_createTreeData (fuel : nat) (m : NodeModel) :
  forall parent st,
    pathFree m = true ->
    exists td st',
      createTreeData fs fuel m parent st = Some (td, st') /\
      forall includeSubtree,
        elide (createFileData td includeSubtree) = elide (dropUndeclared m).
Proof.
  induction m as [m IH] using NodeModel_induction.
  intros parent st Hfree. rewrite createTreeData_eq. cbv zeta.
  assert (Hpath : JS.truthy_string (nm_path m) = false).
  { destruct m; cbn in Hfree. apply andb_true_iff in Hfree as [H _].
    now apply negb_true_iff in H. }
  destruct (nm_children m) as [cs|] eqn:Hcs.
  - assert (Hfcs : forallb pathFree cs = true).
    { destruct m; cbn in Hfree, Hcs. subst.
      now apply andb_true_iff in Hfree as [_ H]. }
    destruct (buildChildren_pathFree fuel
                (td_id (initialTreeData m parent)) cs (IH cs eq_refl) Hfcs
                (if noParent parent then resetStack st else st))
      as [cs' [st' [E R]]].
    rewrite E. eexists. eexists. split; [reflexivity|].
    intros includeSubtree. specialize (R includeSubtree).
    destruct m as [i nm d a inp out ch dbg dis p].
    cbn [nm_children nm_path] in *. subst ch.
    now apply elide_round_trip.
  - assert (Hret : forall s : State,
        exists td st',
          Some (initialTreeData m parent, s) = Some (td, st') /\
          forall includeSubtree,
            elide (createFileData td includeSubtree)
            = elide (dropUndeclared m)).
    { intros s. eexists. eexists. split; [reflexivity|].
      intros includeSubtree.
      destruct m as [i nm d a inp out ch dbg dis p].
      cbn [nm_children nm_path] in *. subst ch.
      exact (elide_round_trip i nm d a inp out None dbg dis p parent None
               includeSubtree Hpath I). }
    unfold JS.truthy_string in Hpath.
    destruct (nm_path m) as [path|]; [|apply Hret].
    apply negb_false_iff in Hpath. rewrite Hpath. apply Hret.
Qed.

End RoundTrip.

Lemma createFileData_createTreeData_witness :
  exists td st',
    createTreeData (env := Sample.env) [] 0 Sample.exampleRoot None
      Sample.emptyState = Some (td, st') /\
    forall includeSubtree,
      elide (createFileData (env := Sample.env) td includeSubtree)
      = elide (dropUndeclared (env := Sample.env) Sample.exampleRoot).
Proof.
  exact (createFileData_createTreeData (env := Sample.env) [] 0
           Sample.exampleRoot None Sample.emptyState eq_refl).
Defined.

Example example_tree_round_trip :
  option_map (fun r => createFileData (env := Sample.env) (fst r) false)
    (createTreeData (env := Sample.env) [] 0 Sample.exampleRoot None
       Sample.emptyState)
  = Some Sample.exampleRoot.
Proof. reflexivity. Qed.

(** C1, the claim as stated fails: a node may carry inputs that its
    definition does not declare, a non-empty field, and the round trip
    through the graph drops them. *)
Lemma round_trip_drops_undeclared_input :
  ~ (forall m td st',
        resolvable (env := Sample.env) m = true ->
        pathFree m = true ->
        createTreeData (env := Sample.env) [] 0 m None Sample.emptyState
        = Some (td, st') ->
        elide (createFileData (env := Sample.env) td false) = elide m).
Proof.
  intros H.
  specialize (H Sample.logWithInput _ _ eq_refl eq_refl eq_refl).
  discriminate H.
Qed.

Example log_with_input_loses_input :
  option_map (fun r => nm_input (createFileData (env := Sample.env) (fst r) false))
    (createTreeData (env := Sample.env) [] 0 Sample.logWithInput None
       Sample.emptyState)
  = Some None /\
  nm_input (elide Sample.logWithInput) = Some ["target"].
Proof. split; reflexivity. Qed.

(* ================================================================== *)
(** * Further properties *)
(* ================================================================== *)

(** ** Text helpers *)

Lemma withoutLineFeeds_app (a b : string) :
  withoutLineFeeds (a ++ b) = withoutLineFeeds a ++ withoutLineFeeds b.
Proof.
  induction a as [|c a IH]; [reflexivity|]. simpl.
  destruct (Ascii.eqb c (ascii_of_nat 10)); simpl; now rewrite IH.
Qed.

Lemma lineFeeds_app (a b : string) :
  lineFeeds (a ++ b) = (lineFeeds a + lineFeeds b)%nat.
Proof.
  induction a as [|c a IH]; [reflexivity|]. simpl.
  destruct (Ascii.eqb c (ascii_of_nat 10)); simpl; now rewrite IH.
Qed.

Lemma append_empty_r (s : string) : s ++ "" = s.
Proof.
  induction s as [|c s IH]; [reflexivity|]. simpl. now rewrite IH.
Qed.

Lemma append_assoc_string (a b c : string) : (a ++ b) ++ c = a ++ (b ++ c).
Proof.
  induction a as [|x a IH]; [reflexivity|]. simpl. now rewrite IH.
Qed.

Lemma substring_all (s : string) : substring 0 (String.length s) s = s.
Proof.
  induction s as [|c s IH]; [reflexivity|]. simpl. now rewrite IH.
Qed.

Lemma substring_prefix (n : nat) (a b : string) :
  (n <= String.length a)%nat -> substring 0 n (a ++ b) = substring 0 n a.
Proof.
  revert n. induction a as [|c a IH]; intros n Hn.
  - simpl in Hn. assert (n = O) by lia. subst. now destruct b.
  - destruct n as [|n]; [reflexivity|]. simpl. f_equal. apply IH.
    simpl in Hn. lia.
Qed.

Lemma length_append (a b : string) :
  String.length (a ++ b) = (String.length a + String.length b)%nat.
Proof.
  induction a as [|c a IH]; [reflexivity|]. simpl. now rewrite IH.
Qed.

Section TextHelperProperties.

Context {metrics : Metrics}.

Lemma breakWordLoop_fits (maxWidth : num) (fontSize : option string)
  (rest : string) :
  eachFits maxWidth fontSize rest = true ->
  forall fuel width chars line,
    (2 * String.length rest <= fuel)%nat ->
    exists out lines,
      breakWordLoop fuel maxWidth fontSize rest width chars line
      = Some (out, lines) /\
      withoutLineFeeds out = withoutLineFeeds chars ++ withoutLineFeeds rest /\
      (lineFeeds out + line = lines + lineFeeds chars + lineFeeds rest)%nat.
Proof.
  induction rest as [|c rest IH]; intros Hfit fuel width chars line Hfuel.
  - exists chars, line. cbn. rewrite append_empty_r.
    split; [now destruct fuel|]. split; [reflexivity | lia].
  - cbn [eachFits] in Hfit. apply andb_true_iff in Hfit as [Hc Hrest].
    cbn [String.length] in Hfuel.
    destruct fuel as [|[|fuel]]; try lia.
    assert (Hpush : forall w chars' line',
      isPositive (minus w (calcTextWith c fontSize)) = true ->
      forall fuel', (2 * String.length rest <= fuel')%nat ->
      exists out lines,
        breakWordLoop (S fuel') maxWidth fontSize (String c rest) w chars' line'
        = Some (out, lines) /\
        withoutLineFeeds out
        = withoutLineFeeds chars' ++ withoutLineFeeds (String c rest) /\
        (lineFeeds out + line'
         = lines + lineFeeds chars' + lineFeeds (String c rest))%nat).
    { intros w chars' line' Hw fuel' Hfuel'. cbn [breakWordLoop]. rewrite Hw.
      destruct (IH Hrest fuel' (minus w (calcTextWith c fontSize))
                  (chars' ++ String c "") line' Hfuel')
        as [out [lines [E [Hout Hlines]]]].
      exists out, lines. split; [exact E|].
      rewrite withoutLineFeeds_app in Hout. rewrite lineFeeds_app in Hlines.
      cbn [withoutLineFeeds lineFeeds] in *.
      destruct (Ascii.eqb c (ascii_of_nat 10)); cbn in *.
      - rewrite append_empty_r in Hout. split; [exact Hout | lia].
      - rewrite append_assoc_string in Hout. split; [exact Hout | lia]. }
    destruct (isPositive (minus width (calcTextWith c fontSize))) eqn:Hw.
    + apply Hpush; [exact Hw | lia].
    + cbn [breakWordLoop]. rewrite Hw.
      destruct (Hpush maxWidth (chars ++ lineFeed) (S line) Hc fuel
                  ltac:(lia)) as [out [lines [E [Hout Hlines]]]].
      exists out, lines. split; [exact E|].
      rewrite withoutLineFeeds_app in Hout. rewrite lineFeeds_app in Hlines.
      cbn in Hout, Hlines. rewrite append_empty_r in Hout.
      cbn. destruct (Ascii.eqb c "010"%char); split; solve [exact Hout | lia].
Qed.

(** X1. When every character of the text is narrower than [maxWidth],
    [toBreakWord] returns (two passes of its loop per character are
    enough): the returned text is the given text with line feeds added
    and nothing else changed, and the returned line count is one for a
    non-empty text plus the number of line feeds added. *)
Theorem toBreakWord_keeps_text (str : string) (maxWidth : num)
  (fontSize : option string) (fuel : nat) :
  eachFits maxWidth fontSize str = true ->
  (2 * String.length str <= fuel)%nat ->
  exists out lines,
    toBreakWord fuel str maxWidth fontSize = Some (out, lines) /\
    withoutLineFeeds out = withoutLineFeeds str /\
    (lineFeeds out + (if (0 <? String.length str)%nat then 1 else 0)
     = lines + lineFeeds str)%nat.
Proof.
  intros Hfit Hfuel. unfold toBreakWord.
  destruct (breakWordLoop_fits maxWidth fontSize str Hfit fuel maxWidth ""
              (if (0 <? String.length str)%nat then 1 else 0)%nat Hfuel)
    as [out [lines [E [Hout Hlines]]]].
  exists out, lines. split; [exact E|].
  cbn [withoutLineFeeds lineFeeds append] in Hout, Hlines.
  split; [exact Hout | lia].
Qed.

(** X2. When the first character of the text is not narrower than
    [maxWidth], [toBreakWord] never returns: the loop starts a new
    line, tries the same character against the full width again, and
    so on. *)
Theorem toBreakWord_wide_character_loops (c : ascii) (rest : string)
  (maxWidth : num) (fontSize : option string) (fuel : nat) :
  isPositive (minus maxWidth (calcTextWith c fontSize)) = false ->
  toBreakWord fuel (String c rest) maxWidth fontSize = None.
Proof.
  intros Hwide. unfold toBreakWord.
  generalize (if (0 <? String.length (String c rest))%nat then 1 else 0)%nat.
  generalize "". induction fuel as [|fuel IH]; intros chars line.
  - reflexivity.
  - cbn [breakWordLoop]. rewrite Hwide. apply IH.
Qed.

Lemma cutWordLoop_inside (fontSize : option string) (s : string) :
  forall i width,
    staysInside fontSize s width = true ->
    cutWordLoop fontSize s i width = (i + Z.of_nat (String.length s))%Z.
Proof.
  induction s as [|c s IH]; intros i width H.
  - cbn. lia.
  - cbn [staysInside] in H. apply andb_true_iff in H as [Hc Hs].
    apply negb_true_iff in Hc. cbn [cutWordLoop]. rewrite Hc.
    rewrite IH by exact Hs. cbn [String.length]. lia.
Qed.

Lemma cutWordLoop_overflow (fontSize : option string) (pre : string)
  (c : ascii) (post : string) :
  forall i width,
    staysInside fontSize pre width = true ->
    isNegative (minus (widthAfter fontSize pre width) (calcTextWith c fontSize))
    = true ->
    cutWordLoop fontSize (pre ++ String c post) i width
    = (i + Z.of_nat (String.length pre) - 1)%Z.
Proof.
  induction pre as [|d pre IH]; intros i width H Hneg.
  - cbn in *. rewrite Hneg. lia.
  - cbn [staysInside] in H. apply andb_true_iff in H as [Hd Hs].
    apply negb_true_iff in Hd. cbn [append cutWordLoop]. rewrite Hd.
    rewrite IH by assumption. cbn [String.length]. lia.
Qed.

(** X3. A text that keeps the width non-negative to its end comes back
    from [cutWordTo] unchanged. *)
Theorem cutWordTo_inside (str : string) (maxWidth : num)
  (fontSize : option string) :
  staysInside fontSize str maxWidth = true ->
  cutWordTo str maxWidth fontSize = str.
Proof.
  intros H. unfold cutWordTo. cbv zeta.
  rewrite cutWordLoop_inside by exact H. unfold slice0. cbv zeta.
  replace (0 + Z.of_nat (String.length str) <? 0)%Z with false by (symmetry; apply Z.ltb_ge; lia).
  rewrite Z.min_id, Nat2Z.id, substring_all.
  replace (0 + Z.of_nat (String.length str)
           <? Z.of_nat (String.length str) - 1)%Z with false by (symmetry; apply Z.ltb_ge; lia).
  apply append_empty_r.
Qed.

(** X4. When the character after [pre] is the first to make the width
    negative, [cutWordTo] returns [pre] without its last character,
    followed by three dots.  When [pre] is empty, that is when the
    first character already overflows, the end index of the slice is
    -1 and the result is the whole text without its last character,
    followed by three dots. *)
Theorem cutWordTo_overflow (pre : string) (c : ascii) (post : string)
  (maxWidth : num) (fontSize : option string) :
  staysInside fontSize pre maxWidth = true ->
  isNegative (minus (widthAfter fontSize pre maxWidth) (calcTextWith c fontSize))
  = true ->
  cutWordTo (pre ++ String c post) maxWidth fontSize
  = dropLast (if (String.length pre =? 0)%nat then pre ++ String c post else pre)
    ++ "...".
Proof.
  intros H Hneg. unfold cutWordTo. cbv zeta.
  rewrite cutWordLoop_overflow by assumption.
  rewrite length_append. cbn [String.length].
  replace (0 + Z.of_nat (String.length pre) - 1
           <? Z.of_nat (String.length pre + S (String.length post)) - 1)%Z
    with true by (symmetry; apply Z.ltb_lt; lia).
  f_equal. unfold slice0, dropLast. cbv zeta. rewrite length_append.
  cbn [String.length].
  destruct (String.length pre =? 0)%nat eqn:Hlen.
  - apply Nat.eqb_eq in Hlen. rewrite Hlen.
    replace (0 + Z.of_nat 0 - 1 <? 0)%Z with true by (symmetry; apply Z.ltb_lt; lia).
    rewrite length_append. cbn [String.length]. rewrite Hlen. f_equal. lia.
  - apply Nat.eqb_neq in Hlen.
    replace (0 + Z.of_nat (String.length pre) - 1 <? 0)%Z with false by (symmetry; apply Z.ltb_ge; lia).
    rewrite Z.min_l by lia.
    replace (Z.to_nat (0 + Z.of_nat (String.length pre) - 1))
      with (String.length pre - 1)%nat by lia.
    apply substring_prefix. lia.
Qed.

End TextHelperProperties.

Lemma toBreakWord_keeps_text_witness :
  exists out lines,
    toBreakWord (metrics := Sample.fixedWidth) 8 "args" 40%Z None
    = Some (out, lines) /\
    withoutLineFeeds out = withoutLineFeeds "args" /\
    (lineFeeds out + (if (0 <? String.length "args")%nat then 1 else 0)
     = lines + lineFeeds "args")%nat.
Proof.
  apply (toBreakWord_keeps_text (metrics := Sample.fixedWidth) "args" 40%Z
           None 8); [reflexivity | simpl; lia].
Defined.

Lemma toBreakWord_wide_character_loops_witness :
  toBreakWord (metrics := Sample.fixedWidth) 1000 "args" 13%Z None = None.
Proof.
  apply (toBreakWord_wide_character_loops (metrics := Sample.fixedWidth)
           "a"%char "rgs" 13%Z None 1000).
  reflexivity.
Defined.

Lemma cutWordTo_inside_witness :
  cutWordTo (metrics := Sample.fixedWidth) "args" 52%Z None = "args".
Proof.
  apply (cutWordTo_inside (metrics := Sample.fixedWidth) "args" 52%Z None).
  reflexivity.
Defined.

Lemma cutWordTo_overflow_witness :
  cutWordTo (metrics := Sample.fixedWidth) ("" ++ String "a"%char "rgs") 12%Z None
  = dropLast (if (String.length "" =? 0)%nat then "" ++ String "a"%char "rgs"
              else "") ++ "...".
Proof.
  apply (cutWordTo_overflow (metrics := Sample.fixedWidth) "" "a"%char "rgs"
           12%Z None); reflexivity.
Defined.

Example toBreakWord_sample :
  toBreakWord (metrics := Sample.fixedWidth) 8 "args" 40%Z None
  = Some ("arg" ++ lineFeed ++ "s", 2%nat).
Proof. reflexivity. Qed.

Example cutWordTo_samples :
  cutWordTo (metrics := Sample.fixedWidth) "args" 12%Z None = "arg..." /\
  cutWordTo (metrics := Sample.fixedWidth) "args" 13%Z None = "..." /\
  cutWordTo (metrics := Sample.fixedWidth) "args" 30%Z None = "a...".
Proof. repeat split; reflexivity. Qed.

(** ** More on ids and status *)

Local Open Scope Z_scope.

Lemma toStatusFlag_fold_bit (l : list string) (k : Z) (name : string) :
  (k = StatusFlag.SUCCESS /\ name = "success"%string) \/
  (k = StatusFlag.FAILURE /\ name = "failure"%string) \/
  (k = StatusFlag.RUNNING /\ name = "running"%string) ->
  forall s,
    Z.testbit
      (fold_left
         (fun status s =>
            if (s =? "success")%string then
              Z.lor status (Z.shiftl 1 StatusFlag.SUCCESS)
            else if (s =? "failure")%string then
              Z.lor status (Z.shiftl 1 StatusFlag.FAILURE)
            else if (s =? "running")%string then
              Z.lor status (Z.shiftl 1 StatusFlag.RUNNING)
            else status) l s) k
    = Z.testbit s k || existsb (String.eqb name) l.
Proof.
  intros Hk. induction l as [|d l IH]; intros s.
  - cbn. now rewrite orb_false_r.
  - cbn [fold_left existsb]. rewrite IH. flag_names.
    destruct Hk as [[-> ->]|[[-> ->]|[-> ->]]];
      destruct (String.eqb_spec d "success") as [->|H1];
      try (rewrite Z.lor_spec; cbn; now rewrite ?orb_true_r, ?orb_false_r);
      destruct (String.eqb_spec d "failure") as [->|H2];
      try (rewrite Z.lor_spec; cbn; now rewrite ?orb_true_r, ?orb_false_r);
      destruct (String.eqb_spec d "running") as [->|H3];
      try (rewrite Z.lor_spec; cbn; now rewrite ?orb_true_r, ?orb_false_r);
      (destruct (String.eqb_spec "success" d) as [E|_]; [now subst|]);
      (destruct (String.eqb_spec "failure" d) as [E|_]; [now subst|]);
      (destruct (String.eqb_spec "running" d) as [E|_]; [now subst|]);
      reflexivity.
Qed.

(** X5. [toStatusFlag] sets the SUCCESS, FAILURE and RUNNING bits
    exactly for the plain outcomes ["success"], ["failure"] and
    ["running"] that the definition lists, whatever their order and
    number and whatever else is listed; a definition without a status
    list gives 0. *)
Theorem toStatusFlag_bits (data : TreeGraphData) :
  Z.testbit (toStatusFlag data) StatusFlag.SUCCESS
  = declaresDirective "success" data /\
  Z.testbit (toStatusFlag data) StatusFlag.FAILURE
  = declaresDirective "failure" data /\
  Z.testbit (toStatusFlag data) StatusFlag.RUNNING
  = declaresDirective "running" data /\
  (def_status (td_def data) = None -> toStatusFlag data = 0).
Proof.
  unfold toStatusFlag, declaresDirective.
  destruct (def_status (td_def data)) as [l|].
  - rewrite !(toStatusFlag_fold_bit l _ _) by (flag_names; intuition eauto).
    rewrite !Z.testbit_0_l. cbn [orb]. repeat split. discriminate.
  - rewrite !Z.testbit_0_l. repeat split.
Qed.

Lemma existsb_pointwise {A : Type} (f g : A -> bool) (l : list A) :
  (forall x, f x = g x) -> existsb f l = existsb g l.
Proof.
  intros H. induction l as [|x l IH]; [reflexivity|]. cbn. now rewrite H, IH.
Qed.

Lemma aggregate_fold_low (cs : list TreeGraphData) (acc k : Z) :
  k = 0 \/ k = 1 \/ k = 2 ->
  Z.testbit
    (fold_left
       (fun childStatus child =>
          if counted child then appendStatusFlag childStatus (statusOf child)
          else childStatus) cs acc) k
  = Z.testbit acc k
    || existsb (fun c => counted c && Z.testbit (statusOf c) k) cs.
Proof.
  intros Hk. revert acc. induction cs as [|c cs IH]; intros acc.
  - cbn. now rewrite orb_false_r.
  - cbn [fold_left existsb]. rewrite IH. destruct (counted c); cbn [andb orb].
    + rewrite appendStatusFlag_low by exact Hk. now rewrite orb_assoc.
    + reflexivity.
Qed.

Lemma aggregate_fold_zero_bits (cs : list TreeGraphData) (acc : Z) :
  Z.testbit
    (fold_left
       (fun childStatus child =>
          if counted child then appendStatusFlag childStatus (statusOf child)
          else childStatus) cs acc) StatusFlag.SUCCESS_ZERO
  = Z.testbit acc StatusFlag.SUCCESS_ZERO
    || existsb (fun c => counted c &&
                         (negb (Z.testbit (statusOf c) StatusFlag.SUCCESS)
                          || Z.testbit (statusOf c) StatusFlag.SUCCESS_ZERO)) cs
  /\
  Z.testbit
    (fold_left
       (fun childStatus child =>
          if counted child then appendStatusFlag childStatus (statusOf child)
          else childStatus) cs acc) StatusFlag.FAILURE_ZERO
  = Z.testbit acc StatusFlag.FAILURE_ZERO
    || existsb (fun c => counted c &&
                         (negb (Z.testbit (statusOf c) StatusFlag.FAILURE)
                          || Z.testbit (statusOf c) StatusFlag.FAILURE_ZERO)) cs.
Proof.
  revert acc. induction cs as [|c cs IH]; intros acc.
  - cbn. now rewrite !orb_false_r.
  - cbn [fold_left existsb]. destruct (IH (if counted c
                                          then appendStatusFlag acc (statusOf c)
                                          else acc)) as [IH1 IH2].
    rewrite IH1, IH2. destruct (counted c); cbn [andb orb].
    + rewrite appendStatusFlag_success_zero, appendStatusFlag_failure_zero.
      now rewrite <- !orb_assoc.
    + split; reflexivity.
Qed.

(** X6. A refreshed node with children whose definition declares no
    status holds, in each of its five bits, the disjunction over its
    children that count (not disabled, status not 0): RUNNING, FAILURE
    and SUCCESS are set when such a child has the bit; SUCCESS_ZERO
    (FAILURE_ZERO) is set when such a child lacks SUCCESS (FAILURE) or
    carries the tracking bit itself.  Disabled children and children
    of status 0 play no part. *)
Theorem undeclared_status_is_disjunction (t : TreeGraphData) (id : option Z)
  (n : TreeGraphData) (cs : list TreeGraphData) :
  In n (nodes (fst (refreshTreeDataId t id))) ->
  declares (def_status (td_def n)) = false ->
  td_children n = Some cs ->
  (forall k, k = StatusFlag.RUNNING \/ k = StatusFlag.FAILURE
             \/ k = StatusFlag.SUCCESS ->
     flag (td_status n) k
     = existsb (fun c => counted c && flag (td_status c) k) cs) /\
  flag (td_status n) StatusFlag.SUCCESS_ZERO
  = existsb (fun c => counted c &&
                      (negb (flag (td_status c) StatusFlag.SUCCESS)
                       || flag (td_status c) StatusFlag.SUCCESS_ZERO)) cs /\
  flag (td_status n) StatusFlag.FAILURE_ZERO
  = existsb (fun c => counted c &&
                      (negb (flag (td_status c) StatusFlag.FAILURE)
                       || flag (td_status c) StatusFlag.FAILURE_ZERO)) cs.
Proof.
  intros Hin Hdecl Hcs. apply In_refreshed_settled in Hin as [Hst _].
  unfold expectedStatus in Hst. rewrite Hcs in Hst.
  assert (Hagg : td_status n = Some (aggregate cs)).
  { rewrite Hst. f_equal. unfold declares in Hdecl.
    unfold toStatusFlag, builtStatus.
    destruct (def_status (td_def n)) as [[|d ds]|]; try discriminate;
      apply Z.lor_0_l. }
  rewrite Hagg. cbn [flag]. unfold aggregate.
  destruct (aggregate_fold_zero_bits cs 0) as [H5 H4].
  split; [|split].
  - intros k Hk. rewrite aggregate_fold_low by (flag_names; lia).
    rewrite Z.testbit_0_l. cbn [orb]. apply existsb_pointwise.
    intros c. now rewrite flag_statusOf.
  - rewrite H5, Z.testbit_0_l. cbn [orb]. apply existsb_pointwise.
    intros c. now rewrite !flag_statusOf.
  - rewrite H4, Z.testbit_0_l. cbn [orb]. apply existsb_pointwise.
    intros c. now rewrite !flag_statusOf.
Qed.

Lemma undeclared_status_is_disjunction_witness :
  (forall k, k = StatusFlag.RUNNING \/ k = StatusFlag.FAILURE
             \/ k = StatusFlag.SUCCESS ->
     flag (td_status (Sample.refreshed Sample.sequenceLog)) k
     = existsb (fun c => counted c && flag (td_status c) k)
         (Sample.refreshedChildren Sample.sequenceLog)) /\
  flag (td_status (Sample.refreshed Sample.sequenceLog)) StatusFlag.SUCCESS_ZERO
  = existsb (fun c => counted c &&
                      (negb (flag (td_status c) StatusFlag.SUCCESS)
                       || flag (td_status c) StatusFlag.SUCCESS_ZERO))
      (Sample.refreshedChildren Sample.sequenceLog) /\
  flag (td_status (Sample.refreshed Sample.sequenceLog)) StatusFlag.FAILURE_ZERO
  = existsb (fun c => counted c &&
                      (negb (flag (td_status c) StatusFlag.FAILURE)
                       || flag (td_status c) StatusFlag.FAILURE_ZERO))
      (Sample.refreshedChildren Sample.sequenceLog).
Proof.
  exact (undeclared_status_is_disjunction Sample.sequenceLog None
           (Sample.refreshed Sample.sequenceLog)
           (Sample.refreshedChildren Sample.sequenceLog)
           (or_introl eq_refl) eq_refl eq_refl).
Defined.

Lemma applyDirective_keeps_bit (childStatus status : Z) (s : string) (k : Z) :
  (k = StatusFlag.RUNNING) \/
  (k = StatusFlag.SUCCESS /\ s <> "&success"%string) \/
  (k = StatusFlag.FAILURE /\ s <> "&failure"%string) ->
  Z.testbit status k = true ->
  Z.testbit (applyDirective childStatus status s) k = true.
Proof.
  intros Hk Hs. unfold applyDirective. flag_names.
  rewrite !child_bit by lia.
  destruct Hk as [->|[[-> Hne]|[-> Hne]]];
    try (apply String.eqb_neq in Hne; rewrite Hne);
    split_ifs; try exact Hs;
    rewrite ?Z.lor_spec, ?Z.land_spec, Hs; try reflexivity;
    cbn; reflexivity.
Qed.

Lemma fold_applyDirective_keeps_bit (childStatus : Z) (ds : list string)
  (status k : Z) :
  (k = StatusFlag.RUNNING) \/
  (k = StatusFlag.SUCCESS /\ ~ In "&success"%string ds) \/
  (k = StatusFlag.FAILURE /\ ~ In "&failure"%string ds) ->
  Z.testbit status k = true ->
  Z.testbit (fold_left (applyDirective childStatus) ds status) k = true.
Proof.
  revert status. induction ds as [|d ds IH]; intros status Hk Hs; [exact Hs|].
  cbn [fold_left]. apply IH.
  - destruct Hk as [Hk|[[Hk Hn]|[Hk Hn]]]; [now left | right; left | right; right];
      (split; [exact Hk | intros H; apply Hn; now right]).
  - apply applyDirective_keeps_bit; [|exact Hs].
    destruct Hk as [Hk|[[Hk Hn]|[Hk Hn]]]; [now left | right; left | right; right];
      (split; [exact Hk | intros ->; apply Hn; now left]).
Qed.

(** X7. The outcomes a definition lists for the node itself survive
    the composition with the children: after [refreshTreeDataId] a
    node whose definition lists ["running"] has the RUNNING bit, one
    that lists ["success"] and not ["&success"] has the SUCCESS bit,
    and one that lists ["failure"] and not ["&failure"] has the
    FAILURE bit, whatever its children are. *)
Theorem declared_outcomes_survive (t : TreeGraphData) (id : option Z)
  (n : TreeGraphData) :
  In n (nodes (fst (refreshTreeDataId t id))) ->
  (declaresDirective "running" n = true ->
   flag (td_status n) StatusFlag.RUNNING = true) /\
  (declaresDirective "success" n = true ->
   declaresDirective "&success" n = false ->
   flag (td_status n) StatusFlag.SUCCESS = true) /\
  (declaresDirective "failure" n = true ->
   declaresDirective "&failure" n = false ->
   flag (td_status n) StatusFlag.FAILURE = true).
Proof.
  intros Hin. apply In_refreshed_settled in Hin as [Hst _].
  assert (Hbits : Z.testbit (toStatusFlag n) StatusFlag.SUCCESS
                  = declaresDirective "success" n /\
                  Z.testbit (toStatusFlag n) StatusFlag.FAILURE
                  = declaresDirective "failure" n /\
                  Z.testbit (toStatusFlag n) StatusFlag.RUNNING
                  = declaresDirective "running" n).
  { unfold toStatusFlag, declaresDirective.
    destruct (def_status (td_def n)) as [l|].
    - rewrite !(toStatusFlag_fold_bit l _ _) by (flag_names; intuition eauto).
      rewrite !Z.testbit_0_l. cbn [orb]. repeat split.
    - rewrite !Z.testbit_0_l. repeat split. }
  destruct Hbits as [Hs [Hf Hr]].
  assert (Hkeep : forall k,
    (k = StatusFlag.RUNNING) \/
    (k = StatusFlag.SUCCESS /\ declaresDirective "&success" n = false) \/
    (k = StatusFlag.FAILURE /\ declaresDirective "&failure" n = false) ->
    Z.testbit (toStatusFlag n) k = true ->
    flag (td_status n) k = true).
  { intros k Hk Hbit. rewrite Hst. cbn [flag]. unfold expectedStatus.
    destruct (td_children n) as [cs|]; [|exact Hbit].
    unfold builtStatus, declaresDirective in *.
    destruct (def_status (td_def n)) as [[|d ds]|];
      try (rewrite Z.lor_spec, Hbit; reflexivity).
    apply fold_applyDirective_keeps_bit; [|exact Hbit].
    destruct Hk as [Hk|[[Hk Hn]|[Hk Hn]]]; [now left | right; left | right; right];
      (split; [exact Hk|]; intros Hin;
       assert (existsb (String.eqb _) (d :: ds) = true) as E
         by (apply existsb_exists; eexists; split;
             [exact Hin | apply String.eqb_refl]);
       rewrite E in Hn; discriminate). }
  split; [|split].
  - intros H. apply Hkeep; [now left | now rewrite Hr].
  - intros H Hn. apply Hkeep; [right; left; now split | now rewrite Hs].
  - intros H Hn. apply Hkeep; [right; right; now split | now rewrite Hf].
Qed.

Lemma declared_outcomes_survive_witness :
  (declaresDirective "running" (Sample.refreshed Sample.waitLeaf) = true ->
   flag (td_status (Sample.refreshed Sample.waitLeaf)) StatusFlag.RUNNING
   = true) /\
  (declaresDirective "success" (Sample.refreshed Sample.waitLeaf) = true ->
   declaresDirective "&success" (Sample.refreshed Sample.waitLeaf) = false ->
   flag (td_status (Sample.refreshed Sample.waitLeaf)) StatusFlag.SUCCESS
   = true) /\
  (declaresDirective "failure" (Sample.refreshed Sample.waitLeaf) = true ->
   declaresDirective "&failure" (Sample.refreshed Sample.waitLeaf) = false ->
   flag (td_status (Sample.refreshed Sample.waitLeaf)) StatusFlag.FAILURE
   = true).
Proof.
  exact (declared_outcomes_survive Sample.waitLeaf None
           (Sample.refreshed Sample.waitLeaf) (or_introl eq_refl)).
Defined.

(** X8. After [refreshTreeDataId] every node of the tree has a status,
    and it fits in the six status bits: the 32-bit operators of the
    source never wrap. *)
Theorem refreshed_status_defined (t : TreeGraphData) (id : option Z)
  (n : TreeGraphData) :
  In n (nodes (fst (refreshTreeDataId t id))) ->
  exists s, td_status n = Some s /\ 0 <= s < 64.
Proof.
  intros Hin. apply In_refreshed_settled in Hin as [Hst Hr].
  now exists (expectedStatus n).
Qed.

Lemma refreshed_status_defined_witness :
  exists s, td_status (Sample.refreshed Sample.allOfLogFail) = Some s
            /\ 0 <= s < 64.
Proof.
  exact (refreshed_status_defined Sample.allOfLogFail None
           (Sample.refreshed Sample.allOfLogFail) (or_introl eq_refl)).
Defined.

Lemma refreshChildren_parents (data_id : string) (cs : list TreeGraphData) :
  forall id acc,
    Forall (fun c => td_parent c = Some data_id)
      (fst (fst (refreshChildren refreshTreeDataId data_id cs id acc))).
Proof.
  induction cs as [|c cs IH]; intros id acc; [constructor|].
  cbn [refreshChildren].
  destruct (refreshTreeDataId c (Some id)) as [c1 id'].
  match goal with
  | |- context [refreshChildren _ _ cs id' ?s] =>
      specialize (IH id' s);
      destruct (refreshChildren refreshTreeDataId data_id cs id' s)
        as [[rest' id''] childStatus'']
  end.
  cbn [fst] in *. constructor; [now destruct c1 | exact IH].
Qed.

Lemma refreshChildren_nodes_Forall (P : TreeGraphData -> Prop)
  (data_id : string) (cs : list TreeGraphData) :
  (forall p c, P c -> P (set_parent p c)) ->
  Forall (fun c => forall id, Forall P (nodes (fst (refreshTreeDataId c id)))) cs ->
  forall id acc,
    Forall P
      (flat_map nodes
         (fst (fst (refreshChildren refreshTreeDataId data_id cs id acc)))).
Proof.
  intros Hpar. induction 1 as [|c cs Hc _ IH]; intros id acc; [constructor|].
  cbn [refreshChildren]. specialize (Hc (Some id)).
  destruct (refreshTreeDataId c (Some id)) as [c1 id'].
  match goal with
  | |- context [refreshChildren _ _ cs id' ?s] =>
      specialize (IH id' s);
      destruct (refreshChildren refreshTreeDataId data_id cs id' s)
        as [[rest' id''] childStatus'']
  end.
  cbn [fst snd flat_map] in *. apply Forall_app. split; [|exact IH].
  rewrite nodes_set_parent. rewrite (nodes_eq c1) in Hc |- *. cbn [tl].
  inversion Hc as [|x l Hx Hl]; subst. constructor; [now apply Hpar | exact Hl].
Qed.

(** X9. After [refreshTreeDataId] the [parent] of every child, at every
    depth of the tree, is the id its parent node has received. *)
Theorem refreshed_parent_is_owner (t : TreeGraphData) (id : option Z)
  (n : TreeGraphData) (cs : list TreeGraphData) (c : TreeGraphData) :
  In n (nodes (fst (refreshTreeDataId t id))) ->
  td_children n = Some cs ->
  In c cs ->
  td_parent c = Some (td_id n).
Proof.
  intros Hin. revert cs c.
  assert (H : Forall (fun n => forall cs c,
                        td_children n = Some cs -> In c cs ->
                        td_parent c = Some (td_id n))
                (nodes (fst (refreshTreeDataId t id)))).
  { clear Hin n. revert id.
    set (P := fun n => forall cs c,
                td_children n = Some cs -> In c cs ->
                td_parent c = Some (td_id n)).
    assert (HP : forall p c, P c -> P (set_parent p c))
      by (intros p c H; destruct c; exact H).
    induction t as [t IH] using TreeGraphData_induction. intros id.
    rewrite refreshTreeDataId_eq. cbv zeta.
    destruct (td_children t) as [cs|] eqn:Hcs.
    - match goal with
      | |- context [refreshChildren _ ?d cs ?i 0%Z] =>
          pose proof (refreshChildren_nodes_Forall P d cs HP
                        (IH cs eq_refl) i 0%Z) as Hch;
          pose proof (refreshChildren_parents d cs i 0%Z) as Hpar;
          destruct (refreshChildren refreshTreeDataId d cs i 0%Z)
            as [[cs' id2] childStatus]
      end.
      cbn [fst snd] in *. rewrite nodes_eq. constructor.
      + intros cs0 c. destruct t; cbn. intros [= <-] Hc.
        rewrite Forall_forall in Hpar. now apply Hpar.
      + destruct t; exact Hch.
    - cbn [fst]. rewrite nodes_eq.
      destruct t; cbn [td_children] in Hcs; subst. cbn.
      constructor; [|constructor]. intros cs0 c [=]. }
  rewrite Forall_forall in H. exact (H n Hin).
Qed.

Lemma refreshed_parent_is_owner_witness :
  td_parent (nth 0 (Sample.refreshedChildren Sample.nested) Sample.waitLeaf)
  = Some (td_id (Sample.refreshed Sample.nested)).
Proof.
  apply (refreshed_parent_is_owner Sample.nested None
           (Sample.refreshed Sample.nested)
           (Sample.refreshedChildren Sample.nested)).
  - left. reflexivity.
  - reflexivity.
  - left. reflexivity.
Defined.

Lemma refreshTreeDataId_set_parent (p : option string) (t : TreeGraphData)
  (id : option Z) :
  refreshTreeDataId (set_parent p t) id
  = (set_parent p (fst (refreshTreeDataId t id)), snd (refreshTreeDataId t id)).
Proof.
  rewrite !refreshTreeDataId_eq. cbv zeta. destruct t as
    [i nm d a inp out [cs|] dbg dis pth df par st lm]; cbn [set_parent td_children].
  - match goal with
    | |- context [refreshChildren _ ?x cs ?j 0%Z] =>
        destruct (refreshChildren refreshTreeDataId x cs j 0%Z) as [[cs' id2] ag]
    end.
    reflexivity.
  - reflexivity.
Qed.

Lemma refreshChildren_again (data_id : string) (cs : list TreeGraphData) :
  Forall (fun c => forall id,
            refreshTreeDataId (fst (refreshTreeDataId c id)) id
            = refreshTreeDataId c id) cs ->
  forall id acc,
    refreshChildren refreshTreeDataId data_id
      (fst (fst (refreshChildren refreshTreeDataId data_id cs id acc))) id acc
    = refreshChildren refreshTreeDataId data_id cs id acc.
Proof.
  induction 1 as [|c cs Hc _ IH]; intros id acc; [reflexivity|].
  cbn [refreshChildren]. specialize (Hc (Some id)).
  destruct (refreshTreeDataId c (Some id)) as [c1 id'] eqn:Ec.
  cbn [fst] in Hc.
  match goal with
  | |- context [refreshChildren _ _ cs id' ?s] =>
      specialize (IH id' s);
      destruct (refreshChildren refreshTreeDataId data_id cs id' s)
        as [[rest' id''] childStatus''] eqn:Er
  end.
  cbn [fst snd] in *. cbn [refreshChildren].
  rewrite refreshTreeDataId_set_parent, Hc. cbn [fst snd].
  replace (set_parent (Some data_id) (set_parent (Some data_id) c1))
    with (set_parent (Some data_id) c1) by (now destruct c1).
  rewrite IH. reflexivity.
Qed.

(** X10. [refreshTreeDataId] is idempotent: refreshing a refreshed tree
    from the same counter gives the same tree, ids, parents and status
    included, and returns the same counter. *)
Theorem refreshTreeDataId_idempotent (t : TreeGraphData) (id : option Z) :
  refreshTreeDataId (fst (refreshTreeDataId t id)) id = refreshTreeDataId t id.
Proof.
  revert id. induction t as [t IH] using TreeGraphData_induction. intros id.
  rewrite (refreshTreeDataId_eq t). cbv zeta.
  destruct (td_children t) as [cs|] eqn:Hcs.
  - match goal with
    | |- context [refreshChildren _ ?d cs ?i 0%Z] =>
        pose proof (refreshChildren_again d cs (IH cs eq_refl) i 0%Z) as Hagain;
        destruct (refreshChildren refreshTreeDataId d cs i 0%Z)
          as [[cs' id2] childStatus] eqn:Er
    end.
    cbn [fst snd] in *. rewrite refreshTreeDataId_eq. cbv zeta.
    destruct t as [i nm d a inp out ch dbg dis pth df par st lm].
    cbn [td_children] in Hcs. subst ch.
    cbn [buildStatusFlag set_status set_children set_id td_children fst].
    rewrite Hagain. reflexivity.
  - cbn [fst]. rewrite refreshTreeDataId_eq. cbv zeta.
    destruct t as [i nm d a inp out ch dbg dis pth df par st lm].
    cbn [td_children] in Hcs. subst ch. reflexivity.
Qed.

Example refreshTreeDataId_idempotent_sample :
  refreshTreeDataId (Sample.refreshed Sample.nested) None
  = refreshTreeDataId Sample.nested None.
Proof. reflexivity. Qed.

Local Close Scope Z_scope.

(** ** More on arguments *)

Lemma result_bind {A B : Type} (m : Diag A) (f : A -> Diag B) :
  result (bind m f)
  = match result m with
    | Some a => result (f a)
    | None => None
    end.
Proof.
  destruct m as [[a|] l]; [|reflexivity]. unfold bind, result. cbn.
  now destruct (f a).
Qed.

Lemma output_bind {A B : Type} (m : Diag A) (f : A -> Diag B) :
  output (bind m f)
  = (output m ++ match result m with
                 | Some a => output (f a)
                 | None => []
                 end)%list.
Proof.
  destruct m as [[a|] l]; unfold bind, output, result; cbn.
  - now destruct (f a).
  - now rewrite app_nil_r.
Qed.

Lemma word_prefix_spec (s : string) :
  allWordChars (word_prefix s) = true /\
  exists rest, s = word_prefix s ++ rest /\ startsWithWordChar rest = false.
Proof.
  induction s as [|c s [IH1 [rest [IH2 IH3]]]].
  - split; [reflexivity|]. now exists "".
  - cbn [word_prefix]. destruct (is_word_char c) eqn:Hc.
    + cbn [allWordChars]. rewrite Hc, IH1. split; [reflexivity|].
      exists rest. cbn [append]. split; [now f_equal | exact IH3].
    + split; [reflexivity|]. exists (String c s). split; [reflexivity|].
      exact Hc.
Qed.

(** X11. The base kind [getNodeArgRawType] reads off a type descriptor
    is its longest prefix of word characters, and is never empty: what
    follows it in the descriptor does not start with a word character.
    A descriptor that is empty or starts with another character has no
    base kind, and the call throws. *)
Theorem getNodeArgRawType_longest_prefix (arg : NodeArg) :
  match getNodeArgRawType arg with
  | Some kind =>
      kind <> "" /\ allWordChars kind = true /\
      exists rest, arg_type arg = kind ++ rest /\ startsWithWordChar rest = false
  | None => startsWithWordChar (arg_type arg) = false
  end.
Proof.
  unfold getNodeArgRawType.
  destruct (word_prefix_spec (arg_type arg)) as [Hall [rest [Hsplit Hrest]]].
  destruct (word_prefix (arg_type arg)) as [|c w] eqn:Hw.
  - cbn in Hsplit. now rewrite Hsplit.
  - split; [discriminate|]. split; [exact Hall|]. now exists rest.
Qed.

Example getNodeArgRawType_samples :
  map (fun t => getNodeArgRawType (Sample.arg "x" t None))
    ["int?"; "string[]"; "enum[]?"; "float_2 x"; "?int"; ""]
  = [Some "int"; Some "string"; Some "enum"; Some "float_2"; None; None].
Proof. reflexivity. Qed.

Section MoreArguments.

Context {env : Env}.

Ltac split_kinds :=
  repeat match goal with
         | |- context [if ?b then _ else _] => destruct b eqn:?
         end.

Lemma checkNodeArgValue_verbose (data : NodeLike) (arg : NodeArg)
  (value : JS.value) :
  result (checkNodeArgValue data arg value true)
  = result (checkNodeArgValue data arg value false) /\
  (forall line,
      In line (output (checkNodeArgValue data arg value false)) ->
      line = unknownArgTypeLine data arg).
Proof.
  unfold checkNodeArgValue.
  destruct (getNodeArgRawType arg) as [type|]; cbn [lift];
    [rewrite !bind_ret | split; [reflexivity | intros line []]].
  split_kinds; cbn; split; try reflexivity; intros line H;
    repeat (destruct H as [H|H]; [now subst|]); destruct H.
Qed.

Lemma checkElements_verbose (data : NodeLike) (arg : NodeArg)
  (values : list JS.value) :
  forall hasError,
    result (checkElements data arg values true hasError)
    = result (checkElements data arg values false hasError) /\
    (forall line,
        In line (output (checkElements data arg values false hasError)) ->
        line = unknownArgTypeLine data arg).
Proof.
  induction values as [|v values IH]; intros hasError.
  - split; [reflexivity | intros line []].
  - cbn [checkElements]. rewrite !result_bind, !output_bind.
    destruct (checkNodeArgValue_verbose data arg v) as [Hr Ho]. rewrite Hr.
    destruct (result (checkNodeArgValue data arg v false)) as [ok|].
    + destruct (IH (if ok then hasError else true)) as [IHr IHo].
      split; [exact IHr|]. intros line H. apply in_app_or in H as [H|H]; auto.
    + split; [reflexivity|]. intros line H. apply in_app_or in H as [H|[]]; auto.
Qed.

Lemma checkNodeArg_halves (data : NodeLike) (conf : NodeDef) (i : nat)
  (verbose : bool) :
  checkNodeArg data conf i verbose
  = (arg <- lift (argAt conf i) ;;
     hasError <- valueHalf data arg verbose ;;
     oneofHalf data conf arg verbose hasError).
Proof.
  reflexivity.
Qed.

Lemma valueHalf_verbose (data : NodeLike) (arg : NodeArg) :
  result (valueHalf data arg true) = result (valueHalf data arg false) /\
  (forall line,
      In line (output (valueHalf data arg false)) ->
      line = unknownArgTypeLine data arg).
Proof.
  unfold valueHalf. cbv zeta. destruct (isNodeArgArray arg).
  - destruct (JS.get (l_args data) (arg_name arg)) as [| |b|q|s|elems|o];
      try (split; [reflexivity | intros line []]).
    destruct (negb (isNodeArgOptional arg) && (List.length elems =? 0)%nat).
    + split; [reflexivity | intros line []].
    + apply checkElements_verbose.
  - rewrite !result_bind, !output_bind.
    destruct (checkNodeArgValue_verbose data arg
                (JS.get (l_args data) (arg_name arg))) as [Hr Ho].
    rewrite Hr. split; [reflexivity|]. intros line H.
    apply in_app_or in H as [H|H]; [now apply Ho|].
    destruct (result (checkNodeArgValue data arg
                        (JS.get (l_args data) (arg_name arg)) false));
      destruct H.
Qed.

Lemma oneofHalf_verbose (data : NodeLike) (conf : NodeDef) (arg : NodeArg)
  (hasError : bool) :
  result (oneofHalf data conf arg true hasError)
  = result (oneofHalf data conf arg false hasError) /\
  output (oneofHalf data conf arg false hasError) = [].
Proof.
  unfold oneofHalf. destruct (arg_oneof arg) as [tag|]; [|now split].
  cbv zeta.
  match goal with
  | |- context [if ?b then _ else _] => destruct b
  end; now split.
Qed.

(** X12. The verdict of [checkNodeArg] does not depend on [verbose],
    and without [verbose] the check is silent but for one report: the
    only lines it can write are "unknown arg type" lines of the
    argument, which [checkNodeArgValue] writes unconditionally. *)
Theorem checkNodeArg_verbose (data : NodeLike) (conf : NodeDef) (i : nat) :
  result (checkNodeArg data conf i true)
  = result (checkNodeArg data conf i false) /\
  (forall line,
      In line (output (checkNodeArg data conf i false)) ->
      exists arg, argAt conf i = Some arg /\
                  line = unknownArgTypeLine data arg).
Proof.
  rewrite !checkNodeArg_halves.
  destruct (argAt conf i) as [arg|]; cbn [lift];
    [rewrite !bind_ret | split; [reflexivity | intros line []]].
  rewrite !result_bind, !output_bind.
  destruct (valueHalf_verbose data arg) as [Hr Ho]. rewrite Hr.
  destruct (result (valueHalf data arg false)) as [hasError|].
  - destruct (oneofHalf_verbose data conf arg hasError) as [Hr2 Ho2].
    rewrite Ho2, app_nil_r. split; [exact Hr2|].
    intros line H. exists arg. split; [reflexivity | now apply Ho].
  - rewrite app_nil_r. split; [reflexivity|].
    intros line H. exists arg. split; [reflexivity | now apply Ho].
Qed.

Lemma checkNodeArgValue_returns (data : NodeLike) (arg : NodeArg)
  (value : JS.value) (verbose : bool) (kind : string) :
  getNodeArgRawType arg = Some kind ->
  exists ok, result (checkNodeArgValue data arg value verbose) = Some ok.
Proof.
  intros Hkind. unfold checkNodeArgValue. rewrite Hkind. cbn [lift].
  rewrite bind_ret. destruct verbose; split_kinds; cbn; eauto.
Qed.

(** X13. An argument of a known kind whose descriptor carries the
    optional marker may be absent: the undefined value passes
    [checkNodeArgValue] and nothing is written, whatever the kind. *)
Theorem optional_argument_may_be_absent (data : NodeLike) (arg : NodeArg)
  (verbose : bool) (kind : string) :
  getNodeArgRawType arg = Some kind ->
  knownKind kind = true ->
  isNodeArgOptional arg = true ->
  checkNodeArgValue data arg JS.Undefined verbose = (Some true, []).
Proof.
  intros Hkind Hknown Hopt. unfold checkNodeArgValue, knownKind in *.
  rewrite Hkind. cbn [lift]. rewrite bind_ret. rewrite Hopt.
  destruct (isFloatType kind); [reflexivity|].
  destruct (isIntType kind); [reflexivity|].
  destruct (isStringType kind); [reflexivity|].
  destruct (isEnumType kind).
  { cbn. rewrite orb_true_r. reflexivity. }
  destruct (isExprType kind); [reflexivity|].
  destruct (isJsonType kind); [reflexivity|].
  destruct (isBoolType kind); [reflexivity | discriminate].
Qed.

Lemma checkElements_result (data : NodeLike) (arg : NodeArg) (verbose : bool)
  (kind : string) (values : list JS.value) :
  getNodeArgRawType arg = Some kind ->
  forall hasError,
    result (checkElements data arg values verbose hasError)
    = Some (hasError || negb (forallb (valuePasses data arg verbose) values)).
Proof.
  intros Hkind. induction values as [|v values IH]; intros hasError.
  - cbn. now rewrite orb_false_r.
  - cbn [checkElements forallb]. rewrite result_bind. unfold valuePasses at 1.
    destruct (checkNodeArgValue_returns data arg v verbose kind Hkind) as [ok E].
    rewrite E, IH. destruct ok, hasError; reflexivity.
Qed.

(** X14. For an argument of a list kind with no oneof link,
    [checkNodeArg] passes exactly when the value is a list, the list
    is not empty unless the descriptor carries the optional marker,
    and every element passes [checkNodeArgValue]; no failing element
    stops the others from being checked.  A value that is not a list
    fails, the absent value of an optional argument included. *)
Theorem checkNodeArg_list (data : NodeLike) (conf : NodeDef) (i : nat)
  (arg : NodeArg) (verbose : bool) (kind : string) :
  argAt conf i = Some arg ->
  isNodeArgArray arg = true ->
  arg_oneof arg = None ->
  getNodeArgRawType arg = Some kind ->
  result (checkNodeArg data conf i verbose)
  = Some match JS.get (l_args data) (arg_name arg) with
         | JS.Arr elems =>
             (isNodeArgOptional arg || negb (List.length elems =? 0)%nat)
             && forallb (valuePasses data arg verbose) elems
         | _ => false
         end.
Proof.
  intros Harg Harr Hone Hkind. rewrite checkNodeArg_halves, Harg.
  cbn [lift]. rewrite bind_ret, result_bind.
  unfold valueHalf, oneofHalf. cbv zeta. rewrite Harr, Hone.
  destruct (JS.get (l_args data) (arg_name arg)) as [| |b|q|s|elems|o];
    try (destruct verbose; reflexivity).
  destruct (isNodeArgOptional arg); cbn [negb andb orb].
  - rewrite (checkElements_result data arg verbose kind elems Hkind).
    cbn. now rewrite negb_involutive.
  - destruct (List.length elems =? 0)%nat; cbn [negb andb].
    + destruct verbose; reflexivity.
    + rewrite (checkElements_result data arg verbose kind elems Hkind).
      cbn. now rewrite negb_involutive.
Qed.

End MoreArguments.

Lemma optional_argument_may_be_absent_witness :
  checkNodeArgValue (env := Sample.env) Sample.patrolBare
    (Sample.arg "speed" "float?" None) JS.Undefined true = (Some true, []).
Proof.
  apply (optional_argument_may_be_absent (env := Sample.env) Sample.patrolBare
           (Sample.arg "speed" "float?" None) true "float"); reflexivity.
Defined.

Lemma checkNodeArg_list_witness :
  result (checkNodeArg (env := Sample.env) Sample.patrolBare Sample.Patrol 0 true)
  = Some match JS.get (l_args Sample.patrolBare) "points" with
         | JS.Arr elems =>
             (isNodeArgOptional (Sample.arg "points" "string[]?" None)
              || negb (List.length elems =? 0)%nat)
             && forallb (valuePasses (env := Sample.env) Sample.patrolBare
                           (Sample.arg "points" "string[]?" None) true) elems
         | _ => false
         end.
Proof.
  apply (checkNodeArg_list (env := Sample.env) Sample.patrolBare Sample.Patrol
           0 (Sample.arg "points" "string[]?" None) true "string");
    reflexivity.
Defined.

Example checkNodeArg_list_samples :
  map (fun data => checkNodeArg (env := Sample.env) data Sample.Patrol 0 true)
    [Sample.patrolWith (JS.Arr [JS.Str "gate"; JS.Str "well"]);
     Sample.patrolWith (JS.Arr []);
     Sample.patrolWith (JS.Arr [JS.Str "gate"; JS.Num (inject_Z 3); JS.Null]);
     Sample.patrolBare]
  = [(Some true, []);
     (Some true, []);
     (Some false, ["check 5|Patrol: 'points=3' is not a string";
                   "check 5|Patrol: 'points=null' is not a string"]);
     (Some false,
      ["check 5|Patrol: 'points=undefined' is not an array or empty array"])].
Proof. reflexivity. Qed.

(** ** The oneof link *)

Section OneofLink.

Context {env : Env}.

(** The value half of [checkNodeArg] always comes to a verdict for a
    descriptor that has a base kind. *)
Lemma valueHalf_result (data : NodeLike) (arg : NodeArg) (verbose : bool)
  (kind : string) :
  getNodeArgRawType arg = Some kind ->
  result (valueHalf data arg verbose)
  = Some (negb (if isNodeArgArray arg then
                  match JS.get (l_args data) (arg_name arg) with
                  | JS.Arr elems =>
                      (isNodeArgOptional arg
                       || negb (List.length elems =? 0)%nat)
                      && forallb (valuePasses data arg verbose) elems
                  | _ => false
                  end
                else valuePasses data arg verbose
                       (JS.get (l_args data) (arg_name arg)))).
Proof.
  intros Hkind. unfold valueHalf. cbv zeta.
  destruct (isNodeArgArray arg).
  - destruct (JS.get (l_args data) (arg_name arg)) as [| |b|q|s|elems|o];
      try (destruct verbose; reflexivity).
    destruct (isNodeArgOptional arg); cbn [negb andb orb].
    + now rewrite (checkElements_result data arg verbose kind elems Hkind).
    + destruct (List.length elems =? 0)%nat; cbn [negb andb].
      * destruct verbose; reflexivity.
      * now rewrite (checkElements_result data arg verbose kind elems Hkind).
  - rewrite result_bind. unfold valuePasses.
    destruct (checkNodeArgValue_returns data arg
                (JS.get (l_args data) (arg_name arg)) verbose kind Hkind)
      as [ok E].
    now rewrite E.
Qed.

(** C6. For an argument with a oneof tag linked to an input slot, the
    exclusivity check passes exactly when one of the argument value
    and the linked slot's string is supplied and the other is not; an
    undefined argument, an undefined slot and the empty string are
    not supplied.  The check decides the validation of the argument:
    for a descriptor that has a base kind [checkNodeArg] always comes
    to a verdict, and the verdict is [true] exactly when the
    exclusivity check passes and the value itself is accepted.  When
    the check fails the argument does not validate, and the verbose
    validation ends with the oneof diagnostic. *)
Theorem checkNodeArg_oneof_exclusive (data : NodeLike) (conf : NodeDef)
  (i : nat) (declared : list NodeArg) (arg : NodeArg) (tag : string)
  (defs : list string) (idx : nat) :
  def_args conf = Some declared ->
  nth_error declared i = Some arg ->
  arg_oneof arg = Some tag ->
  def_input conf = Some defs ->
  findIndex (fun v => JS.startsWith v tag) defs = Some idx ->
  let argValue := JS.get (l_args data) (arg_name arg) in
  let inputValue := slotAt (l_input data) idx in
  let passes := checkOneof argValue (JS.of_option_string inputValue) in
  let valueOk := fun verbose =>
    if isNodeArgArray arg then
      match argValue with
      | JS.Arr elems =>
          (isNodeArgOptional arg || negb (List.length elems =? 0)%nat)
          && forallb (valuePasses data arg verbose) elems
      | _ => false
      end
    else valuePasses data arg verbose argValue in
  (passes = true <->
     (argSupplied argValue /\ ~ inputSupplied inputValue) \/
     (~ argSupplied argValue /\ inputSupplied inputValue)) /\
  (forall verbose kind,
      getNodeArgRawType arg = Some kind ->
      result (checkNodeArg data conf i verbose)
      = Some (passes && valueOk verbose)) /\
  (forall verbose,
      result (checkNodeArg data conf i verbose) = Some true -> passes = true) /\
  (passes = false ->
   forall ok, result (checkNodeArg data conf i true) = Some ok ->
     ok = false /\
     exists before,
       output (checkNodeArg data conf i true) =
       (before ++
        [("check " ++ l_id data ++ "|" ++ l_name data
          ++ ": only one is allowed for between argument '" ++ arg_name arg
          ++ "' and input '" ++ template (JS.of_option_string inputValue)
          ++ "'")%string])%list).
Proof.
  intros Hargs Harg Htag Hin Hidx argValue inputValue passes valueOk.
  split; [apply checkOneof_exactly_one|].
  assert (Hshape : forall verbose,
    checkNodeArg data conf i verbose =
    bind (valueHalf data arg verbose) (fun hasError =>
      if negb passes then
        when verbose
          (error data ("only one is allowed for between argument '"
                       ++ arg_name arg ++ "' and input '"
                       ++ template (JS.of_option_string inputValue) ++ "'")) ;;;
        ret false
      else ret (negb hasError))).
  { intros verbose. rewrite checkNodeArg_halves. unfold argAt.
    rewrite Hargs, Harg. cbn [lift]. rewrite bind_ret.
    unfold oneofHalf. rewrite Htag, Hin, Hidx. reflexivity. }
  split; [|split].
  - intros verbose kind Hkind. rewrite Hshape, result_bind.
    rewrite (valueHalf_result data arg verbose kind Hkind).
    fold argValue. fold (valueOk verbose).
    destruct passes; cbn [negb andb].
    + cbn. now rewrite negb_involutive.
    + destruct verbose; reflexivity.
  - intros verbose Hres. rewrite Hshape in Hres.
    apply bind_Some in Hres as [h [_ [Hk _]]].
    destruct passes; [reflexivity|]. simpl in Hk.
    destruct verbose; simpl in Hk; discriminate.
  - intros Hfail ok Hres. rewrite Hshape in *.
    apply bind_Some in Hres as [h [_ [Hk Hout]]].
    rewrite Hout. rewrite Hfail in *. simpl in *.
    injection Hk as <-. split; [reflexivity|].
    now exists (output (valueHalf data arg true)).
Qed.

End OneofLink.

Lemma checkNodeArg_oneof_exclusive_witness :
  result (checkNodeArg (env := Sample.env) Sample.compareInputOnly
            Sample.Compare 0 true) = Some true /\
  result (checkNodeArg (env := Sample.env) Sample.compareBoth
            Sample.Compare 0 true) = Some false.
Proof.
  split.
  - exact (proj1 (proj2
             (checkNodeArg_oneof_exclusive (env := Sample.env)
                Sample.compareInputOnly Sample.Compare 0
                [Sample.arg "value" "int?" (Some "value")]
                (Sample.arg "value" "int?" (Some "value")) "value"
                ["value?"] 0 eq_refl eq_refl eq_refl eq_refl eq_refl))
             true "int" eq_refl).
  - exact (proj1 (proj2
             (checkNodeArg_oneof_exclusive (env := Sample.env)
                Sample.compareBoth Sample.Compare 0
                [Sample.arg "value" "int?" (Some "value")]
                (Sample.arg "value" "int?" (Some "value")) "value"
                ["value?"] 0 eq_refl eq_refl eq_refl eq_refl eq_refl))
             true "int" eq_refl).
Defined.

(** ** More on the validation of a stored tree *)

Section MoreCheckNodeData.

Context {env : Env}.

Ltac split_kinds :=
  repeat match goal with
         | |- context [if ?b then _ else _] => destruct b eqn:?
         end.

Lemma bind_silent {A B : Type} (m : Diag A) (f : A -> Diag B) (b : B) :
  result (bind m f) = Some b -> output (bind m f) = [] ->
  exists a, result m = Some a /\ output m = [] /\
            result (f a) = Some b /\ output (f a) = [].
Proof.
  intros Hr Ho. apply bind_Some in Hr as [a [Ha [Hb Hout]]].
  rewrite Hout in Ho. apply app_eq_nil in Ho as [Ho1 Ho2].
  exists a. auto.
Qed.

Lemma checkNodeArgValue_silent (data : NodeLike) (arg : NodeArg)
  (value : JS.value) (ok : bool) :
  result (checkNodeArgValue data arg value true) = Some ok ->
  output (checkNodeArgValue data arg value true) = [] ->
  ok = true.
Proof.
  unfold checkNodeArgValue.
  destruct (getNodeArgRawType arg) as [type|]; cbn [lift];
    [rewrite !bind_ret | discriminate].
  split_kinds; cbn; intros Hr Ho; congruence.
Qed.

Lemma checkElements_silent (data : NodeLike) (arg : NodeArg)
  (values : list JS.value) :
  forall hasError hasError',
    result (checkElements data arg values true hasError) = Some hasError' ->
    output (checkElements data arg values true hasError) = [] ->
    hasError' = hasError.
Proof.
  induction values as [|v values IH]; intros hasError hasError' Hr Ho.
  - cbn in Hr. congruence.
  - cbn [checkElements] in Hr, Ho.
    destruct (bind_silent _ _ _ Hr Ho) as [ok [Hok [Hout [Hr' Ho']]]].
    rewrite (checkNodeArgValue_silent data arg v ok Hok Hout) in *.
    now apply IH.
Qed.

Lemma checkNodeArg_silent (data : NodeLike) (conf : NodeDef) (i : nat)
  (ok : bool) :
  result (checkNodeArg data conf i true) = Some ok ->
  output (checkNodeArg data conf i true) = [] ->
  ok = true.
Proof.
  rewrite checkNodeArg_halves.
  destruct (argAt conf i) as [arg|]; cbn [lift]; [|discriminate].
  rewrite bind_ret. intros Hr Ho.
  destruct (bind_silent _ _ _ Hr Ho) as [hasError [Hv [Hvo [Hone Honeo]]]].
  assert (hasError = false) as ->.
  { unfold valueHalf in Hv, Hvo. cbv zeta in Hv, Hvo.
    destruct (isNodeArgArray arg).
    - destruct (JS.get (l_args data) (arg_name arg)) as [| |b|q|s|elems|o];
        try discriminate Hvo.
      destruct (negb (isNodeArgOptional arg) && (List.length elems =? 0)%nat);
        [discriminate Hvo|].
      now apply (checkElements_silent data arg elems false hasError).
    - destruct (bind_silent _ _ _ Hv Hvo) as [ok' [Hok [Hout [Hr' _]]]].
      rewrite (checkNodeArgValue_silent data arg _ ok' Hok Hout) in Hr'.
      cbn in Hr'. congruence. }
  unfold oneofHalf in Hone, Honeo. destruct (arg_oneof arg) as [tag|].
  - cbv zeta in Hone, Honeo.
    match type of Hone with
    | context [if ?b then _ else _] => destruct b
    end; [discriminate Honeo | cbn in Hone; congruence].
  - cbn in Hone. congruence.
Qed.

Lemma checkArgLoop_silent (data : NodeLike) (conf : NodeDef)
  (declared : list NodeArg) :
  forall i args hasError args' hasError',
    result (checkArgLoop data conf declared i args hasError)
    = Some (args', hasError') ->
    output (checkArgLoop data conf declared i args hasError) = [] ->
    hasError' = hasError.
Proof.
  induction declared as [|a declared IH];
    intros i args hasError args' hasError' Hr Ho.
  - cbn in Hr. congruence.
  - cbn [checkArgLoop] in Hr, Ho. cbv zeta in Hr, Ho.
    destruct (bind_silent _ _ _ Hr Ho) as [ok [Hok [Hout [Hr' Ho']]]].
    rewrite (checkNodeArg_silent data conf i ok Hok Hout) in *.
    now apply IH in Hr'.
Qed.

Lemma checkSlotLoop_silent (data : NodeLike) (what : string)
  (slotDef : list string) (indices : list nat) :
  forall slots hasError hasVariadic slots' hasError' hasVariadic',
    result (checkSlotLoop data what slotDef indices slots hasError hasVariadic)
    = Some (slots', hasError', hasVariadic') ->
    output (checkSlotLoop data what slotDef indices slots hasError hasVariadic)
    = [] ->
    hasError' = hasError.
Proof.
  induction indices as [|i indices IH];
    intros slots hasError hasVariadic slots' hasError' hasVariadic' Hr Ho.
  - cbn in Hr. congruence.
  - cbn [checkSlotLoop] in Hr, Ho. cbv zeta in Hr, Ho.
    destruct (bind_silent _ _ _ Hr Ho) as [valid [_ [_ [Hr1 Ho1]]]].
    destruct (bind_silent _ _ _ Hr1 Ho1) as [h [Hh [Hho [Hr2 Ho2]]]].
    apply IH in Hr2; [|exact Ho2]. subst hasError'.
    destruct valid; cbn in Hh, Hho; [congruence | discriminate].
Qed.

Lemma checkSlots_silent (data : NodeLike) (what : string)
  (slotDef slots : option (list string)) (hasError : bool)
  (slots' : option (list string)) (hasError' : bool) :
  result (checkSlots data what slotDef slots hasError) = Some (slots', hasError') ->
  output (checkSlots data what slotDef slots hasError) = [] ->
  hasError' = hasError.
Proof.
  unfold checkSlots. intros Hr Ho.
  destruct (bind_silent _ _ _ Hr Ho) as [[[s h] v] [Hl [Hlo [Hr' _]]]].
  cbn in Hr'. injection Hr' as _ <-.
  destruct slotDef as [defs|].
  - now apply checkSlotLoop_silent in Hl.
  - cbn in Hl. congruence.
Qed.

Lemma checkChildren_silent (cs : list NodeModel) :
  Forall (fun c => forall ok c',
            result (checkNodeData c) = Some (ok, c') ->
            output (checkNodeData c) = [] -> ok = true) cs ->
  forall hasError rs hasError',
    result (checkChildren checkNodeData cs hasError) = Some (rs, hasError') ->
    output (checkChildren checkNodeData cs hasError) = [] ->
    hasError' = hasError.
Proof.
  induction 1 as [|c cs Hc _ IH]; intros hasError rs hasError' Hr Ho.
  - cbn in Hr. congruence.
  - cbn [checkChildren] in Hr, Ho.
    destruct (bind_silent _ _ _ Hr Ho) as [[ok c'] [Hok [Hout [Hr1 Ho1]]]].
    destruct (bind_silent _ _ _ Hr1 Ho1) as [[rs' h] [Hrs [Hrso [Hr2 _]]]].
    cbn in Hr2. injection Hr2 as _ <-.
    rewrite (Hc ok c' Hok Hout) in Hrs, Hrso. cbn [fst] in Hrs, Hrso.
    now apply IH in Hrs.
Qed.

Lemma checkNodeData_silent (data : NodeModel) (ok : bool)
  (data' : NodeModel) :
  result (checkNodeData data) = Some (ok, data') ->
  output (checkNodeData data) = [] ->
  ok = true.
Proof.
  revert ok data'. induction data as [data IH] using NodeModel_induction.
  intros ok data' Hr Ho. rewrite checkNodeData_eq in Hr, Ho.
  cbv zeta in Hr, Ho.
  destruct (def_name (getNodeDef (nm_name data)) =? def_name unknownNodeDef);
    [discriminate Ho|].
  destruct (bind_silent _ _ _ Hr Ho) as [h0 [Hh0 [Hh0o [Hr1 Ho1]]]].
  assert (h0 = false) as ->.
  { destruct (def_children (getNodeDef (nm_name data))) as [n|];
      [|cbn in Hh0; congruence].
    match type of Hh0 with
    | context [if ?b then _ else _] => destruct b
    end; [discriminate Hh0o | cbn in Hh0; congruence]. }
  destruct (bind_silent _ _ _ Hr1 Ho1) as [[input' h1] [Hs1 [Hs1o [Hr2 Ho2]]]].
  apply checkSlots_silent in Hs1; [|exact Hs1o]. subst h1.
  destruct (bind_silent _ _ _ Hr2 Ho2) as [[output' h2] [Hs2 [Hs2o [Hr3 Ho3]]]].
  apply checkSlots_silent in Hs2; [|exact Hs2o]. subst h2.
  destruct (bind_silent _ _ _ Hr3 Ho3) as [[args' h3] [Ha [Hao [Hr4 Ho4]]]].
  assert (h3 = false) as ->.
  { destruct (def_args (getNodeDef (nm_name data))) as [declared|].
    - destruct (bind_silent _ _ _ Ha Hao) as [[a h] [Hl [Hlo [Hr' _]]]].
      cbn in Hr'. injection Hr' as _ <-.
      now apply checkArgLoop_silent in Hl.
    - cbn in Ha. congruence. }
  destruct (bind_silent _ _ _ Hr4 Ho4) as [[children' h4] [Hc [Hco [Hr5 _]]]].
  cbn in Hr5. injection Hr5 as <- _.
  destruct (nm_children data) as [cs|].
  - apply checkChildren_silent in Hc; [now subst | | exact Hco].
    exact (IH cs eq_refl).
  - cbn in Hc. injection Hc as _ <-. reflexivity.
Qed.

(** X15. A check that fails says why, unless there was nothing to
    check: [checkNodeData] returns [false] without writing a line
    exactly when it is called with [null] or [undefined].  For a node
    that is present, every way to fail (an undefined node, a wrong
    number of children, a missing slot, a wrong argument, a broken
    oneof link, a failing child) writes a line first. *)
Theorem checkNodeData_failure_is_reported (data data' : option NodeModel) :
  result (checkNodeData_nullable data) = Some (false, data') ->
  (output (checkNodeData_nullable data) = [] <-> data = None).
Proof.
  intros Hr. destruct data as [node|]; [|split; reflexivity].
  split; [|discriminate]. intros Ho. cbn [checkNodeData_nullable] in Hr, Ho.
  destruct (bind_silent _ _ _ Hr Ho) as [[ok node'] [Hc [Hco [Hret _]]]].
  cbn in Hret. injection Hret as -> _.
  pose proof (checkNodeData_silent node false node' Hc Hco). discriminate.
Qed.

End MoreCheckNodeData.

Lemma checkNodeData_failure_is_reported_witness :
  output (checkNodeData_nullable (env := Sample.env)
            (Some Sample.sequenceWithStray)) = []
  <-> Some Sample.sequenceWithStray = None.
Proof.
  apply (checkNodeData_failure_is_reported (env := Sample.env)
           (Some Sample.sequenceWithStray)
           (Some (Sample.node 1 "Sequence"
                    (Some [Sample.stray;
                           mkNodeModel (JS.Int 4) "Log" None (Some []) None
                             None (Some []) None None None])))).
  reflexivity.
Defined.

Example checkNodeData_nullable_absent :
  checkNodeData_nullable (env := Sample.env) None = (Some (false, None), []).
Proof. reflexivity. Qed.

(** ** What [checkNodeData] leaves in the node *)

Lemma assign_same (a : list string) (i : nat) :
  nth_error a i = Some "" -> assign a i "" = a.
Proof.
  revert i. induction a as [|x a IH]; intros [|i] H; try discriminate.
  - cbn in H. injection H as ->. reflexivity.
  - cbn in *. now rewrite IH.
Qed.

Lemma assign_beyond (a : list string) (i : nat) :
  List.length a <= i ->
  assign a i "" = (a ++ repeat "" (S i - List.length a))%list.
Proof.
  revert i. induction a as [|x a IH]; intros i H.
  - cbn [List.length app]. rewrite Nat.sub_0_r.
    clear H. induction i as [|i IHi]; [reflexivity|].
    cbn [assign]. rewrite IHi. reflexivity.
  - destruct i as [|i]; [cbn in H; lia|].
    cbn [assign List.length app]. rewrite IH by (cbn in H; lia).
    reflexivity.
Qed.

Lemma fillSlot_pad (a : list string) (i : nat) : fillSlot a i = pad a (S i).
Proof.
  unfold fillSlot, pad. destruct (nth_error a i) as [s|] eqn:E.
  - assert (i < List.length a) by (apply nth_error_Some; congruence).
    replace (S i - List.length a) with 0 by lia. cbn [repeat].
    rewrite app_nil_r. cbn [JS.truthy_string].
    destruct (String.eqb_spec s "") as [->|Hne]; cbn [negb]; [|reflexivity].
    now apply assign_same.
  - apply nth_error_None in E. cbn [JS.truthy_string]. now apply assign_beyond.
Qed.

Lemma pad_short (a : list string) (n : nat) : n <= List.length a -> pad a n = a.
Proof.
  intros H. unfold pad. replace (n - List.length a) with 0 by lia.
  apply app_nil_r.
Qed.

Lemma length_pad (a : list string) (n : nat) :
  List.length (pad a n) = Nat.max (List.length a) n.
Proof.
  unfold pad. rewrite length_app, repeat_length. lia.
Qed.

Lemma pad_pad (a : list string) (k n : nat) :
  k <= n -> pad (pad a k) n = pad a n.
Proof.
  intros H. unfold pad at 1 3. rewrite length_pad. unfold pad.
  rewrite <- app_assoc, <- repeat_app. do 2 f_equal. lia.
Qed.

Lemma nth_error_pad (a : list string) (n i : nat) :
  i < n -> nth_error (pad a n) i = Some (nth i a "").
Proof.
  intros H. unfold pad. destruct (Nat.lt_ge_cases i (List.length a)) as [Hi|Hi].
  - rewrite nth_error_app1 by exact Hi. now apply nth_error_nth'.
  - rewrite nth_error_app2 by exact Hi. rewrite nth_overflow by exact Hi.
    apply nth_error_repeat. lia.
Qed.

Lemma bind_pair {A B : Type} (a : A) (l : list string) (f : A -> Diag B) :
  bind (Some a, l) f = (result (f a), (l ++ output (f a))%list).
Proof.
  unfold bind, result, output. now destruct (f a).
Qed.

Lemma Diag_eta {A : Type} (m : Diag A) : m = (result m, output m).
Proof.
  now destruct m.
Qed.

Section Normalisation.

Context {env : Env}.

(** The slot loop run on a list [a] and run again on a list [big] that
    already has its result: the same lines, the same error flag, the
    same variadic flag; the first leaves [a] padded, the second leaves
    [big] as it is. *)
Lemma checkSlotLoop_again (v1 v2 : NodeLike) (what : string)
  (defs : list string) :
  l_id v1 = l_id v2 -> l_name v1 = l_name v2 ->
  forall m k a big hasError hasVariadic,
    k + m <= List.length defs ->
    k <= List.length a ->
    k + m <= List.length big ->
    (forall i, i < k + m -> nth_error big i = nth_error (pad a (k + m)) i) ->
    exists hasError' out,
      checkSlotLoop v1 what defs (seq k m) (Some a) hasError hasVariadic
      = (Some (Some (pad a (k + m)), hasError',
               hasVariadic
               || ((0 <? m)%nat && (k + m =? List.length defs)%nat
                   && lastIsVariadic defs)), out) /\
      checkSlotLoop v2 what defs (seq k m) (Some big) hasError hasVariadic
      = (Some (Some big, hasError',
               hasVariadic
               || ((0 <? m)%nat && (k + m =? List.length defs)%nat
                   && lastIsVariadic defs)), out).
Proof.
  intros Hid Hname. induction m as [|m IH];
    intros k a big hasError hasVariadic Hdefs Ha Hbig Hagree.
  - exists hasError, []. cbn [seq checkSlotLoop Nat.ltb Nat.leb andb].
    rewrite orb_false_r, Nat.add_0_r, pad_short by exact Ha.
    split; reflexivity.
  - cbn [seq checkSlotLoop]. cbv zeta. rewrite !fillSlot_pad.
    rewrite (pad_short big (S k)) by lia.
    assert (Hvalid : isValidInputOrOutput defs (Some big) k
                     = isValidInputOrOutput defs (Some (pad a (S k))) k).
    { unfold isValidInputOrOutput. cbn [slotAt].
      rewrite (Hagree k) by lia. rewrite !nth_error_pad by lia. reflexivity. }
    rewrite Hvalid.
    destruct (isValidInputOrOutput defs (Some (pad a (S k))) k) as [valid|] eqn:Ev.
    2:{ unfold isValidInputOrOutput in Ev.
        destruct (nth_error defs k) eqn:En; [discriminate|].
        apply nth_error_None in En. lia. }
    cbn [lift]. rewrite !bind_ret.
    set (hv := if (k =? List.length defs - 1)%nat &&
                  match at_last defs with
                  | Some d => JS.endsWith d "..."
                  | None => false
                  end
               then true else hasVariadic).
    assert (Hflag : hv || ((0 <? m)%nat && (S k + m =? List.length defs)%nat
                           && lastIsVariadic defs)
                    = hasVariadic
                      || ((0 <? S m)%nat && (k + S m =? List.length defs)%nat
                          && lastIsVariadic defs)).
    { subst hv. fold (lastIsVariadic defs).
      replace (0 <? S m)%nat with true by reflexivity.
      replace (k + S m) with (S k + m) by lia.
      destruct (Nat.eqb_spec k (List.length defs - 1)) as [Ek|Ek];
        destruct (Nat.eqb_spec (S k + m) (List.length defs)) as [En|En];
        destruct (Nat.ltb_spec 0 m) as [Hm|Hm];
        destruct (lastIsVariadic defs), hasVariadic; cbn; try reflexivity; lia. }
    assert (Hstep : forall h',
      exists hasError' out,
        checkSlotLoop v1 what defs (seq (S k) m) (Some (pad a (S k))) h' hv
        = (Some (Some (pad a (k + S m)), hasError',
                 hasVariadic
                 || ((0 <? S m)%nat && (k + S m =? List.length defs)%nat
                     && lastIsVariadic defs)), out) /\
        checkSlotLoop v2 what defs (seq (S k) m) (Some big) h' hv
        = (Some (Some big, hasError',
                 hasVariadic
                 || ((0 <? S m)%nat && (k + S m =? List.length defs)%nat
                     && lastIsVariadic defs)), out)).
    { intros h'.
      destruct (IH (S k) (pad a (S k)) big h' hv) as [h'' [out [E1 E2]]].
      - lia.
      - rewrite length_pad. lia.
      - lia.
      - intros i Hi. rewrite pad_pad by lia.
        replace (S k + m) with (k + S m) by lia. apply Hagree. lia.
      - exists h'', out. rewrite pad_pad in E1 by lia.
        rewrite Hflag in E1, E2.
        replace (S k + m) with (k + S m) in E1 by lia.
        split; assumption. }
    destruct valid; cbn [negb].
    + destruct (Hstep hasError) as [h'' [out [E1 E2]]].
      exists h'', out. rewrite !bind_ret. split; assumption.
    + destruct (Hstep true) as [h'' [out [E1 E2]]].
      eexists. eexists.
      unfold error, console_error. rewrite Hid, Hname.
      rewrite !bind_pair, ?bind_ret. cbn [result output ret fst snd].
      rewrite !bind_pair, E1, E2. cbn [result output fst snd].
      split; reflexivity.
Qed.

(** One slot list of [checkNodeData], run on a list and run again on
    what the first run left: the second run leaves the list as it is,
    with the same flag and the same lines. *)
Lemma checkSlots_again (v1 v2 : NodeLike) (what : string)
  (slotDef : option (list string)) (slots : option (list string))
  (hasError : bool) :
  l_id v1 = l_id v2 -> l_name v1 = l_name v2 ->
  exists slots' hasError' out,
    checkSlots v1 what slotDef slots hasError = (Some (slots', hasError'), out) /\
    checkSlots v2 what slotDef slots' hasError = (Some (slots', hasError'), out) /\
    (forall defs, slotDef = Some defs -> defs <> [] ->
                  slots' = Some (normalSlots defs slots)).
Proof.
  intros Hid Hname. unfold checkSlots. destruct slotDef as [defs|].
  - destruct (Nat.eq_dec (List.length defs) 0) as [Hlen|Hlen].
    + apply length_zero_iff_nil in Hlen. subst defs.
      cbn [List.length seq checkSlotLoop]. rewrite !bind_ret. cbn [negb].
      destruct slots as [a|].
      * exists (Some []), hasError, []. rewrite !bind_ret. cbn [firstn].
        repeat split. intros defs [= <-] Hne. now elim Hne.
      * exists None, hasError, []. rewrite !bind_ret.
        repeat split. intros defs [= <-] Hne. now elim Hne.
    + set (n := List.length defs) in *.
      set (a := match slots with Some l => l | None => [] end).
      assert (Hseq : seq 0 n = 0 :: seq 1 (n - 1)).
      { destruct (List.length defs) as [|n'] eqn:En; [lia|]. subst n.
        cbn [seq]. now replace (S n' - 1) with n' by lia. }
      assert (Hnone : forall v h,
                 checkSlotLoop v what defs (seq 0 n) slots h false
                 = checkSlotLoop v what defs (seq 0 n) (Some a) h false).
      { intros v h. rewrite Hseq. subst a. now destruct slots. }
      assert (Hflag : false || ((0 <? n)%nat && (0 + n =? List.length defs)%nat
                                && lastIsVariadic defs)
                      = lastIsVariadic defs).
      { cbn [orb Nat.add]. fold n. rewrite Nat.eqb_refl.
        destruct (Nat.ltb_spec 0 n); [|lia]. reflexivity. }
      assert (Hnormal : normalSlots defs slots
                        = if lastIsVariadic defs then pad a n
                          else firstn n (pad a n)) by reflexivity.
      destruct (checkSlotLoop_again v1 v2 what defs Hid Hname n 0 a
                  (normalSlots defs slots) hasError false)
        as [h' [out [E1 E2]]].
      * cbn [Nat.add]. subst n. lia.
      * lia.
      * cbn [Nat.add]. rewrite Hnormal.
        destruct (lastIsVariadic defs);
          rewrite ?length_firstn, length_pad; lia.
      * intros i Hi. cbn [Nat.add] in Hi |- *. rewrite Hnormal.
        destruct (lastIsVariadic defs); [reflexivity|].
        rewrite nth_error_firstn.
        destruct (Nat.ltb_spec i n); [reflexivity|lia].
      * rewrite Hflag in E1, E2. cbn [Nat.add] in E1.
        exists (Some (normalSlots defs slots)), h', out.
        assert (Hrun1 : checkSlotLoop v1 what defs (seq 0 n) slots hasError false
                        = (Some (Some (pad a n), h', lastIsVariadic defs), out)).
        { now rewrite Hnone. }
        rewrite Hrun1, E2, !bind_pair. cbn [result output ret fst snd].
        rewrite app_nil_r, Hnormal.
        destruct (lastIsVariadic defs); cbn [negb].
        -- repeat split. intros defs' [= <-] _. now rewrite Hnormal.
        -- rewrite firstn_firstn, Nat.min_id.
           repeat split. intros defs' [= <-] _. now rewrite Hnormal.
  - rewrite !bind_ret. cbn [negb]. destruct slots as [a|].
    + exists (Some []), hasError, []. rewrite !bind_ret. cbn [firstn].
      repeat split. intros defs [=].
    + exists None, hasError, []. rewrite !bind_ret.
      repeat split. intros defs [=].
Qed.

Lemma bind_ext {A B : Type} (m : Diag A) (f g : A -> Diag B) :
  (forall a, f a = g a) -> bind m f = bind m g.
Proof.
  intros H. destruct m as [[a|] l]; [|reflexivity]. unfold bind.
  now rewrite H.
Qed.

Lemma assoc_set (k k' : string) (v : JS.value) (o : list (string * JS.value)) :
  JS.assoc k (JS.set k' v o) = if (k' =? k)%string then v else JS.assoc k o.
Proof.
  induction o as [|[k0 v0] o IH]; cbn [JS.set JS.assoc].
  - reflexivity.
  - destruct (String.eqb_spec k0 k') as [->|Hne]; cbn [JS.assoc].
    + now destruct (k' =? k)%string.
    + rewrite IH. destruct (String.eqb_spec k0 k) as [->|Hne'];
        [|reflexivity].
      destruct (String.eqb_spec k' k) as [->|_]; [now elim Hne|reflexivity].
Qed.

Lemma assoc_rebuildArgs (old : option Args) (declared : list NodeArg) :
  forall acc k,
    JS.assoc k (rebuildArgs old declared acc)
    = if declaresArg declared k && negb (JS.is_undefined (JS.get old k))
      then JS.get old k else JS.assoc k acc.
Proof.
  unfold rebuildArgs, declaresArg.
  induction declared as [|a rest IH]; intros acc k;
    cbn [fold_left existsb andb]; [reflexivity|].
  rewrite IH.
  destruct (String.eqb_spec (arg_name a) k) as [->|Hne]; cbn [orb].
  - destruct (JS.is_undefined (JS.get old k)) eqn:Eu; cbn [negb].
    + now rewrite !andb_false_r.
    + rewrite andb_true_r, assoc_set, String.eqb_refl.
      now destruct (existsb _ rest).
  - destruct (JS.is_undefined (JS.get old (arg_name a))); [reflexivity|].
    rewrite assoc_set.
    destruct (String.eqb_spec (arg_name a) k) as [E|_]; [now elim Hne|].
    reflexivity.
Qed.

(** A declared name reads the same in the rebuilt arguments and in the
    old ones. *)
Lemma get_rebuildArgs (old : option Args) (declared : list NodeArg)
  (a : NodeArg) :
  In a declared ->
  JS.get (Some (rebuildArgs old declared [])) (arg_name a)
  = JS.get old (arg_name a).
Proof.
  intros Hin. cbn [JS.get]. rewrite assoc_rebuildArgs.
  assert (Hd : declaresArg declared (arg_name a) = true).
  { apply existsb_exists. exists a. split; [exact Hin|apply String.eqb_refl]. }
  rewrite Hd. cbn [andb JS.assoc].
  now destruct (JS.get old (arg_name a)).
Qed.

Lemma checkArgLoop_args (v : NodeLike) (conf : NodeDef)
  (declared : list NodeArg) :
  forall i acc h r h',
    result (checkArgLoop v conf declared i acc h) = Some (r, h') ->
    r = rebuildArgs (l_args v) declared acc.
Proof.
  induction declared as [|a rest IH]; intros i acc h r h' H.
  - cbn in H. now injection H as <- <-.
  - cbn [checkArgLoop] in H. cbv zeta in H.
    apply bind_Some in H as [ok [_ [H _]]].
    apply IH in H. exact H.
Qed.

Lemma checkNodeArgValue_ext (v1 v2 : NodeLike) (arg : NodeArg)
  (value : JS.value) (verbose : bool) :
  l_id v1 = l_id v2 -> l_name v1 = l_name v2 ->
  checkNodeArgValue v1 arg value verbose = checkNodeArgValue v2 arg value verbose.
Proof.
  intros Hid Hname. unfold checkNodeArgValue, error.
  now rewrite Hid, Hname.
Qed.

Lemma checkElements_ext (v1 v2 : NodeLike) (arg : NodeArg) (verbose : bool) :
  l_id v1 = l_id v2 -> l_name v1 = l_name v2 ->
  forall values h,
    checkElements v1 arg values verbose h = checkElements v2 arg values verbose h.
Proof.
  intros Hid Hname. induction values as [|x rest IH]; intros h;
    cbn [checkElements]; [reflexivity|].
  rewrite (checkNodeArgValue_ext v1 v2) by assumption.
  apply bind_ext. intros ok. apply IH.
Qed.

(** [checkNodeArg] reads of the node its id, its name, its inputs and
    the value of the one argument it checks. *)
Lemma checkNodeArg_ext (v1 v2 : NodeLike) (conf : NodeDef) (i : nat)
  (verbose : bool) :
  l_id v1 = l_id v2 -> l_name v1 = l_name v2 -> l_input v1 = l_input v2 ->
  (forall arg,
     match def_args conf with Some l => nth_error l i | None => None end
     = Some arg ->
     JS.get (l_args v1) (arg_name arg) = JS.get (l_args v2) (arg_name arg)) ->
  checkNodeArg v1 conf i verbose = checkNodeArg v2 conf i verbose.
Proof.
  intros Hid Hname Hinput Hget. unfold checkNodeArg.
  destruct (match def_args conf with Some l => nth_error l i | None => None end)
    as [arg|]; [|reflexivity].
  cbn [lift]. rewrite !bind_ret. cbv zeta.
  rewrite (Hget arg eq_refl), Hinput.
  rewrite (checkNodeArgValue_ext v1 v2) by assumption.
  destruct (JS.get (l_args v2) (arg_name arg));
    rewrite ?(checkElements_ext v1 v2) by assumption;
    unfold error; rewrite ?Hid, ?Hname; reflexivity.
Qed.

Lemma checkArgLoop_ext (v1 v2 : NodeLike) (conf : NodeDef)
  (declared : list NodeArg) :
  l_id v1 = l_id v2 -> l_name v1 = l_name v2 -> l_input v1 = l_input v2 ->
  def_args conf = Some declared ->
  (forall a, In a declared ->
             JS.get (l_args v1) (arg_name a) = JS.get (l_args v2) (arg_name a)) ->
  forall rest i acc h,
    (forall a, In a rest -> In a declared) ->
    checkArgLoop v1 conf rest i acc h = checkArgLoop v2 conf rest i acc h.
Proof.
  intros Hid Hname Hinput Hconf Hget.
  induction rest as [|a rest IH]; intros i acc h Hincl;
    cbn [checkArgLoop]; [reflexivity|].
  cbv zeta. rewrite (Hget a) by (apply Hincl; now left).
  rewrite (checkNodeArg_ext v1 v2) by
    (try assumption; rewrite Hconf; intros arg Harg; apply Hget;
     now apply nth_error_In in Harg).
  apply bind_ext. intros ok. apply IH.
  intros b Hb. apply Hincl. now right.
Qed.

(** The loop over the children, run again on the children the first
    run left, when each child is left in a form a second check keeps. *)
Lemma checkChildren_again (cs : list NodeModel) :
  Forall (fun c => forall ok c',
            result (checkNodeData c) = Some (ok, c') ->
            checkNodeData c' = (Some (ok, c'), output (checkNodeData c))) cs ->
  forall h cs' h',
    result (checkChildren checkNodeData cs h) = Some (cs', h') ->
    checkChildren checkNodeData cs' h
    = (Some (cs', h'), output (checkChildren checkNodeData cs h)) /\
    List.length cs' = List.length cs.
Proof.
  induction 1 as [|c cs Hc _ IH]; intros h cs' h' H.
  - cbn in H. injection H as <- <-. split; reflexivity.
  - cbn [checkChildren] in H |- *.
    destruct (checkNodeData c) as [[[ok c']|] oc] eqn:Ec; [|discriminate H].
    specialize (Hc ok c' eq_refl). cbn [output snd] in Hc.
    rewrite bind_pair in H |- *. cbn [result output fst snd] in H |- *.
    destruct (checkChildren checkNodeData cs (if ok then h else true))
      as [[[rs hr]|] orest] eqn:Er; [|discriminate H].
    destruct (IH (if ok then h else true) rs hr) as [IH1 IH2];
      [now rewrite Er|].
    rewrite Er in IH1. cbn [output snd] in IH1.
    rewrite bind_pair in H |- *. cbn [result output ret fst snd] in H |- *.
    injection H as <- <-.
    cbn [checkChildren]. rewrite Hc, bind_pair. cbn [fst snd].
    rewrite IH1, bind_pair. cbn [result output ret fst snd List.length].
    now rewrite IH2.
Qed.

Lemma bind_run {A B : Type} (m : Diag A) (f : A -> Diag B)
  (a : A) (o : list string) (b : B) (o' : list string) :
  m = (Some a, o) -> f a = (Some b, o') -> bind m f = (Some b, (o ++ o')%list).
Proof.
  intros -> H. unfold bind. now rewrite H.
Qed.

Ltac stage H x o E :=
  match type of H with
  | result (bind ?m _) = Some _ =>
      let M := fresh "M" in
      remember m as M eqn:E; destruct M as [[x|] o]; [|discriminate H];
      rewrite bind_pair in H; rewrite ?bind_pair;
      cbn [result output fst snd] in H |- *;
      symmetry in E
  end.

(** X16. [checkNodeData] brings a node to a form it keeps: checking
    the node it left a second time gives the same verdict, writes the
    same lines and changes nothing more.  The slots are already padded
    and cut, the arguments already hold the declared names only, and
    [children] is already a list. *)
Theorem checkNodeData_idempotent (data : NodeModel) (ok : bool)
  (data' : NodeModel) :
  result (checkNodeData data) = Some (ok, data') ->
  checkNodeData data' = (Some (ok, data'), output (checkNodeData data)).
Proof.
  revert ok data'. induction data as [data IH] using NodeModel_induction.
  intros ok data' H.
  destruct (undefinedNode data) eqn:Eu.
  - rewrite (checkNodeData_undefined data Eu) in H |- *.
    cbn in H. injection H as <- <-. cbn [output snd].
    now apply checkNodeData_undefined.
  - rewrite (checkNodeData_eq data) in H |- *. cbv zeta in H |- *.
    unfold undefinedNode in Eu. rewrite Eu in H |- *.
    stage H h0 o0 E0.
    stage H r1 o1 E1. destruct r1 as [input' h1]. cbv beta iota in H |- *.
    stage H r2 o2 E2. destruct r2 as [output' h2]. cbv beta iota in H |- *.
    stage H r3 o3 E3. destruct r3 as [args' h3]. cbv beta iota in H |- *.
    stage H r4 o4 E4. destruct r4 as [children' h4]. cbv beta iota in H |- *.
    cbn [result ret fst] in H. injection H as <- <-.
    cbn [output ret snd].
    assert (F4 : checkChildren checkNodeData children' h3
                 = (Some (children', h4), o4) /\
                 Z.of_nat (List.length children')
                 = match nm_children data with
                   | Some cs => Z.of_nat (List.length cs)
                   | None => 0%Z
                   end).
    { destruct (nm_children data) as [cs|] eqn:Ecs.
      - destruct (checkChildren_again cs (IH cs eq_refl) h3 children' h4)
          as [A1 A2]; [now rewrite E4|].
        rewrite E4 in A1. cbn [output snd] in A1. now rewrite A2.
      - cbn in E4. injection E4 as <- <- <-. split; reflexivity. }
    destruct F4 as [F4 Hcount].
    rewrite checkNodeData_eq. cbv zeta.
    cbn [nm_id nm_name nm_desc nm_args nm_input nm_output nm_children
         nm_debug nm_disabled nm_path].
    rewrite Eu, Hcount.
    apply (bind_run _ _ h0 o0); [exact E0|].
    match goal with
    | |- context [checkSlots ?v "intput" _ _ _] =>
        destruct (checkSlots_again (ofModel data) v "intput"
                    (def_input (getNodeDef (nm_name data))) (nm_input data) h0
                    eq_refl eq_refl) as [s1 [e1 [l1 [A1 [A2 _]]]]]
    end.
    rewrite E1 in A1. injection A1 as <- <- <-.
    apply (bind_run _ _ (input', h1) o1); [exact A2|]. cbv beta iota.
    match goal with
    | |- context [checkSlots ?v "output" _ _ _] =>
        destruct (checkSlots_again (ofModel data) v "output"
                    (def_output (getNodeDef (nm_name data))) (nm_output data) h1
                    eq_refl eq_refl) as [s2 [e2 [l2 [B1 [B2 _]]]]]
    end.
    rewrite E2 in B1. injection B1 as <- <- <-.
    apply (bind_run _ _ (output', h2) o2); [exact B2|]. cbv beta iota.
    apply (bind_run _ _ (args', h3) o3).
    { destruct (def_args (getNodeDef (nm_name data))) as [declared|] eqn:Ed.
      - destruct (checkArgLoop _ _ declared 0 [] h2) as [[[R hR]|] oR] eqn:EL;
          [|discriminate E3].
        rewrite bind_pair in E3. cbn [result output ret fst snd] in E3.
        injection E3 as <- <- <-.
        pose proof (checkArgLoop_args _ _ _ _ _ _ R hR
                      ltac:(rewrite EL; reflexivity)) as HR.
        cbn [l_args] in HR.
        set (view := {| l_id := JS.toFixed (nm_id data);
                        l_name := nm_name data;
                        l_args := nm_args data; l_input := input' |}) in *.
        rewrite (checkArgLoop_ext
                   {| l_id := JS.toFixed (nm_id data); l_name := nm_name data;
                      l_args := Some R; l_input := input' |}
                   view _ declared eq_refl eq_refl eq_refl Ed).
        + rewrite EL, bind_pair. reflexivity.
        + intros a Ha. subst view. cbn [l_args]. rewrite HR.
          now apply get_rebuildArgs.
        + auto.
      - cbn in E3. injection E3 as <- <- <-. reflexivity. }
    cbv beta iota.
    apply (bind_run _ _ (children', h4) o4); [exact F4|].
    reflexivity.
Qed.

(** X17. After a check that went through, the arguments of a defined
    node whose definition declares arguments are the declared ones:
    a declared name reads as it did before, any other name reads
    [undefined].  Undeclared arguments are dropped by the check. *)
Theorem checkNodeData_keeps_declared_args (data : NodeModel) (ok : bool)
  (data' : NodeModel) (declared : list NodeArg) (key : string) :
  result (checkNodeData data) = Some (ok, data') ->
  undefinedNode data = false ->
  def_args (getNodeDef (nm_name data)) = Some declared ->
  JS.get (nm_args data') key
  = if declaresArg declared key then JS.get (nm_args data) key
    else JS.Undefined.
Proof.
  intros H Eu Ed. rewrite (checkNodeData_eq data) in H. cbv zeta in H.
  unfold undefinedNode in Eu. rewrite Eu, Ed in H.
  stage H h0 o0 E0.
  stage H r1 o1 E1. destruct r1 as [input' h1]. cbv beta iota in H.
  stage H r2 o2 E2. destruct r2 as [output' h2]. cbv beta iota in H.
  stage H r3 o3 E3. destruct r3 as [args' h3]. cbv beta iota in H.
  stage H r4 o4 E4. destruct r4 as [children' h4]. cbv beta iota in H.
  cbn [result ret fst] in H. injection H as _ <-. cbn [nm_args].
  destruct (checkArgLoop _ _ declared 0 [] h2) as [[[R hR]|] oR] eqn:EL;
    [|discriminate E3].
  rewrite bind_pair in E3. cbn [result output ret fst snd] in E3.
  injection E3 as <- _ _.
  pose proof (checkArgLoop_args _ _ _ _ _ _ R hR
                ltac:(rewrite EL; reflexivity)) as HR.
  cbn [l_args] in HR. subst R. cbn [JS.get]. rewrite assoc_rebuildArgs.
  cbn [JS.assoc].
  destruct (declaresArg declared key); cbn [andb]; [|reflexivity].
  now destruct (JS.get (nm_args data) key).
Qed.

(** X18. After a check that went through, the slot lists of a defined
    node follow its definition: where inputs (outputs) are declared,
    the node has a slot for each, an empty string where none was
    given, and nothing beyond the declared ones unless the last
    descriptor is variadic. *)
Theorem checkNodeData_normal_slots (data : NodeModel) (ok : bool)
  (data' : NodeModel) :
  result (checkNodeData data) = Some (ok, data') ->
  undefinedNode data = false ->
  (forall defs, def_input (getNodeDef (nm_name data)) = Some defs ->
                defs <> [] ->
                nm_input data' = Some (normalSlots defs (nm_input data))) /\
  (forall defs, def_output (getNodeDef (nm_name data)) = Some defs ->
                defs <> [] ->
                nm_output data' = Some (normalSlots defs (nm_output data))).
Proof.
  intros H Eu. rewrite (checkNodeData_eq data) in H. cbv zeta in H.
  unfold undefinedNode in Eu. rewrite Eu in H.
  stage H h0 o0 E0.
  stage H r1 o1 E1. destruct r1 as [input' h1]. cbv beta iota in H.
  stage H r2 o2 E2. destruct r2 as [output' h2]. cbv beta iota in H.
  stage H r3 o3 E3. destruct r3 as [args' h3]. cbv beta iota in H.
  stage H r4 o4 E4. destruct r4 as [children' h4]. cbv beta iota in H.
  cbn [result ret fst] in H. injection H as _ <-.
  cbn [nm_input nm_output].
  destruct (checkSlots_again (ofModel data) (ofModel data) "intput"
              (def_input (getNodeDef (nm_name data))) (nm_input data) h0
              eq_refl eq_refl) as [s1 [e1 [l1 [A1 [_ A3]]]]].
  rewrite E1 in A1. injection A1 as <- _ _.
  destruct (checkSlots_again (ofModel data) (ofModel data) "output"
              (def_output (getNodeDef (nm_name data))) (nm_output data) h1
              eq_refl eq_refl) as [s2 [e2 [l2 [B1 [_ B3]]]]].
  rewrite E2 in B1. injection B1 as <- _ _.
  split; assumption.
Qed.


End Normalisation.

Lemma checkNodeData_idempotent_witness :
  checkNodeData (env := Sample.env) Sample.logChecked
  = (Some (true, Sample.logChecked),
     output (checkNodeData (env := Sample.env) Sample.logWithInput)).
Proof.
  apply (checkNodeData_idempotent (env := Sample.env)
           Sample.logWithInput true Sample.logChecked).
  reflexivity.
Defined.

Lemma checkNodeData_keeps_declared_args_witness :
  JS.get (nm_args Sample.logExtraChecked) "colour"
  = if declaresArg [Sample.arg "str" "string" None] "colour"
    then JS.get (nm_args Sample.logWithExtra) "colour"
    else JS.Undefined.
Proof.
  apply (checkNodeData_keeps_declared_args (env := Sample.env)
           Sample.logWithExtra true Sample.logExtraChecked
           [Sample.arg "str" "string" None] "colour");
    reflexivity.
Defined.

Lemma checkNodeData_normal_slots_witness :
  nm_input Sample.compareChecked = Some (normalSlots ["value?"] (Some ["hp"; "extra"])).
Proof.
  apply (proj1 (checkNodeData_normal_slots (env := Sample.env)
                  Sample.compareTwoInputs true Sample.compareChecked
                  eq_refl eq_refl)).
  - reflexivity.
  - discriminate.
Defined.

(** ** Subtree files that changed on disk *)

Lemma existsb_flat_map {A B : Type} (f : B -> bool) (g : A -> list B)
  (l : list A) :
  existsb f (flat_map g l) = existsb (fun x => existsb f (g x)) l.
Proof.
  induction l as [|x l IH]; [reflexivity|].
  cbn [flat_map existsb]. now rewrite existsb_app, IH.
Qed.

Lemma isSubtreeUpdated_eq (statSync : string -> option Z) (d : TreeGraphData) :
  isSubtreeUpdated statSync d
  = stale statSync d ||
    match td_children d with
    | Some cs => existsb (isSubtreeUpdated statSync) cs
    | None => false
    end.
Proof.
  destruct d as [i n de a inp out ch dbg dis p df par st lm].
  unfold stale. cbn [td_path td_children td_lastModified].
  destruct p as [path|]; [|reflexivity].
  change (isSubtreeUpdated statSync
            (mkTreeGraphData i n de a inp out ch dbg dis (Some path) df par st lm))
    with ((if negb (path =? "") then
             match statSync path with
             | Some mtimeMs => negb (sameTime lm mtimeMs)
             | None => true
             end
           else false) ||
          match ch with
          | Some cs => existsb (isSubtreeUpdated statSync) cs
          | None => false
          end).
  now destruct (negb (path =? "")).
Qed.

(** X19. [isSubtreeUpdated] looks at every node of the tree, at any
    depth: it answers [true] exactly when some node refers to a
    subtree file that cannot be read or whose modification time is
    not the recorded one. *)
Theorem isSubtreeUpdated_some_node_stale (statSync : string -> option Z)
  (data : TreeGraphData) :
  isSubtreeUpdated statSync data = existsb (stale statSync) (nodes data).
Proof.
  induction data as [data IH] using TreeGraphData_induction.
  rewrite isSubtreeUpdated_eq, nodes_eq. cbn [existsb]. f_equal.
  destruct (td_children data) as [cs|]; [|reflexivity].
  specialize (IH cs eq_refl). rewrite existsb_flat_map.
  induction IH as [|c cs Hc _ IHcs]; [reflexivity|].
  cbn [existsb]. now rewrite Hc, IHcs.
Qed.

(** ** The check of a graph node: [checkTreeData] *)

Section CheckTreeData.

Context {env : Env}.

Lemma allSlotsValid_true (slotDef : list string)
  (slots : option (list string)) (m : nat) :
  forall k,
    allSlotsValid slotDef slots (seq k m) = Some true <->
    (forall i, k <= i < k + m ->
               isValidInputOrOutput slotDef slots i = Some true).
Proof.
  induction m as [|m IH]; intros k; cbn [seq allSlotsValid].
  - split; [intros _ i Hi; lia|reflexivity].
  - destruct (isValidInputOrOutput slotDef slots k) as [[|]|] eqn:Ek.
    + rewrite IH. split.
      * intros H i Hi. destruct (Nat.eq_dec i k) as [->|Hne];
          [exact Ek|apply H; lia].
      * intros H i Hi. apply H. lia.
    + split; [discriminate|]. intros H.
      specialize (H k ltac:(lia)). congruence.
    + split; [discriminate|]. intros H.
      specialize (H k ltac:(lia)). congruence.
Qed.

Lemma allArgsValid_true (v : NodeLike) (conf : NodeDef) (n : nat) :
  forall i,
    result (allArgsValid v conf n i) = Some true <->
    (forall j, i <= j < i + n ->
               result (checkNodeArg v conf j false) = Some true).
Proof.
  induction n as [|n IH]; intros i; cbn [allArgsValid].
  - split; [intros _ j Hj; lia|reflexivity].
  - rewrite result_bind.
    destruct (result (checkNodeArg v conf i false)) as [[|]|] eqn:Ei.
    + rewrite IH. split.
      * intros H j Hj. destruct (Nat.eq_dec j i) as [->|Hne];
          [exact Ei|apply H; lia].
      * intros H j Hj. apply H. lia.
    + split; [discriminate|]. intros H.
      specialize (H i ltac:(lia)). congruence.
    + split; [discriminate|]. intros H.
      specialize (H i ltac:(lia)). congruence.
Qed.

(** X20. [checkTreeData] accepts a graph node exactly when every
    declared input slot and every declared output slot is valid, the
    number of children is the declared one, and every declared
    argument passes [checkNodeArg]. *)
Theorem checkTreeData_accepts (data : TreeGraphData) :
  result (checkTreeData data) = Some true <->
  (forall defs i, def_input (td_def data) = Some defs ->
                  i < List.length defs ->
                  isValidInputOrOutput defs (td_input data) i = Some true) /\
  (forall defs i, def_output (td_def data) = Some defs ->
                  i < List.length defs ->
                  isValidInputOrOutput defs (td_output data) i = Some true) /\
  checkChildrenLimit data = true /\
  (forall declared i, def_args (td_def data) = Some declared ->
                      i < List.length declared ->
                      result (checkNodeArg (ofGraph data) (td_def data) i false)
                      = Some true).
Proof.
  unfold checkTreeData. cbv zeta.
  assert (Hin : match def_input (td_def data) with
                | Some defs =>
                    allSlotsValid defs (td_input data) (seq 0 (List.length defs))
                | None => Some true
                end = Some true <->
                (forall defs i, def_input (td_def data) = Some defs ->
                                i < List.length defs ->
                                isValidInputOrOutput defs (td_input data) i
                                = Some true)).
  { destruct (def_input (td_def data)) as [defs|].
    - rewrite allSlotsValid_true. split.
      + intros H defs' i [= <-] Hi. apply H. lia.
      + intros H i Hi. apply (H defs i eq_refl). lia.
    - split; [intros _ defs i [=]|reflexivity]. }
  assert (Hout : match def_output (td_def data) with
                 | Some defs =>
                     allSlotsValid defs (td_output data) (seq 0 (List.length defs))
                 | None => Some true
                 end = Some true <->
                 (forall defs i, def_output (td_def data) = Some defs ->
                                 i < List.length defs ->
                                 isValidInputOrOutput defs (td_output data) i
                                 = Some true)).
  { destruct (def_output (td_def data)) as [defs|].
    - rewrite allSlotsValid_true. split.
      + intros H defs' i [= <-] Hi. apply H. lia.
      + intros H i Hi. apply (H defs i eq_refl). lia.
    - split; [intros _ defs i [=]|reflexivity]. }
  assert (Hargs : result match def_args (td_def data) with
                         | Some declared =>
                             allArgsValid (ofGraph data) (td_def data)
                               (List.length declared) 0
                         | None => ret true
                         end = Some true <->
                  (forall declared i, def_args (td_def data) = Some declared ->
                                      i < List.length declared ->
                                      result (checkNodeArg (ofGraph data)
                                                (td_def data) i false)
                                      = Some true)).
  { destruct (def_args (td_def data)) as [declared|].
    - rewrite allArgsValid_true. split.
      + intros H declared' i [= <-] Hi. apply H. lia.
      + intros H i Hi. apply (H declared i eq_refl). lia.
    - split; [intros _ declared i [=]|reflexivity]. }
  rewrite <- Hin, <- Hout, <- Hargs.
  destruct (match def_input (td_def data) with
            | Some defs => _
            | None => Some true
            end) as [[|]|]; cbn [lift]; rewrite ?bind_ret; cbn [negb];
    try (split; [discriminate|intros [? _]; discriminate]).
  destruct (match def_output (td_def data) with
            | Some defs => _
            | None => Some true
            end) as [[|]|]; cbn [lift]; rewrite ?bind_ret; cbn [negb];
    try (split; [discriminate|intros [_ [? _]]; discriminate]).
  destruct (checkChildrenLimit data); cbn [negb];
    try (split; [discriminate|intros [_ [_ [? _]]]; discriminate]).
  split; [intros H; repeat split; exact H|intros [_ [_ [_ H]]]; exact H].
Qed.

End CheckTreeData.

(** ** The build of a tree file: [createBuildData] *)

Section CreateBuildDataProperties.

Context {env : Env}.

Lemma modelNodes_eq (n : NodeModel) :
  modelNodes n = n :: match nm_children n with
                      | Some cs => flat_map modelNodes cs
                      | None => []
                      end.
Proof.
  destruct n; reflexivity.
Qed.

Lemma flat_map_createFileData (l : list TreeGraphData) :
  Forall (fun d => modelNodes (createFileData d true)
                   = map (fun d => createFileData d true) (nodes d)) l ->
  flat_map modelNodes (map (fun d => createFileData d true) l)
  = map (fun d => createFileData d true) (flat_map nodes l).
Proof.
  induction 1 as [|x xs Hx _ IHxs]; [reflexivity|].
  cbn [map flat_map]. now rewrite map_app, Hx, IHxs.
Qed.

(** With the subtree export, [createFileData] writes every node of the
    graph, in the same order. *)
Lemma modelNodes_createFileData (data : TreeGraphData) :
  modelNodes (createFileData data true)
  = map (fun d => createFileData d true) (nodes data).
Proof.
  induction data as [data IH] using TreeGraphData_induction.
  rewrite modelNodes_eq, nodes_eq, createFileData_children.
  destruct (td_children data) as [l|]; [|reflexivity].
  specialize (IH l eq_refl). destruct l as [|c cs]; [reflexivity|].
  cbn [orb].
  transitivity (createFileData data true
                :: map (fun d => createFileData d true)
                     (flat_map nodes (c :: cs))); [|reflexivity].
  f_equal. now apply flat_map_createFileData.
Qed.

Lemma createFileData_id (data : TreeGraphData) (includeSubtree : bool) :
  nm_id (createFileData data includeSubtree) = JS.Number (td_id data).
Proof.
  destruct data; reflexivity.
Qed.

(** X21. A built tree file has its nodes numbered 1, 2, ..., N, parent
    before children and children from left to right, the nodes that
    came from subtree files included: the build inlines every subtree
    and renumbers the whole tree. *)
Theorem createBuildData_numbers (readModel : string -> option TreeModel)
  (fs : FileSystem) (fuel : nat) (path : string) (st : State)
  (built : TreeModel) (st' : State) :
  createBuildData readModel fs fuel path st = Some (Some built, st') ->
  map nm_id (modelNodes (tm_root built))
  = map (fun k => JS.Int (1 + Z.of_nat k))
      (seq 0 (List.length (modelNodes (tm_root built)))).
Proof.
  unfold createBuildData. intros H.
  destruct (readModel path) as [treeModel|]; [|discriminate H].
  destruct (createTreeData fs fuel (tm_root treeModel) None st)
    as [[data st1]|]; [|discriminate H].
  cbv zeta in H. injection H as <- _. cbn [tm_root].
  assert (Hsame : refreshTreeDataId data None
                  = refreshTreeDataId data (Some 1%Z)).
  { now rewrite !refreshTreeDataId_eq. }
  destruct (refreshTreeDataId_numbers_from data 1 ltac:(lia)) as [Hids _].
  rewrite <- Hsame in Hids.
  assert (Hlen : List.length (nodes (fst (refreshTreeDataId data None)))
                 = List.length (nodes data)).
  { rewrite <- (length_map td_id), Hids. unfold idsFrom.
    now rewrite length_map, length_seq. }
  rewrite modelNodes_createFileData, length_map, map_map, Hlen.
  erewrite map_ext; [|intros d; apply createFileData_id].
  rewrite <- (map_map td_id JS.Number), Hids. unfold idsFrom.
  rewrite map_map. apply map_ext. intros k. apply Number_Z_toString.
Qed.

End CreateBuildDataProperties.

Lemma createBuildData_numbers_witness :
  map nm_id (modelNodes (tm_root Sample.builtCycle))
  = map (fun k => JS.Int (1 + Z.of_nat k))
      (seq 0 (List.length (modelNodes (tm_root Sample.builtCycle)))).
Proof.
  apply (createBuildData_numbers (env := Sample.env)
           (Sample.readModel (Sample.cycleFiles "a" "b"))
           (Sample.cycleFiles "a" "b") 3 "a" Sample.emptyState
           Sample.builtCycle
           {| parsingStack := []; messages := [circularMessage "b"] |}).
  reflexivity.
Defined.

(** ** From the stored tree to the graph and back with [createNode] *)

Section CreateNodeRoundTrip.

Context {env : Env}.
Variable fs : FileSystem.

Lemma filter_all {A : Type} (f : A -> bool) (l : list A) :
  forallb f l = true -> filter f l = l.
Proof.
  induction l as [|x l IH]; [reflexivity|]. cbn [forallb filter].
  intros H. apply andb_true_iff in H as [Hx Hl]. now rewrite Hx, IH.
Qed.

Lemma createNode_eq (data : TreeGraphData) (includeChildren : bool) :
  createNode data includeChildren
  = {| nm_id := JS.Number (td_id data);
       nm_name := td_name data;
       nm_desc := td_desc data;
       nm_path := td_path data;
       nm_debug := td_debug data;
       nm_disabled := td_disabled data;
       nm_input := option_map (map (fun v => v)) (td_input data);
       nm_output := option_map (map (fun v => v)) (td_output data);
       nm_args :=
         option_map (filter (fun kv => negb (JS.is_undefined (snd kv))))
           (td_args data);
       nm_children :=
         match td_children data with
         | Some cs =>
             if negb (isSubtreeRoot data) && includeChildren
             then Some (map (fun child => createNode child true) cs)
             else None
         | None => None
         end |}.
Proof.
  destruct data; reflexivity.
Qed.

Lemma buildChildren_plain (fuel : nat) (parent : string)
  (cs : list NodeModel) :
  parent <> "" ->
  Forall
    (fun c => forall parent st,
         plain c = true ->
         exists td,
           createTreeData fs fuel c parent st
           = Some (td, if noParent parent then resetStack st else st) /\
           createNode td true = c) cs ->
  forallb plain cs = true ->
  forall st,
    exists cs',
      buildChildren (createTreeData fs fuel) parent cs st = Some (cs', st) /\
      map (fun td => createNode td true) cs' = cs.
Proof.
  intros Hparent. induction 1 as [|c cs Hc _ IH]; intros Hplain st.
  - exists []. split; reflexivity.
  - cbn [forallb] in Hplain. apply andb_true_iff in Hplain as [Hp Hps].
    cbn [buildChildren].
    destruct (Hc (Some parent) st Hp) as [td [E1 R1]]. rewrite E1.
    assert (Hno : noParent (Some parent) = false).
    { unfold noParent, JS.truthy_string.
      apply String.eqb_neq in Hparent. now rewrite Hparent. }
    rewrite Hno. destruct (IH Hps st) as [cs' [E2 R2]]. rewrite E2.
    exists (td :: cs'). split; [reflexivity|]. cbn [map]. now rewrite R1, R2.
Qed.

(** X22. A stored tree that refers to no subtree file and holds no
    [undefined] argument comes back exactly from the graph:
    [createNode] of what [createTreeData] built is the stored tree,
    and the build shows no message.  It needs no fuel. *)
Theorem createNode_createTreeData (fuel : nat) (m : NodeModel) :
  forall parent st,
    plain m = true ->
    exists td,
      createTreeData fs fuel m parent st
      = Some (td, if noParent parent then resetStack st else st) /\
      createNode td true = m.
Proof.
  induction m as [m IH] using NodeModel_induction.
  intros parent st Hplain. rewrite createTreeData_eq. cbv zeta.
  destruct m as [i nm d a inp out ch dbg dis p].
  cbn [plain nm_path nm_args nm_children] in Hplain.
  apply andb_true_iff in Hplain as [Hplain Hch].
  apply andb_true_iff in Hplain as [Hp Ha].
  destruct p as [p|]; [discriminate Hp|].
  assert (Hargs : option_map
                    (filter (fun kv => negb (JS.is_undefined (snd kv)))) a = a).
  { destruct a as [a|]; [|reflexivity]. cbn [option_map].
    now rewrite filter_all. }
  assert (Hmap : forall l : option (list string),
             option_map (map (fun v => v)) l = l).
  { intros [l|]; [|reflexivity]. cbn [option_map]. now rewrite map_id. }
  cbn [nm_children nm_path] in IH |- *.
  destruct ch as [cs|].
  - destruct (buildChildren_plain fuel
                (td_id (initialTreeData
                          (mkNodeModel i nm d a inp out (Some cs) dbg dis None)
                          parent))
                cs (toFixed_nonempty _) (IH cs eq_refl) Hch
                (if noParent parent then resetStack st else st))
      as [cs' [E R]].
    rewrite E. eexists. split; [reflexivity|].
    rewrite createNode_eq. unfold isSubtreeRoot.
    cbn [set_children initialTreeData td_id td_name td_desc td_path td_debug
         td_disabled td_input td_output td_args td_children nm_id nm_name
         nm_desc nm_args nm_input nm_output nm_debug nm_disabled
         JS.truthy_string andb negb].
    now rewrite Number_toFixed, Hargs, !Hmap, R.
  - eexists. split; [reflexivity|].
    rewrite createNode_eq.
    cbn [initialTreeData td_id td_name td_desc td_path td_debug
         td_disabled td_input td_output td_args td_children nm_id nm_name
         nm_desc nm_args nm_input nm_output nm_debug nm_disabled].
    now rewrite Number_toFixed, Hargs, !Hmap.
Qed.

End CreateNodeRoundTrip.

Lemma createNode_createTreeData_witness :
  exists td,
    createTreeData (env := Sample.env) [] 0 Sample.sequenceWithStray None
      Sample.emptyState
    = Some (td, Sample.emptyState) /\
    createNode td true = Sample.sequenceWithStray.
Proof.
  apply (createNode_createTreeData (env := Sample.env) [] 0
           Sample.sequenceWithStray None Sample.emptyState).
  reflexivity.
Defined.

(** ** A tree that was just built *)

Section FreshBuild.

Context {env : Env}.
Variable fs : FileSystem.
Variable statSync : string -> option Z.

(** The files are on disk as [createTreeData] read them. *)
Hypothesis unchanged :
  forall path file,
    readTree fs path = Some file -> statSync path = Some (file_mtimeMs file).

Lemma messages_entry (parent : option string) (st : State) :
  messages (if noParent parent then resetStack st else st) = messages st.
Proof.
  now destruct (noParent parent).
Qed.

Lemma buildChildren_fresh (fuel : nat) (parent : string)
  (cs : list NodeModel) :
  Forall
    (fun c => forall parent st td st',
         createTreeData fs fuel c parent st = Some (td, st') ->
         exists extra,
           messages st' = (messages st ++ extra)%list /\
           (extra = [] -> isSubtreeUpdated statSync td = false)) cs ->
  forall st cs' st',
    buildChildren (createTreeData fs fuel) parent cs st = Some (cs', st') ->
    exists extra,
      messages st' = (messages st ++ extra)%list /\
      (extra = [] -> existsb (isSubtreeUpdated statSync) cs' = false).
Proof.
  induction 1 as [|c cs Hc _ IH]; intros st cs' st' H.
  - cbn in H. injection H as <- <-. exists []. split.
    + now rewrite app_nil_r.
    + reflexivity.
  - cbn [buildChildren] in H.
    destruct (createTreeData fs fuel c (Some parent) st) as [[td st1]|] eqn:E1;
      [|discriminate H].
    destruct (buildChildren (createTreeData fs fuel) parent cs st1)
      as [[rest st2]|] eqn:E2; [|discriminate H].
    injection H as <- <-.
    destruct (Hc _ _ _ _ E1) as [x1 [M1 U1]].
    destruct (IH _ _ _ E2) as [x2 [M2 U2]].
    exists (x1 ++ x2)%list. split.
    + now rewrite M2, M1, app_assoc.
    + intros Hnil. apply app_eq_nil in Hnil as [-> ->].
      cbn [existsb]. now rewrite U1, U2.
Qed.

Lemma createTreeData_fresh_step (fuel : nat) :
  (forall fuel', fuel = S fuel' ->
     forall node parent st td st',
       createTreeData fs fuel' node parent st = Some (td, st') ->
       exists extra,
         messages st' = (messages st ++ extra)%list /\
         (extra = [] -> isSubtreeUpdated statSync td = false)) ->
  forall node parent st td st',
    createTreeData fs fuel node parent st = Some (td, st') ->
    exists extra,
      messages st' = (messages st ++ extra)%list /\
      (extra = [] -> isSubtreeUpdated statSync td = false).
Proof.
  intros IHfuel. induction node as [node IH] using NodeModel_induction.
  intros parent st td st' H. rewrite createTreeData_eq in H. cbv zeta in H.
  pose proof (messages_entry parent st) as Hentry.
  set (st0 := if noParent parent then resetStack st else st) in *.
  assert (Hplain : isSubtreeUpdated statSync (initialTreeData node parent) = false)
    by reflexivity.
  destruct (nm_children node) as [cs|] eqn:Hcs.
  - destruct (buildChildren _ _ cs st0) as [[cs' st1]|] eqn:E; [|discriminate H].
    injection H as <- <-.
    destruct (buildChildren_fresh _ _ _ (IH cs eq_refl) _ _ _ E) as [x [M U]].
    exists x. split; [now rewrite M, Hentry|].
    intros Hnil. rewrite isSubtreeUpdated_eq.
    cbn [set_children td_children]. rewrite (U Hnil). reflexivity.
  - destruct (nm_path node) as [path|].
    2:{ injection H as <- <-. exists []. split; [|auto].
        now rewrite app_nil_r. }
    destruct (path =? "") eqn:Hempty; cbn [negb] in H.
    { injection H as <- <-. exists []. split; [|auto].
      now rewrite app_nil_r. }
    destruct (onStack path st0).
    { injection H as <- <-. exists [circularMessage path]. split.
      - cbn [message_error messages]. now rewrite Hentry.
      - discriminate. }
    destruct (readTree fs path) as [file|] eqn:Hread.
    2:{ injection H as <- <-. exists [parseFailedMessage path]. split.
        - cbn [pop push message_error messages]. now rewrite Hentry.
        - discriminate. }
    destruct fuel as [|fuel']; [discriminate H|].
    destruct (createTreeData fs fuel' (file_root file) _ (push path st0))
      as [[sub st1]|] eqn:E; [|discriminate H].
    injection H as <- <-.
    destruct (IHfuel fuel' eq_refl _ _ _ _ _ E) as [x [M U]].
    exists x. split.
    + cbn [pop messages]. rewrite M. cbn [push messages]. now rewrite Hentry.
    + intros Hnil. specialize (U Hnil).
      rewrite isSubtreeUpdated_eq in U. apply orb_false_elim in U as [_ U].
      rewrite isSubtreeUpdated_eq. unfold stale.
      cbn [set_id set_parent set_disabled set_debug set_path set_lastModified
           td_path td_lastModified td_children].
      rewrite (unchanged path file Hread), Hempty. cbn [sameTime negb andb].
      now rewrite Z.eqb_refl, U.
Qed.

(** X23. A tree that [createTreeData] built without showing a message
    is up to date as long as the files stay as they were read:
    [isSubtreeUpdated] answers [false] for it.  Every subtree that was
    inlined carries the modification time of its file, and a reference
    that was left unresolved has shown a message. *)
Theorem fresh_build_is_up_to_date (fuel : nat) :
  forall node parent st td st',
    createTreeData fs fuel node parent st = Some (td, st') ->
    messages st' = messages st ->
    isSubtreeUpdated statSync td = false.
Proof.
  assert (Hall : forall fuel node parent st td st',
             createTreeData fs fuel node parent st = Some (td, st') ->
             exists extra,
               messages st' = (messages st ++ extra)%list /\
               (extra = [] -> isSubtreeUpdated statSync td = false)).
  { clear fuel. induction fuel as [|fuel IHfuel];
      apply createTreeData_fresh_step.
    - intros fuel' Hfuel. discriminate Hfuel.
    - intros fuel' [= <-]. exact IHfuel. }
  intros node parent st td st' H Hsame.
  destruct (Hall fuel node parent st td st' H) as [extra [M U]].
  apply U. rewrite M in Hsame.
  rewrite <- (app_nil_r (messages st)) in Hsame at 2.
  now apply app_inv_head in Hsame.
Qed.

End FreshBuild.

Lemma fresh_build_is_up_to_date_witness :
  exists td st',
    createTreeData (env := Sample.env) Sample.oneFile 1 Sample.withReference
      None Sample.emptyState = Some (td, st') /\
    isSubtreeUpdated (Sample.stat Sample.oneFile) td = false.
Proof.
  eexists. eexists. split; [reflexivity|].
  apply (fresh_build_is_up_to_date (env := Sample.env) Sample.oneFile
           (Sample.stat Sample.oneFile)
           ltac:(intros path file H; unfold Sample.stat; now rewrite H)
           1 Sample.withReference None Sample.emptyState _
           Sample.emptyState);
    reflexivity.
Defined.

(** ** The two validators *)

Section ValidatorsAgree.

Context {env : Env}.

Lemma truthy_pad (a : list string) (n i : nat) :
  JS.truthy_string (nth_error (pad a n) i) = JS.truthy_string (nth_error a i).
Proof.
  unfold pad. destruct (Nat.lt_ge_cases i (List.length a)) as [Hi|Hi].
  - now rewrite nth_error_app1.
  - rewrite nth_error_app2 by exact Hi.
    assert (Hnone : nth_error a i = None) by now apply nth_error_None.
    rewrite Hnone.
    destruct (nth_error (repeat "" (n - List.length a)) (i - List.length a))
      as [s|] eqn:E; [|reflexivity].
    apply nth_error_In, repeat_spec in E. now subst s.
Qed.

Lemma isValid_pad (defs a : list string) (n i : nat) :
  isValidInputOrOutput defs (Some (pad a n)) i
  = isValidInputOrOutput defs (Some a) i.
Proof.
  unfold isValidInputOrOutput. cbn [slotAt]. now rewrite truthy_pad.
Qed.

Lemma isValid_none (defs : list string) (slots : option (list string))
  (i : nat) :
  isValidInputOrOutput defs
    (Some (match slots with Some l => l | None => [] end)) i
  = isValidInputOrOutput defs slots i.
Proof.
  destruct slots as [l|]; [reflexivity|].
  unfold isValidInputOrOutput. cbn [slotAt]. now destruct i.
Qed.

(** A slot loop that ends without error met no error before and found
    every slot valid. *)
Lemma checkSlotLoop_verdict (v : NodeLike) (what : string)
  (defs : list string) :
  forall m k slots h hv r h' hv',
    result (checkSlotLoop v what defs (seq k m) slots h hv)
    = Some (r, h', hv') ->
    h' = false ->
    h = false /\
    (forall i, k <= i < k + m ->
               isValidInputOrOutput defs slots i = Some true).
Proof.
  induction m as [|m IH]; intros k slots h hv r h' hv' H Hok.
  - cbn in H. injection H as _ <- _. split; [exact Hok|]. intros i Hi. lia.
  - cbn [seq checkSlotLoop] in H. cbv zeta in H.
    rewrite fillSlot_pad, isValid_pad, isValid_none, result_bind in H.
    destruct (isValidInputOrOutput defs slots k) as [valid|] eqn:Ev;
      [|discriminate H].
    cbn [lift result ret fst] in H. rewrite result_bind in H.
    destruct valid; cbn [negb result ret fst] in H.
    + apply IH in H; [|exact Hok]. destruct H as [Hh Hrest].
      split; [exact Hh|]. intros i Hi.
      destruct (Nat.eq_dec i k) as [->|Hne]; [exact Ev|].
      rewrite <- (Hrest i) by lia. now rewrite isValid_pad, isValid_none.
    + unfold error, console_error in H. rewrite bind_pair in H.
      cbn [result ret fst] in H. apply IH in H; [|exact Hok].
      destruct H as [Hh _]. discriminate Hh.
Qed.

Lemma checkSlots_verdict (v : NodeLike) (what : string)
  (slotDef : option (list string)) (slots : option (list string))
  (h : bool) (r : option (list string)) (h' : bool) :
  result (checkSlots v what slotDef slots h) = Some (r, h') ->
  h' = false ->
  h = false /\
  match slotDef with
  | Some defs => allSlotsValid defs slots (seq 0 (List.length defs))
  | None => Some true
  end = Some true.
Proof.
  unfold checkSlots. rewrite result_bind. intros H Hok.
  destruct slotDef as [defs|].
  - destruct (result (checkSlotLoop v what defs (seq 0 (List.length defs))
                        slots h false)) as [[[s1 h1] hv1]|] eqn:E;
      [|discriminate H].
    cbn in H. injection H as _ <-.
    destruct (checkSlotLoop_verdict _ _ _ _ _ _ _ _ _ _ _ E Hok) as [Hh Hall].
    split; [exact Hh|]. apply allSlotsValid_true. exact Hall.
  - cbn in H. injection H as _ <-. split; [exact Hok|reflexivity].
Qed.

(** An argument loop that ends without error met no error before and
    found every declared argument valid. *)
Lemma checkArgLoop_verdict (v : NodeLike) (conf : NodeDef)
  (declared : list NodeArg) :
  forall i acc h r h',
    result (checkArgLoop v conf declared i acc h) = Some (r, h') ->
    h' = false ->
    h = false /\
    (forall j, i <= j < i + List.length declared ->
               result (checkNodeArg v conf j true) = Some true).
Proof.
  induction declared as [|a rest IH]; intros i acc h r h' H Hok.
  - cbn in H. injection H as _ <-. split; [exact Hok|].
    intros j Hj. cbn [List.length] in Hj. lia.
  - cbn [checkArgLoop] in H. cbv zeta in H. rewrite result_bind in H.
    destruct (result (checkNodeArg v conf i true)) as [ok|] eqn:E;
      [|discriminate H].
    apply IH in H; [|exact Hok]. destruct H as [Hh Hrest].
    destruct ok; [|discriminate Hh].
    split; [exact Hh|]. intros j Hj. cbn [List.length] in Hj.
    destruct (Nat.eq_dec j i) as [->|Hne]; [exact E|apply Hrest; lia].
Qed.

Lemma valueHalf_ext (v1 v2 : NodeLike) (arg : NodeArg) (verbose : bool) :
  l_id v1 = l_id v2 -> l_name v1 = l_name v2 -> l_args v1 = l_args v2 ->
  valueHalf v1 arg verbose = valueHalf v2 arg verbose.
Proof.
  intros Hid Hname Hargs. unfold valueHalf. cbv zeta. rewrite Hargs.
  rewrite (checkNodeArgValue_ext v1 v2) by assumption.
  destruct (JS.get (l_args v2) (arg_name arg));
    rewrite ?(checkElements_ext v1 v2) by assumption;
    unfold error; rewrite ?Hid, ?Hname; reflexivity.
Qed.

Lemma findIndex_bound (f : string -> bool) (l : list string) (n : nat) :
  findIndex f l = Some n -> n < List.length l.
Proof.
  revert n. induction l as [|x l IH]; intros n H; [discriminate H|].
  cbn [findIndex] in H. destruct (f x).
  - injection H as <-. cbn. lia.
  - destruct (findIndex f l) as [k|]; [|discriminate H].
    injection H as <-. specialize (IH k eq_refl). cbn. lia.
Qed.

(** The slots [checkNodeData] leaves read, for the oneof link, as the
    slots it was given. *)
Lemma checkOneof_normalSlots (defs : list string)
  (slots : option (list string)) (n : nat) (x : JS.value) :
  n < List.length defs ->
  checkOneof x (JS.of_option_string (slotAt (Some (normalSlots defs slots)) n))
  = checkOneof x (JS.of_option_string (slotAt slots n)).
Proof.
  intros Hn. cbn [slotAt]. unfold normalSlots. cbv zeta.
  set (a := match slots with Some l => l | None => [] end).
  assert (Hnth : nth_error (if lastIsVariadic defs
                            then pad a (List.length defs)
                            else firstn (List.length defs)
                                   (pad a (List.length defs))) n
                 = Some (nth n a "")).
  { destruct (lastIsVariadic defs).
    - now apply nth_error_pad.
    - rewrite nth_error_firstn.
      destruct (Nat.ltb_spec n (List.length defs)); [|lia].
      now apply nth_error_pad. }
  rewrite Hnth.
  assert (Hslot : slotAt slots n = nth_error a n).
  { subst a. destruct slots as [l|]; [reflexivity|]. now destruct n. }
  rewrite Hslot. destruct (nth_error a n) as [s|] eqn:E.
  - now rewrite (nth_error_nth _ _ _ E).
  - apply nth_error_None in E. now rewrite nth_overflow.
Qed.

Lemma checkNodeArg_result_input (v1 v2 : NodeLike) (conf : NodeDef) (i : nat)
  (verbose : bool) :
  l_id v1 = l_id v2 -> l_name v1 = l_name v2 -> l_args v1 = l_args v2 ->
  (forall x n defs,
      def_input conf = Some defs -> n < List.length defs ->
      checkOneof x (JS.of_option_string (slotAt (l_input v1) n))
      = checkOneof x (JS.of_option_string (slotAt (l_input v2) n))) ->
  result (checkNodeArg v1 conf i verbose)
  = result (checkNodeArg v2 conf i verbose).
Proof.
  intros Hid Hname Hargs Hone. rewrite !checkNodeArg_halves.
  destruct (argAt conf i) as [arg|]; [|reflexivity].
  cbn [lift]. rewrite !bind_ret, !result_bind.
  rewrite (valueHalf_ext v1 v2) by assumption.
  destruct (result (valueHalf v2 arg verbose)) as [hasError|]; [|reflexivity].
  unfold oneofHalf. rewrite Hargs.
  destruct (arg_oneof arg) as [tag|]; [|reflexivity]. cbv zeta.
  destruct (def_input conf) as [defs|] eqn:Ed.
  - destruct (findIndex (fun v => JS.startsWith v tag) defs) as [n|] eqn:Ef.
    + rewrite (Hone _ n defs eq_refl (findIndex_bound _ _ _ Ef)).
      destruct (negb (checkOneof _ _)); destruct verbose; reflexivity.
    + destruct (negb (checkOneof _ _)); destruct verbose; reflexivity.
  - destruct (negb (checkOneof _ _)); destruct verbose; reflexivity.
Qed.

Lemma checkNodeArg_result_verbose (v : NodeLike) (conf : NodeDef) (i : nat) :
  result (checkNodeArg v conf i false) = result (checkNodeArg v conf i true).
Proof.
  rewrite !checkNodeArg_halves.
  destruct (argAt conf i) as [arg|]; [|reflexivity].
  cbn [lift]. rewrite !bind_ret, !result_bind.
  destruct (valueHalf_verbose v arg) as [Hr _]. rewrite Hr.
  destruct (result (valueHalf v arg false)) as [hasError|]; [|reflexivity].
  destruct (oneofHalf_verbose v conf arg hasError) as [Hr2 _].
  now rewrite Hr2.
Qed.

(** X24. The two validators agree on a node: when [checkNodeData]
    accepts a stored node that has a definition, [checkTreeData]
    accepts every graph node that shows it.  The slots that
    [checkNodeData] fills and cuts before it checks the arguments make
    no difference to the verdict. *)
Theorem checkNodeData_implies_checkTreeData (m m' : NodeModel)
  (td : TreeGraphData) :
  undefinedNode m = false ->
  shows td m ->
  result (checkNodeData m) = Some (true, m') ->
  result (checkTreeData td) = Some true.
Proof.
  intros Eu (Hid & Hname & Hdef & Hargs & Hin & Hout & Hcount) H.
  rewrite checkNodeData_eq in H. cbv zeta in H.
  unfold undefinedNode in Eu. rewrite Eu in H.
  set (conf := getNodeDef (nm_name m)) in *.
  rewrite result_bind in H.
  match type of H with
  | match result ?m0 with _ => _ end = _ =>
      destruct (result m0) as [h0|] eqn:E0; [|discriminate H]
  end.
  rewrite result_bind in H.
  destruct (result (checkSlots (ofModel m) "intput" (def_input conf)
                      (nm_input m) h0)) as [[input' h1]|] eqn:E1;
    [|discriminate H].
  cbv beta iota in H. rewrite result_bind in H.
  destruct (result (checkSlots (ofModel m) "output" (def_output conf)
                      (nm_output m) h1)) as [[output' h2]|] eqn:E2;
    [|discriminate H].
  cbv beta iota in H. rewrite result_bind in H.
  match type of H with
  | match result ?m3 with _ => _ end = _ =>
      destruct (result m3) as [[args' h3]|] eqn:E3; [|discriminate H]
  end.
  cbv beta iota in H. rewrite result_bind in H.
  match type of H with
  | match result ?m4 with _ => _ end = _ =>
      destruct (result m4) as [[children' h4]|] eqn:E4; [|discriminate H]
  end.
  cbv beta iota in H. cbn [result ret fst] in H. injection H as Hok _.
  apply negb_true_iff in Hok. subst h4.
  assert (H3 : h3 = false).
  { destruct (nm_children m) as [cs|].
    - destruct (checkChildren_Some cs h3 children' false E4) as [_ [Hup _]].
      destruct h3; [specialize (Hup eq_refl); discriminate Hup|reflexivity].
    - cbn in E4. now injection E4 as _ ->. }
  subst h3.
  assert (H2 : h2 = false /\
               forall declared j,
                 def_args conf = Some declared -> j < List.length declared ->
                 result (checkNodeArg
                           {| l_id := JS.toFixed (nm_id m);
                              l_name := nm_name m;
                              l_args := nm_args m; l_input := input' |}
                           conf j true) = Some true).
  { destruct (def_args conf) as [declared|].
    - rewrite result_bind in E3.
      destruct (result (checkArgLoop _ conf declared 0 [] h2))
        as [[R hR]|] eqn:EL; [|discriminate E3].
      cbn in E3. injection E3 as _ ->.
      destruct (checkArgLoop_verdict _ _ _ _ _ _ _ _ EL eq_refl) as [Hh Hall].
      split; [exact Hh|]. intros declared' j [= <-] Hj. apply Hall. lia.
    - cbn in E3. injection E3 as _ ->. split; [reflexivity|].
      intros declared j [=]. }
  destruct H2 as [-> Hargsok].
  destruct (checkSlots_verdict _ _ _ _ _ _ _ E2 eq_refl) as [-> Houtok].
  destruct (checkSlots_verdict _ _ _ _ _ _ _ E1 eq_refl) as [-> Hinok].
  assert (Hlimit : checkChildrenLimit td = true).
  { unfold checkChildrenLimit. rewrite Hdef.
    assert (Hz : match td_children td with
                 | Some cs => Z.of_nat (List.length cs)
                 | None => 0%Z
                 end
                 = match nm_children m with
                   | Some cs => Z.of_nat (List.length cs)
                   | None => 0%Z
                   end).
    { destruct (td_children td), (nm_children m);
        first [rewrite Hcount | rewrite <- Hcount | idtac]; reflexivity. }
    rewrite Hz. destruct (def_children conf) as [n|]; [|reflexivity].
    destruct (n =? -1)%Z; cbn [negb andb] in E0 |- *; [reflexivity|].
    destruct (Z.eqb_spec n (match nm_children m with
                            | Some cs => Z.of_nat (List.length cs)
                            | None => 0%Z
                            end)) as [<-|Hne].
    - apply Z.eqb_refl.
    - cbn in E0. discriminate E0. }
  assert (Hslots : forall x n defs,
             def_input conf = Some defs -> n < List.length defs ->
             checkOneof x (JS.of_option_string (slotAt input' n))
             = checkOneof x (JS.of_option_string (slotAt (nm_input m) n))).
  { intros x n defs Hd Hn.
    destruct (checkSlots_again (ofModel m) (ofModel m) "intput"
                (def_input conf) (nm_input m) false eq_refl eq_refl)
      as [s1 [e1 [l1 [A1 [_ A3]]]]].
    rewrite A1 in E1. cbn in E1. injection E1 as <- _.
    rewrite (A3 defs Hd) by (intros ->; cbn in Hn; lia).
    now apply checkOneof_normalSlots. }
  unfold checkTreeData. cbv zeta. rewrite Hdef, Hin, Hout.
  rewrite result_bind, Hinok. cbn [lift result ret fst negb].
  rewrite result_bind, Houtok. cbn [lift result ret fst negb].
  rewrite Hlimit. cbn [negb].
  destruct (def_args conf) as [declared|] eqn:Ed; [|reflexivity].
  apply allArgsValid_true. intros j Hj.
  rewrite checkNodeArg_result_verbose.
  rewrite <- (Hargsok declared j eq_refl) by lia.
  apply checkNodeArg_result_input; try reflexivity.
  - exact Hid.
  - exact Hname.
  - exact Hargs.
  - intros x n defs Hd Hn. cbn [ofGraph l_input]. rewrite Hin.
    symmetry. now apply (Hslots x n defs).
Qed.



End ValidatorsAgree.

Lemma checkNodeData_implies_checkTreeData_witness :
  result (checkTreeData (env := Sample.env) Sample.logGraph) = Some true.
Proof.
  apply (checkNodeData_implies_checkTreeData (env := Sample.env)
           Sample.logWithInput Sample.logChecked Sample.logGraph).
  - reflexivity.
  - unfold shows. repeat split; reflexivity.
  - reflexivity.
Defined.

(** ** A reference to a file that cannot be read *)

Section UnreadableReference.

Context {env : Env}.
Variable fs : FileSystem.

(** X25. A reference to a subtree file that cannot be read or parsed
    is built as a plain node: [createTreeData] returns the node
    without path, children or modification time, shows one message
    and leaves the stack of paths as it was.  Written back with
    [createFileData], the node no longer refers to the file. *)
Theorem unreadable_reference_loses_path (fuel : nat) (node : NodeModel)
  (parent : option string) (st : State) (path : string) :
  nm_children node = None -> nm_path node = Some path -> path <> "" ->
  onStack path (if noParent parent then resetStack st else st) = false ->
  readTree fs path = None ->
  exists st',
    createTreeData fs fuel node parent st
    = Some (initialTreeData node parent, st') /\
    messages st' = (messages st ++ [parseFailedMessage path])%list /\
    parsingStack st'
    = parsingStack (if noParent parent then resetStack st else st) /\
    forall includeSubtree,
      nm_path (createFileData (initialTreeData node parent) includeSubtree)
      = None.
Proof.
  intros Hch Hpath Hne Hstack Hread. rewrite createTreeData_eq. cbv zeta.
  rewrite Hch, Hpath, Hstack, Hread.
  apply String.eqb_neq in Hne. rewrite Hne. cbn [negb].
  eexists. split; [reflexivity|]. split; [|split].
  - cbn [pop push message_error messages]. now rewrite messages_entry.
  - cbn [pop push message_error parsingStack]. apply removelast_last.
  - intros includeSubtree. reflexivity.
Qed.

End UnreadableReference.

Lemma unreadable_reference_loses_path_witness :
  exists st',
    createTreeData (env := Sample.env) [] 0
      (Sample.reference 2 "Sequence" "missing.json") (Some "1")
      Sample.emptyState
    = Some (initialTreeData (env := Sample.env)
              (Sample.reference 2 "Sequence" "missing.json") (Some "1"), st') /\
    messages st'
    = (messages Sample.emptyState ++ [parseFailedMessage "missing.json"])%list /\
    parsingStack st' = parsingStack Sample.emptyState /\
    forall includeSubtree,
      nm_path (createFileData (env := Sample.env)
                 (initialTreeData (env := Sample.env)
                    (Sample.reference 2 "Sequence" "missing.json") (Some "1"))
                 includeSubtree)
      = None.
Proof.
  apply (unreadable_reference_loses_path (env := Sample.env) [] 0
           (Sample.reference 2 "Sequence" "missing.json") (Some "1")
           Sample.emptyState "missing.json");
    try reflexivity.
  discriminate.
Defined.
